(** * IRONMAN race-results scraper: a shallow embedding and its properties

    The development follows [src/scripts/ironman_results_scraper.py].  The
    script is one module-level program: a loop over the race catalogue that
    drives a Selenium session through the date selector, the paginated table
    and the rows of each page, accumulates one dictionary per athlete row in
    [race_results], and writes one CSV file per race.

    - Part 1 gives the Python-level data (exceptions, dictionaries, the pandas
      frame that [to_csv] serialises).
    - Part 2 gives the Selenium interface as a signature of remote calls, and
      the monad (state, exceptions, divergence) in which the script runs.
    - Part 3 is the script itself, statement by statement.
    - Part 4 is a synthetic results site on which the script can be executed.
    - Part 5 holds the notions in which the properties are stated.
    - Part 6 holds the properties and their proofs.
    - Part 7 holds further properties: the catalogue addresses, the file
      names, the files, the sessions, the retry budgets and the log. *)

From Stdlib Require Import List String Ascii Arith Bool Lia.
From Stdlib Require Import DecimalString Sorted Relations.
Import ListNotations.
Open Scope string_scope.

Set Implicit Arguments.

(* ================================================================= *)
(** * Part 1: Python-level data *)

(** An exception object: its class name and the text [str(e)] gives. *)
Record exn : Type := Exception { exn_class : string; exn_str : string }.

Definition IndexError : exn :=
  Exception "IndexError" "list index out of range".
Definition NameError (name : string) : exn :=
  Exception "NameError" ("name '" ++ name ++ "' is not defined").
Definition TypeError : exn :=
  Exception "TypeError" "argument of type 'NoneType' is not iterable".

(** [str(n)] for a non-negative integer. *)
Definition str_of_nat (n : nat) : string :=
  NilEmpty.string_of_uint (Nat.to_uint n).

(** [s[:n]] *)
Definition str_prefix (n : nat) (s : string) : string := substring 0 n s.

(** [needle in hay] for a non-empty [needle]. *)
Definition str_contains (needle hay : string) : bool :=
  match index 0 needle hay with Some _ => true | None => false end.

(** An f-string field holding a value that may be [None]. *)
Definition fmt_opt (o : option string) : string :=
  match o with Some s => s | None => "None" end.

(** [xs[i]] on a Python list. *)
Definition py_index {A : Type} (xs : list A) (i : nat) : exn + A :=
  match nth_error xs i with Some x => inr x | None => inl IndexError end.

(** ** Dictionaries

    A record of the result set is a [dict] with string keys and string
    values; Python dictionaries keep insertion order and pandas reads the
    column order off it, so the model is an association list. *)
Definition dict : Type := list (string * string).

Fixpoint dict_get (k : string) (d : dict) : option string :=
  match d with
  | [] => None
  | (k', v) :: d' => if String.eqb k k' then Some v else dict_get k d'
  end.

Definition dict_keys (d : dict) : list string := map fst d.

(** ** [re.sub(r'\W+', '_', race_name)]

    Every maximal run of non-word characters becomes one underscore.  The
    model works on bytes: a word character is an ASCII letter, digit or
    underscore, and every byte above 127 (part of a UTF-8 encoded letter in
    most race names) is kept as it is. *)
Definition is_word_char (c : ascii) : bool :=
  let n := nat_of_ascii c in
  (((48 <=? n) && (n <=? 57)) || ((65 <=? n) && (n <=? 90)) ||
   ((97 <=? n) && (n <=? 122)) || (n =? 95) || (128 <=? n))%nat.

Fixpoint sub_nonword (in_run : bool) (s : string) : string :=
  match s with
  | EmptyString => EmptyString
  | String c s' =>
      if is_word_char c then String c (sub_nonword false s')
      else if in_run then sub_nonword true s'
      else String "_"%char (sub_nonword true s')
  end.

Definition safe_race_name_of (race_name : string) : string :=
  sub_nonword false race_name.

(** ** [str.strip()] and [str.endswith]

    White space is what [str.isspace] accepts among the ASCII characters:
    tab to carriage return, the four separators 28 to 31, and the space.
    Strings are byte strings here: the model is exact on ASCII strings. *)
Definition is_space (c : ascii) : bool :=
  let n := nat_of_ascii c in
  (((9 <=? n) && (n <=? 13)) || ((28 <=? n) && (n <=? 32)))%nat.

Fixpoint lstrip (s : string) : string :=
  match s with
  | EmptyString => EmptyString
  | String c s' => if is_space c then lstrip s' else s
  end.

Fixpoint rstrip (s : string) : string :=
  match s with
  | EmptyString => EmptyString
  | String c s' =>
      match rstrip s' with
      | EmptyString => if is_space c then EmptyString else String c EmptyString
      | r => String c r
      end
  end.

Definition strip (s : string) : string := rstrip (lstrip s).

Fixpoint endswith (s suffix : string) : bool :=
  (s =? suffix)
  || match s with
     | EmptyString => false
     | String _ s' => endswith s' suffix
     end.

(** ** [pd.DataFrame(race_results).to_csv(csv_filename, index=False)]

    pandas builds the frame of a list of dictionaries with one column per
    key, in order of first appearance, and a missing value (NaN) wherever a
    dictionary lacks the key; [to_csv] writes the header line and one line
    per dictionary, a missing value as the empty string (its default
    [na_rep]).  The model stops at the cells: a file is its list of lines,
    each the list of its cells. *)
Definition add_column (cols : list string) (k : string) : list string :=
  if existsb (String.eqb k) cols then cols else cols ++ [k].

Definition DataFrame_columns (records : list dict) : list string :=
  fold_left (fun cols r => fold_left add_column (dict_keys r) cols) records [].

Definition csv : Type := list (list string).

Definition csv_cell (r : dict) (col : string) : string :=
  match dict_get col r with Some v => v | None => EmptyString end.

Definition csv_line (cols : list string) (r : dict) : list string :=
  map (csv_cell r) cols.

Definition to_csv (records : list dict) : csv :=
  let cols := DataFrame_columns records in
  cols :: map (csv_line cols) records.

(** The header and the data lines of a written file. *)
Definition csv_header (f : csv) : list string := hd [] f.
Definition csv_rows (f : csv) : list (list string) := tl f.

(* ================================================================= *)
(** * Part 2: the Selenium interface and the monad of the script *)

(** ** Results and the monad

    A statement runs on a state and either completes with a value, raises a
    Python exception, or is still running when the fuel given to a [while]
    loop is used up.  The state reached is kept in every case: what a block
    did before it raised stays done. *)
Inductive result (A : Type) : Type :=
| Ok (a : A)
| Raise (e : exn)
| Diverge.
Arguments Raise {A} e.
Arguments Diverge {A}.

Definition M (St A : Type) : Type := St -> result A * St.

Definition ret {St A : Type} (a : A) : M St A := fun s => (Ok a, s).

Definition bind {St A B : Type} (m : M St A) (k : A -> M St B) : M St B :=
  fun s =>
    match m s with
    | (Ok a, s') => k a s'
    | (Raise e, s') => (Raise e, s')
    | (Diverge, s') => (Diverge, s')
    end.

Definition raise {St A : Type} (e : exn) : M St A := fun s => (Raise e, s).

Definition modify {St : Type} (f : St -> St) : M St unit := fun s => (Ok tt, f s).

Definition gets {St A : Type} (f : St -> A) : M St A := fun s => (Ok (f s), s).

Definition lift_exn {St A : Type} (r : exn + A) : M St A :=
  match r with inl e => raise e | inr a => ret a end.

Notation "x <- m ;; k" := (bind m (fun x => k))
  (at level 61, m at next level, right associativity).
Notation "m ;; k" := (bind m (fun _ => k))
  (at level 61, right associativity).

(** [try: body  except Exception as e: handler(e)] *)
Definition try_except {St A : Type} (body : M St A) (handler : exn -> M St A)
  : M St A :=
  fun s =>
    match body s with
    | (Raise e, s') => handler e s'
    | other => other
    end.

(** [try: body  finally: final] -- [final] runs however [body] ended, and an
    exception of [final] replaces the outcome of [body]. *)
Definition try_finally {St A : Type} (body : M St A) (final : M St unit)
  : M St A :=
  fun s =>
    match body s with
    | (Diverge, s') => (Diverge, s')
    | (r, s') =>
        match final s' with
        | (Ok _, s'') => (r, s'')
        | (Raise e, s'') => (Raise e, s'')
        | (Diverge, s'') => (Diverge, s'')
        end
    end.

(** [for i in range(n): body(i)], counting from [i]. *)
Fixpoint for_range_from {St : Type} (i n : nat) (body : nat -> M St unit)
  : M St unit :=
  match n with
  | 0 => ret tt
  | S n' => body i ;; for_range_from (S i) n' body
  end.

Definition for_range {St : Type} (n : nat) (body : nat -> M St unit) : M St unit :=
  for_range_from 0 n body.

(** The retry idiom of the script:
[[
    for attempt in range(n):
        try:
            body
            break
        except Exception as e:
            handler(attempt, e)
]]
    The value tells whether the loop was left by [break]; [false] is the
    case in which a [for ... else] runs its [else]. *)
Fixpoint attempts_from {St : Type} (attempt n : nat) (body : M St unit)
  (handler : nat -> exn -> M St unit) : M St bool :=
  match n with
  | 0 => ret false
  | S n' =>
      broke <- try_except (body ;; ret true)
                          (fun e => handler attempt e ;; ret false) ;;
      if broke : bool then ret true
      else attempts_from (S attempt) n' body handler
  end.

Definition attempts {St : Type} (n : nat) (body : M St unit)
  (handler : nat -> exn -> M St unit) : M St bool :=
  attempts_from 0 n body handler.

(** [while cond: body], with fuel: a loop that has not stopped after [fuel]
    iterations is reported as [Diverge], which no [except] catches. *)
Fixpoint while_loop {St : Type} (fuel : nat) (cond : St -> bool) (body : M St unit)
  : M St unit :=
  match fuel with
  | 0 => fun s => if cond s then (Diverge, s) else (Ok tt, s)
  | S fuel' =>
      fun s => if cond s then (body ;; while_loop fuel' cond body) s
               else (Ok tt, s)
  end.

(** ** The remote calls

    Everything the script asks of Selenium.  [WaitPresence d t loc] stands
    for [WebDriverWait(d, t).until(EC.presence_of_element_located(loc))],
    and likewise for the other waits; a wait that times out raises. *)
Inductive by_strategy : Type := CSS_SELECTOR | XPATH.
Definition locator : Type := (by_strategy * string)%type.

Section Calls.
Variables driver_t elem_t : Type.

Inductive call : Type -> Type :=
| Chrome : call driver_t                         (* webdriver.Chrome() *)
| MaximizeWindow (d : driver_t) : call unit
| Get (d : driver_t) (url : option string) : call unit
| Quit (d : driver_t) : call unit
| WaitPresence (d : driver_t) (timeout : nat) (loc : locator) : call elem_t
| WaitPresenceAll (d : driver_t) (timeout : nat) (loc : locator)
    : call (list elem_t)
| WaitClickable (d : driver_t) (timeout : nat) (loc : locator) : call elem_t
| WaitStaleness (d : driver_t) (timeout : nat) (e : elem_t) : call unit
| FindElement (d : driver_t) (loc : locator) : call elem_t
| GetAttribute (e : elem_t) (name : string) : call (option string)
| GetText (e : elem_t) : call string               (* e.text *)
| Click (e : elem_t) : call unit
| ExecuteScript (d : driver_t) (script : string) (arg : elem_t) : call unit
| SendEscape (d : driver_t) : call unit.
    (* ActionChains(d).send_keys(Keys.ESCAPE).perform() *)

(** One interaction: the call made and the answer received. *)
Inductive event : Type := Ev (R : Type) (c : call R) (answer : exn + R).

(** A browser: how the remote side answers a call and what the passing of
    time ([time.sleep], in milliseconds) does to it. *)
Record browser (W : Type) : Type := Browser {
  handle : forall R : Type, call R -> W -> (exn + R) * W;
  sleep_for : nat -> W -> W
}.

Definition succeeded (ev : event) : bool :=
  match ev with Ev _ (inr _) => true | Ev _ (inl _) => false end.

(** A session-open operation: a call of [webdriver.Chrome()]. *)
Definition is_open (ev : event) : bool :=
  match ev with Ev Chrome _ => true | Ev _ _ => false end.

(** The calls that start a session or end it: [webdriver.Chrome()],
    [maximize_window()], [get(url)] and [quit()]. *)
Definition session_call (R : Type) (c : call R) : bool :=
  match c with
  | Chrome | MaximizeWindow _ | Get _ _ | Quit _ => true
  | _ => false
  end.

(** The calls of a driver restart (lines 137-145): those above, the wait
    for the results frame and the read of its address. *)
Definition restart_call (R : Type) (c : call R) : bool :=
  match c with
  | Chrome | MaximizeWindow _ | Get _ _ | Quit _ => true
  | WaitPresence _ _ (CSS_SELECTOR, sel) => sel =? "iframe.coh-iframe"
  | GetAttribute _ name => name =? "src"
  | _ => false
  end.

Definition failed_restart_call (ev : event) : bool :=
  match ev with
  | Ev c a => restart_call c && negb (succeeded ev)
  end.

(** A confirmed page transition: a staleness wait that came back. *)
Definition is_transition (ev : event) : bool :=
  match ev with
  | Ev (WaitStaleness _ _ _) (inr _) => true
  | Ev _ _ => false
  end.
End Calls.

Arguments Chrome {driver_t elem_t}.
Arguments MaximizeWindow {driver_t elem_t} d.
Arguments Get {driver_t elem_t} d url.
Arguments Quit {driver_t elem_t} d.
Arguments WaitPresence {driver_t elem_t} d timeout loc.
Arguments WaitPresenceAll {driver_t elem_t} d timeout loc.
Arguments WaitClickable {driver_t elem_t} d timeout loc.
Arguments WaitStaleness {driver_t elem_t} d timeout e.
Arguments FindElement {driver_t elem_t} d loc.
Arguments GetAttribute {driver_t elem_t} e name.
Arguments GetText {driver_t elem_t} e.
Arguments Click {driver_t elem_t} e.
Arguments ExecuteScript {driver_t elem_t} d script arg.
Arguments SendEscape {driver_t elem_t} d.

(* ================================================================= *)
(** * Part 3: the script *)

Definition NL : string := String (ascii_of_nat 10) EmptyString.

(** Configurable settings (lines 68-69). *)
Definition SET_ROWS_TO_100 : bool := true.
Definition ENABLE_PAGINATION : bool := true.

Definition output_directory : string := "data/urls/all_ironman_races/".

(** The function applied to the column ['URL'] of the catalogue when it is
    loaded (lines 76-78).  A cell holds a string, or something else (the NaN
    of an empty cell), which is [None] here and is passed on as it is. *)
Definition results_url (x : option string) : option string :=
  match x with
  | Some u =>
      if negb (endswith (strip u) "-results")
      then Some (strip u ++ "-results")
      else Some u
  | None => None
  end.

(** One row of the race catalogue, as [race_data.iterrows()] yields it:
    the columns ['URL'] and ['Race Name']. *)
Record RaceTarget : Type := Race { URL : string; Race_Name : string }.

(** Where a record was produced: date ordinal, page visit, row ordinal. *)
Definition position : Type := (nat * nat * nat)%type.

Section Script.
Variables driver_t elem_t W : Type.
Variable B : browser driver_t elem_t W.

(** The state of a run: the remote side, what the script has printed and
    written, and the module-level variables that are assigned in one block
    and read in another.  A variable that has no value before its first
    assignment is an [option].  The last three fields are ghost state: they
    record what the script did and are never read by it. *)
Record state : Type := State {
  world : W;
  stdout : list string;                 (* printed lines, latest first *)
  files : list (string * csv);          (* files written, latest first *)
  race_date_counter : nat;
  race_date_text : option string;
  race_results : list dict;
  driver : option driver_t;
  rows : option (list elem_t);
  pagination_active : bool;
  trace : list (event driver_t elem_t); (* ghost: calls made, latest first *)
  page_no : nat;                        (* ghost: pages done for this date *)
  provenance : list position            (* ghost: one entry per record *)
}.

Definition set_world (w : W) (s : state) : state :=
  State w (stdout s) (files s) (race_date_counter s) (race_date_text s)
    (race_results s) (driver s) (rows s) (pagination_active s) (trace s)
    (page_no s) (provenance s).
Definition set_stdout (o : list string) (s : state) : state :=
  State (world s) o (files s) (race_date_counter s) (race_date_text s)
    (race_results s) (driver s) (rows s) (pagination_active s) (trace s)
    (page_no s) (provenance s).
Definition set_files (f : list (string * csv)) (s : state) : state :=
  State (world s) (stdout s) f (race_date_counter s) (race_date_text s)
    (race_results s) (driver s) (rows s) (pagination_active s) (trace s)
    (page_no s) (provenance s).
Definition set_race_date_counter (c : nat) (s : state) : state :=
  State (world s) (stdout s) (files s) c (race_date_text s)
    (race_results s) (driver s) (rows s) (pagination_active s) (trace s)
    (page_no s) (provenance s).
Definition set_race_date_text (t : option string) (s : state) : state :=
  State (world s) (stdout s) (files s) (race_date_counter s) t
    (race_results s) (driver s) (rows s) (pagination_active s) (trace s)
    (page_no s) (provenance s).
Definition set_results (r : list dict) (p : list position) (s : state)
  : state :=
  State (world s) (stdout s) (files s) (race_date_counter s)
    (race_date_text s) r (driver s) (rows s) (pagination_active s)
    (trace s) (page_no s) p.
Definition set_driver (d : option driver_t) (s : state) : state :=
  State (world s) (stdout s) (files s) (race_date_counter s)
    (race_date_text s) (race_results s) d (rows s) (pagination_active s)
    (trace s) (page_no s) (provenance s).
Definition set_rows (r : option (list elem_t)) (s : state) : state :=
  State (world s) (stdout s) (files s) (race_date_counter s)
    (race_date_text s) (race_results s) (driver s) r (pagination_active s)
    (trace s) (page_no s) (provenance s).
Definition set_pagination_active (b : bool) (s : state) : state :=
  State (world s) (stdout s) (files s) (race_date_counter s)
    (race_date_text s) (race_results s) (driver s) (rows s) b (trace s)
    (page_no s) (provenance s).
Definition set_trace (t : list (event driver_t elem_t)) (s : state)
  : state :=
  State (world s) (stdout s) (files s) (race_date_counter s)
    (race_date_text s) (race_results s) (driver s) (rows s)
    (pagination_active s) t (page_no s) (provenance s).
Definition set_page_no (n : nat) (s : state) : state :=
  State (world s) (stdout s) (files s) (race_date_counter s)
    (race_date_text s) (race_results s) (driver s) (rows s)
    (pagination_active s) (trace s) n (provenance s).

(** The state in which the script starts (line 85). *)
Definition initial_state (w : W) : state :=
  State w [] [] 0 None [] None None true [] 0 [].

Definition Run : Type -> Type := M state.

(** ** Primitive statements *)

(** A call to Selenium: the browser answers and moves on; the call is
    noted in the trace. *)
Definition remote {R : Type} (c : call driver_t elem_t R) : Run R :=
  fun s =>
    let (r, w') := handle B c (world s) in
    (match r with inl e => Raise e | inr v => Ok v end,
     set_world w' (set_trace (Ev c r :: trace s) s)).

(** [time.sleep], in milliseconds. *)
Definition time_sleep (ms : nat) : Run unit :=
  modify (fun s => set_world (sleep_for B ms (world s)) s).

Definition print (line : string) : Run unit :=
  modify (fun s => set_stdout (line :: stdout s) s).

(** Reading a variable that may not be bound yet. *)
Definition read_var {A : Type} (name : string) (v : state -> option A)
  : Run A :=
  fun s => match v s with
           | Some a => (Ok a, s)
           | None => (Raise (NameError name), s)
           end.

(** [race_results.append(record)]; the ghost list notes the date ordinal,
    the page and the row ordinal at which the record is appended. *)
Definition append_result (i row_number : nat) (record : dict) : Run unit :=
  modify (fun s => set_results (race_results s ++ [record])
                     (provenance s ++ [(i, page_no s, row_number)]) s).

(** [df_race.to_csv(csv_filename, ...)] *)
Definition write_csv (filename : string) (content : csv) : Run unit :=
  modify (fun s => set_files ((filename, content) :: files s) s).

(** ** Field reads (lines 212-232) *)

Definition find_text (xpath : string) : Run string :=
  d <- read_var "driver" driver ;;
  e <- remote (FindElement d (XPATH, xpath)) ;;
  remote (GetText e).

Fixpoint get_text_loop (retries delay : nat) (xpath : string) : Run string :=
  match retries with
  | 0 => ret "N/A"
  | S retries' =>
      r <- try_except (t <- find_text xpath ;; ret (Some t))
                      (fun _ => time_sleep delay ;; ret None) ;;
      match r with
      | Some t => ret t
      | None => get_text_loop retries' delay xpath
      end
  end.

Definition get_text (xpath : string) : Run string :=
  get_text_loop 3 500 xpath.

Definition xpath_variants (row_index : option string) (field_name : string)
  : list string :=
  [ "//div[@data-rowindex='" ++ fmt_opt row_index ++ "']//div[@data-field='"
      ++ field_name ++ "']/p";
    "//div[@data-rowindex='" ++ fmt_opt row_index ++ "']//div[@data-field='"
      ++ field_name ++ "']/span/p" ].

Fixpoint first_text (xpaths : list string) : Run (option string) :=
  match xpaths with
  | [] => ret None
  | xpath :: rest =>
      r <- try_except (t <- find_text xpath ;; ret (Some t))
                      (fun _ => ret None) ;;
      match r with
      | Some t => ret (Some t)
      | None => first_text rest
      end
  end.

Fixpoint by_data_field_loop (retries delay : nat) (xpaths : list string)
  : Run string :=
  match retries with
  | 0 => ret "N/A"
  | S retries' =>
      r <- first_text xpaths ;;
      match r with
      | Some t => ret t
      | None => time_sleep delay ;; by_data_field_loop retries' delay xpaths
      end
  end.

Definition get_text_by_data_field (row_index : option string)
  (field_name : string) : Run string :=
  by_data_field_loop 3 500 (xpath_variants row_index field_name).

Definition label_xpath (label : string) : string :=
  "//h6[contains(text(),'" ++ label ++ "')]/preceding-sibling::h6".

(** ** One athlete row (lines 234-291) *)

Definition row_locator : locator :=
  (CSS_SELECTOR, "div[role='row'][data-rowindex]").

(** The three dictionary displays; the items are evaluated in the order in
    which they are written. *)
Definition record_base_only (race_name designation : string)
  (row_index : option string) : Run dict :=
  race_date <- read_var "race_date_text" race_date_text ;;
  athlete <- get_text_by_data_field row_index "athlete" ;;
  ret [ ("Race Name", race_name); ("Race Date", race_date);
        ("Athlete", athlete); ("Designation", designation) ].

Definition record_dnf (race_name designation : string)
  (row_index : option string) : Run dict :=
  race_date <- read_var "race_date_text" race_date_text ;;
  athlete <- get_text_by_data_field row_index "athlete" ;;
  swim <- get_text_by_data_field row_index "wtc_swimtimeformatted" ;;
  t1 <- get_text_by_data_field row_index "wtc_transition1timeformatted" ;;
  bike <- get_text_by_data_field row_index "wtc_biketimeformatted" ;;
  t2 <- get_text_by_data_field row_index "wtc_transitiontime2formatted" ;;
  run <- get_text_by_data_field row_index "wtc_runtimeformatted" ;;
  finish <- get_text_by_data_field row_index "wtc_finishtimeformatted" ;;
  ret [ ("Race Name", race_name); ("Race Date", race_date);
        ("Athlete", athlete); ("Designation", designation);
        ("Swim Time", swim); ("Transition 1", t1); ("Bike Time", bike);
        ("Transition 2", t2); ("Run Time", run); ("Finish Time", finish) ].

Definition record_finisher (race_name designation : string)
  (row_index : option string) : Run dict :=
  race_date <- read_var "race_date_text" race_date_text ;;
  athlete <- get_text_by_data_field row_index "athlete" ;;
  div_rank <- get_text (label_xpath "Div Rank") ;;
  gender_rank <- get_text (label_xpath "Gender Rank") ;;
  overall_rank <- get_text (label_xpath "Overall Rank") ;;
  division <- get_text (label_xpath "Division") ;;
  swim <- get_text_by_data_field row_index "wtc_swimtimeformatted" ;;
  t1 <- get_text_by_data_field row_index "wtc_transition1timeformatted" ;;
  bike <- get_text_by_data_field row_index "wtc_biketimeformatted" ;;
  t2 <- get_text_by_data_field row_index "wtc_transitiontime2formatted" ;;
  run <- get_text_by_data_field row_index "wtc_runtimeformatted" ;;
  finish <- get_text_by_data_field row_index "wtc_finishtimeformatted" ;;
  ret [ ("Race Name", race_name); ("Race Date", race_date);
        ("Athlete", athlete); ("Div Rank", div_rank);
        ("Gender Rank", gender_rank); ("Overall Rank", overall_rank);
        ("Designation", designation); ("Division", division);
        ("Swim Time", swim); ("Transition 1", t1); ("Bike Time", bike);
        ("Transition 2", t2); ("Run Time", run); ("Finish Time", finish) ].

(** The designation dispatch (lines 247-285). *)
Definition build_record (race_name designation : string)
  (row_index : option string) : Run dict :=
  if (designation =? "DNS") || (designation =? "DQ") then
    record_base_only race_name designation row_index
  else if designation =? "DNF" then
    record_dnf race_name designation row_index
  else
    record_finisher race_name designation row_index.

(** The body of the [try] of one attempt (lines 236-288).  [i] is the date
    loop's variable, used for the ghost position only. *)
Definition extract_row (race_name : string) (i row_number : nat) : Run unit :=
  d <- read_var "driver" driver ;;
  rs <- remote (WaitPresenceAll d 10 row_locator) ;;
  modify (set_rows (Some rs)) ;;
  row <- lift_exn (py_index rs row_number) ;;
  row_index <- remote (GetAttribute row "data-rowindex") ;;
  remote (ExecuteScript d "arguments[0].scrollIntoView(true);" row) ;;
  remote (Click row) ;;
  designation <- get_text (label_xpath "Designation") ;;
  record <- build_record race_name designation row_index ;;
  append_result i row_number record ;;
  remote (Click row).                                    (* close row *)

Definition process_row (race_name : string) (i row_number : nat)
  : Run unit :=
  attempts 10 (extract_row race_name i row_number)
    (fun attempt e =>
       print ("Retry " ++ str_of_nat (attempt + 1) ++ " on row "
                ++ str_of_nat (row_number + 1) ++ ": "
                ++ str_prefix 100 (exn_str e)) ;;
       time_sleep 200) ;;
  ret tt.

(** ** Pagination (lines 296-313) *)

Definition next_page_attempt : Run unit :=
  d <- read_var "driver" driver ;;
  next_button <-
    remote (WaitPresence d 5 (XPATH, "//button[@aria-label='Go to next page']")) ;;
  cls <- remote (GetAttribute next_button "class") ;;
  match cls with
  | None => raise TypeError
  | Some c =>
      if str_contains "Mui-disabled" c then
        modify (set_pagination_active false)               (* break *)
      else
        remote (Click next_button) ;;
        rs <- read_var "rows" rows ;;
        first_row <- lift_exn (py_index rs 0) ;;
        remote (WaitStaleness d 10 first_row)               (* break *)
  end.

Definition next_page : Run unit :=
  if ENABLE_PAGINATION then
    broke <- attempts 5 next_page_attempt (fun _ _ => time_sleep 200) ;;
    if broke : bool then ret tt
    else modify (set_pagination_active false)               (* for-else *)
  else modify (set_pagination_active false).

(** One turn of [while pagination_active] (lines 201-313). *)
Definition process_page (race_name : string) (i : nat) : Run unit :=
  d <- read_var "driver" driver ;;
  rs <- remote (WaitPresenceAll d 10 row_locator) ;;
  modify (set_rows (Some rs)) ;;
  print ("📋 Found " ++ str_of_nat (List.length rs) ++ " rows on this page.") ;;
  for_range (List.length rs) (process_row race_name i) ;;
  next_page ;;
  modify (fun s => set_page_no (S (page_no s)) s).

(** ** One race date (lines 130-313) *)

Definition restart_driver (race_url : string) : Run unit :=
  d <- read_var "driver" driver ;;
  remote (Quit d) ;;
  d' <- remote Chrome ;;
  modify (set_driver (Some d')) ;;
  remote (MaximizeWindow d') ;;
  remote (Get d' (Some race_url)) ;;
  iframe <- remote (WaitPresence d' 10 (CSS_SELECTOR, "iframe.coh-iframe")) ;;
  src <- remote (GetAttribute iframe "src") ;;
  remote (Get d' src) ;;
  time_sleep (5 * 1000).

Definition restart_if_due (race_url : string) : Run unit :=
  c <- gets race_date_counter ;;
  if (0 <? c)%nat && (c mod 1 =? 0)%nat then
    print "🔄 Restarting driver to clear memory..." ;;
    attempts 10 (restart_driver race_url)
      (fun attempt e =>
         print ("⚠️ Retry " ++ str_of_nat (attempt + 1)
                  ++ " on driver restart failed: "
                  ++ str_prefix 100 (exn_str e)) ;;
         time_sleep 3000) ;;
    ret tt
  else ret tt.

Definition select_race_date (i : nat) : Run unit :=
  d <- read_var "driver" driver ;;
  dropdown <- remote (WaitClickable d 10 (CSS_SELECTOR, "div[role='combobox']")) ;;
  remote (Click dropdown) ;;
  options <-
    remote (WaitPresenceAll d 10
              (CSS_SELECTOR, "ul[role='listbox'] li[role='option']")) ;;
  current_option <- lift_exn (py_index options i) ;;
  text <- remote (GetText current_option) ;;
  modify (set_race_date_text (Some text)) ;;
  print ("➡️ Selecting race date: " ++ text) ;;
  remote (Click current_option) ;;
  time_sleep 1000.

Definition select_with_retries (i : nat) : Run unit :=
  attempts 5 (select_race_date i)
    (fun attempt e =>
       print ("Retry " ++ str_of_nat (attempt + 1)
                ++ " on selecting race date failed: "
                ++ str_prefix 100 (exn_str e)) ;;
       time_sleep 500) ;;
  ret tt.

Definition set_rows_to_100 : Run unit :=
  d <- read_var "driver" driver ;;
  rows_dropdown <-
    remote (WaitClickable d 10 (CSS_SELECTOR, "div.MuiTablePagination-select")) ;;
  remote (Click rows_dropdown) ;;
  option_100 <-
    remote (WaitClickable d 10 (XPATH, "//li[contains(text(),'100')]")) ;;
  remote (Click option_100) ;;
  print "📊 Set rows per page to 100." ;;
  time_sleep (10 * 1000).

Definition set_rows_with_retries : Run unit :=
  if SET_ROWS_TO_100 then
    attempts 5 set_rows_to_100
      (fun attempt e =>
         print ("Retry " ++ str_of_nat (attempt + 1) ++ " on setting rows: "
                  ++ str_prefix 100 (exn_str e)) ;;
         time_sleep 500) ;;
    ret tt
  else ret tt.

Definition page_loop (fuel : nat) (race_name : string) (i : nat) : Run unit :=
  modify (fun s => set_page_no 0 (set_pagination_active true s)) ;;
  while_loop fuel pagination_active (process_page race_name i).

(** The body of [for i in range(len(race_dates))]. *)
Definition process_date (fuel : nat) (race_url race_name : string) (i : nat)
  : Run unit :=
  restart_if_due race_url ;;
  select_with_retries i ;;
  modify (fun s => set_race_date_counter (race_date_counter s + 1) s) ;;
  set_rows_with_retries ;;
  page_loop fuel race_name i.

(** ** One race (lines 91-326) *)

Fixpoint texts_of (options : list elem_t) : Run (list string) :=
  match options with
  | [] => ret []
  | option :: rest =>
      t <- remote (GetText option) ;;
      ts <- texts_of rest ;;
      ret (t :: ts)
  end.

Definition csv_filename_of (race_name : string) : string :=
  output_directory ++ safe_race_name_of race_name ++ ".csv".

(** The per-race [try], up to the end of the date loop (lines 106-313). *)
Definition collect_dates (fuel : nat) (race_url race_name : string)
  : Run unit :=
  d <- read_var "driver" driver ;;
  iframe <- remote (WaitPresence d 10 (CSS_SELECTOR, "iframe.coh-iframe")) ;;
  src <- remote (GetAttribute iframe "src") ;;
  remote (Get d src) ;;
  dropdown <- remote (WaitPresence d 10 (CSS_SELECTOR, "div[role='combobox']")) ;;
  remote (Click dropdown) ;;
  options <-
    remote (WaitPresenceAll d 10
              (CSS_SELECTOR, "ul[role='listbox'] li[role='option']")) ;;
  race_dates <- texts_of options ;;
  print ("🗓️ Found " ++ str_of_nat (List.length race_dates) ++ " race dates.") ;;
  remote (SendEscape d) ;;
  for_range (List.length race_dates) (process_date fuel race_url race_name).

(** Saving the results of the race (lines 319-321). *)
Definition save_results (race_name : string) : Run unit :=
  results <- gets race_results ;;
  write_csv (csv_filename_of race_name) (to_csv results) ;;
  print ("✅ Saved: " ++ csv_filename_of race_name).

(** The body of the per-race [try] (lines 106-321). *)
Definition scrape_race (fuel : nat) (race_url race_name : string) : Run unit :=
  collect_dates fuel race_url race_name ;;
  save_results race_name.

(** Lines 100-103: the session is started before the [try]. *)
Definition start_driver (race_url : string) : Run unit :=
  d <- remote Chrome ;;
  modify (set_driver (Some d)) ;;
  remote (MaximizeWindow d) ;;
  remote (Get d (Some race_url)).

Definition quit_driver : Run unit :=
  d <- read_var "driver" driver ;;
  remote (Quit d).

Definition guarded_race (fuel : nat) (race_url race_name : string)
  : Run unit :=
  try_finally
    (try_except (scrape_race fuel race_url race_name)
       (fun e => print ("🚨 Error processing " ++ race_url ++ ": "
                          ++ str_prefix 100 (exn_str e))))
    quit_driver.

(** The body of [for index, row in race_data.iterrows()]. *)
Definition process_race (fuel : nat) (target : RaceTarget) : Run unit :=
  let race_url := URL target in
  let race_name := Race_Name target in
  print (NL ++ "📍 Processing: " ++ race_name ++ " | " ++ race_url) ;;
  modify (set_results [] []) ;;
  start_driver race_url ;;
  guarded_race fuel race_url race_name.

Fixpoint for_each {A : Type} (xs : list A) (body : A -> Run unit) : Run unit :=
  match xs with
  | [] => ret tt
  | x :: rest => body x ;; for_each rest body
  end.

(** The whole script, from line 85 on; [race_data] is the catalogue as
    loaded, and [fuel] bounds every [while] loop. *)
Definition main (fuel : nat) (race_data : list RaceTarget) : Run unit :=
  for_each race_data (process_race fuel) ;;
  print (NL ++ "🎉 All races processed!").

End Script.

(* ================================================================= *)
(** * Part 4: a synthetic results site

    A small browser on which the script runs: a list of sites, each with
    date facets, each facet with pages of athlete rows.  One session is live
    at a time.  A row handle names the session, the date and the page it was
    found on, and is stale as soon as the table shows something else.  Two
    switches inject faults: a number of failing clicks on an expanded row,
    and a date option whose click is intercepted. *)
Module Fixture.

Record athlete : Type := Athlete {
  designation_shown : option string;     (* [None]: the label is missing *)
  data_fields : list (string * string);  (* data-field -> cell text *)
  detail_fields : list (string * string) (* label -> text of the panel *)
}.

Record facet : Type := Facet {
  label : string;
  pages : list (list athlete);
  endless : bool  (* the next-page control never reports disabled and the
                     table wraps around to its first page *)
}.

Record site : Type := Site {
  entry_url : string;
  frame_src : string;
  facets : list facet
}.

Inductive element : Type :=
| Iframe
| Combobox
| DateOption (i : nat)
| PageSizeSelect
| Option100
| TableRow (session date page index : nat)
| NextButton
| TextNode (text : string).

Record web : Type := Web {
  sites : list site;
  sessions : nat;             (* sessions started; the last one is live *)
  live : bool;
  loaded : option site;
  in_frame : bool;
  cur_date : nat;
  cur_page : nat;
  expanded : option nat;      (* the row whose panel is open *)
  failing_closes : nat;       (* clicks closing a row that will still fail *)
  broken_option : option nat  (* the date option that cannot be clicked *)
}.

Definition NoSuchElement : exn :=
  Exception "NoSuchElementException" "Message: no such element".
Definition Timeout : exn := Exception "TimeoutException" "Message: ".
Definition Stale : exn :=
  Exception "StaleElementReferenceException"
            "Message: stale element reference".
Definition Intercepted : exn :=
  Exception "ElementClickInterceptedException"
            "Message: element click intercepted".
Definition InvalidSession : exn :=
  Exception "InvalidSessionIdException" "Message: invalid session id".
Definition Unreachable : exn :=
  Exception "WebDriverException"
            "Message: unknown error: net::ERR_NAME_NOT_RESOLVED".
Definition InvalidArgument : exn :=
  Exception "InvalidArgumentException" "Message: invalid argument".

Definition new_web (ss : list site) (closes : nat) (broken : option nat)
  : web :=
  Web ss 0 false None false 0 0 None closes broken.

(** The table showing page [p] of date [d]. *)
Definition render (d p : nat) (w : web) : web :=
  Web (sites w) (sessions w) (live w) (loaded w) (in_frame w) d p
      None (failing_closes w) (broken_option w).

Definition load (s : site) (frame : bool) (w : web) : web :=
  Web (sites w) (sessions w) (live w) (Some s) frame 0 0
      None (failing_closes w) (broken_option w).

Definition set_expanded (e : option nat) (closes : nat) (w : web) : web :=
  Web (sites w) (sessions w) (live w) (loaded w) (in_frame w) (cur_date w)
      (cur_page w) e closes (broken_option w).

Definition current_facet (w : web) : option facet :=
  if in_frame w then
    match loaded w with
    | Some s => nth_error (facets s) (cur_date w)
    | None => None
    end
  else None.

Definition current_rows (w : web) : list athlete :=
  match current_facet w with
  | Some f => nth (cur_page w) (pages f) []
  | None => []
  end.

Definition on_last_page (w : web) : bool :=
  match current_facet w with
  | Some f => negb (endless f) && (List.length (pages f) <=? S (cur_page w))%nat
  | None => true
  end.

Definition following_page (w : web) : nat :=
  match current_facet w with
  | Some f => if (S (cur_page w) <? List.length (pages f))%nat
              then S (cur_page w) else 0
  | None => 0
  end.

Definition alive (d : nat) (w : web) : bool :=
  live w && (d =? sessions w)%nat.

(** The table still shows the page a row handle was found on. *)
Definition shown (session date page : nat) (w : web) : bool :=
  alive session w && in_frame w
  && (date =? cur_date w)%nat && (page =? cur_page w)%nat.

Fixpoint assoc_by (key : string -> string) (x : string)
  (kvs : list (string * string)) : option string :=
  match kvs with
  | [] => None
  | (k, v) :: rest => if x =? key k then Some v else assoc_by key x rest
  end.

(** The cell of a data field of the row with [data-rowindex] [k]. *)
Definition cell_xpath (k : nat) (field_name : string) : string :=
  hd EmptyString (xpath_variants (Some (str_of_nat k)) field_name).

Fixpoint cell_lookup (x : string) (k : nat) (rows : list athlete)
  : option string :=
  match rows with
  | [] => None
  | a :: rest =>
      match assoc_by (cell_xpath k) x (data_fields a) with
      | Some v => Some v
      | None => cell_lookup x (S k) rest
      end
  end.

Definition panel_lookup (x : string) (w : web) : option string :=
  match expanded w with
  | None => None
  | Some k =>
      match nth_error (current_rows w) k with
      | None => None
      | Some a =>
          if x =? label_xpath "Designation" then designation_shown a
          else assoc_by label_xpath x (detail_fields a)
      end
  end.

Definition find_by_xpath (x : string) (w : web) : option string :=
  match panel_lookup x w with
  | Some v => Some v
  | None => cell_lookup x 0 (current_rows w)
  end.

Definition site_of_url (url : string) (w : web) : option (site * bool) :=
  match find (fun s => url =? entry_url s) (sites w) with
  | Some s => Some (s, false)
  | None =>
      match find (fun s => url =? frame_src s) (sites w) with
      | Some s => Some (s, true)
      | None => None
      end
  end.

Definition click (e : element) (w : web) : (exn + unit) * web :=
  match e with
  | DateOption i =>
      if match broken_option w with Some b => (b =? i)%nat | None => false end
      then (inl Intercepted, w)
      else (inr tt, render i 0 w)
  | Option100 => (inr tt, render (cur_date w) 0 w)
  | NextButton =>
      if on_last_page w then (inl Intercepted, w)
      else (inr tt, render (cur_date w) (following_page w) w)
  | TableRow s d p k =>
      if negb (shown s d p w) then (inl Stale, w)
      else if match expanded w with Some k' => (k' =? k)%nat | None => false end
      then match failing_closes w with
           | S n => (inl Stale, set_expanded (expanded w) n w)
           | 0 => (inr tt, set_expanded None 0 w)
           end
      else (inr tt, set_expanded (Some k) (failing_closes w) w)
  | _ => (inr tt, w)
  end.

Definition attribute (e : element) (name : string) (w : web)
  : exn + option string :=
  match e with
  | Iframe =>
      if name =? "src" then inr (option_map frame_src (loaded w))
      else inr None
  | TableRow s d p k =>
      if negb (shown s d p w) then inl Stale
      else if name =? "data-rowindex" then inr (Some (str_of_nat k))
      else inr None
  | NextButton =>
      if name =? "class" then
        inr (Some (if on_last_page w
                   then "MuiButtonBase-root Mui-disabled MuiIconButton-root"
                   else "MuiButtonBase-root MuiIconButton-root"))
      else inr None
  | _ => inr None
  end.

Definition text_of (e : element) (w : web) : exn + string :=
  match e with
  | DateOption i =>
      match loaded w with
      | Some s => match nth_error (facets s) i with
                  | Some f => inr (label f)
                  | None => inl Stale
                  end
      | None => inl Stale
      end
  | TextNode t => inr t
  | _ => inr EmptyString
  end.

Definition date_options (w : web) : list element :=
  match loaded w with
  | Some s => map DateOption (seq 0 (List.length (facets s)))
  | None => []
  end.

Definition table_rows (w : web) : list element :=
  map (TableRow (sessions w) (cur_date w) (cur_page w))
      (seq 0 (List.length (current_rows w))).

Definition present (loc : locator) (w : web) : exn + element :=
  match loc with
  | (CSS_SELECTOR, "iframe.coh-iframe") =>
      match loaded w with
      | Some _ => if in_frame w then inl Timeout else inr Iframe
      | None => inl Timeout
      end
  | (CSS_SELECTOR, "div[role='combobox']") =>
      if in_frame w then inr Combobox else inl Timeout
  | (CSS_SELECTOR, "div.MuiTablePagination-select") =>
      if in_frame w then inr PageSizeSelect else inl Timeout
  | (XPATH, "//li[contains(text(),'100')]") =>
      if in_frame w then inr Option100 else inl Timeout
  | (XPATH, "//button[@aria-label='Go to next page']") =>
      if in_frame w then inr NextButton else inl Timeout
  | _ => inl Timeout
  end.

Definition present_all (loc : locator) (w : web) : exn + list element :=
  let found :=
    match loc with
    | (CSS_SELECTOR, "ul[role='listbox'] li[role='option']") =>
        if in_frame w then date_options w else []
    | (CSS_SELECTOR, "div[role='row'][data-rowindex]") => table_rows w
    | _ => []
    end in
  match found with [] => inl Timeout | _ => inr found end.

(** A call on a session that is not the live one fails. *)
Definition on_session {R : Type} (d : nat) (w : web)
  (k : (exn + R) * web) : (exn + R) * web :=
  if alive d w then k else (inl InvalidSession, w).

Definition answer (R : Type) (c : call nat element R) (w : web)
  : (exn + R) * web :=
  match c in call _ _ R return (exn + R) * web with
  | Chrome =>
      (inr (S (sessions w)),
       Web (sites w) (S (sessions w)) true None false 0 0
           None (failing_closes w) (broken_option w))
  | MaximizeWindow d => on_session d w (inr tt, w)
  | Get d url =>
      on_session d w
        match url with
        | None => (inl InvalidArgument, w)
        | Some u => match site_of_url u w with
                    | Some (s, frame) => (inr tt, load s frame w)
                    | None => (inl Unreachable, w)
                    end
        end
  | Quit d =>
      (inr tt,
       if alive d w then
         Web (sites w) (sessions w) false None false 0 0
             None (failing_closes w) (broken_option w)
       else w)
  | WaitPresence d _ loc => on_session d w (present loc w, w)
  | WaitPresenceAll d _ loc => on_session d w (present_all loc w, w)
  | WaitClickable d _ loc => on_session d w (present loc w, w)
  | WaitStaleness d _ e =>
      on_session d w
        match e with
        | TableRow s d p _ =>
            if shown s d p w then (inl Timeout, w) else (inr tt, w)
        | _ => (inl Timeout, w)
        end
  | FindElement d loc =>
      on_session d w
        match loc with
        | (XPATH, x) => match find_by_xpath x w with
                        | Some v => (inr (TextNode v), w)
                        | None => (inl NoSuchElement, w)
                        end
        | _ => (inl NoSuchElement, w)
        end
  | GetAttribute e name =>
      if live w then (attribute e name w, w) else (inl InvalidSession, w)
  | GetText e =>
      if live w then (text_of e w, w) else (inl InvalidSession, w)
  | Click e => if live w then click e w else (inl InvalidSession, w)
  | ExecuteScript d _ _ => on_session d w (inr tt, w)
  | SendEscape d => on_session d w (inr tt, w)
  end.

Definition chrome : browser nat element web :=
  Browser answer (fun _ w => w).

(** Running the script on a fresh browser. *)
Definition run (fuel : nat) (race_data : list RaceTarget) (w : web)
  : result unit * state nat element web :=
  main chrome fuel race_data (initial_state nat element w).

End Fixture.

(** ** Scenarios *)
Module Scenarios.
Import Fixture.

Definition finisher (name : string) : athlete :=
  Athlete (Some "FINISHER")
    [ ("athlete", name);
      ("wtc_swimtimeformatted", "01:02:03");
      ("wtc_transition1timeformatted", "00:04:05");
      ("wtc_biketimeformatted", "05:06:07");
      ("wtc_transitiontime2formatted", "00:03:04");
      ("wtc_runtimeformatted", "03:33:44");
      ("wtc_finishtimeformatted", "09:49:03") ]
    [ ("Div Rank", "4"); ("Gender Rank", "31"); ("Overall Rank", "35");
      ("Division", "M30-34") ].

Definition dnf (name : string) : athlete :=
  Athlete (Some "DNF")
    [ ("athlete", name);
      ("wtc_swimtimeformatted", "01:12:13");
      ("wtc_transition1timeformatted", "00:06:07");
      ("wtc_biketimeformatted", "06:16:17") ]
    [ ("Division", "F40-44") ].

Definition dns (name : string) : athlete :=
  Athlete (Some "DNS") [ ("athlete", name) ] [ ("Division", "M25-29") ].

(** A row whose panel shows no designation at all. *)
Definition unlabelled (name : string) : athlete :=
  Athlete None [ ("athlete", name) ] [ ("Division", "M25-29") ].

Definition site_of (name : string) (fs : list facet) : site :=
  Site ("https://www.ironman.com/" ++ name ++ "-results")
       ("https://labs.competitor.com/result/" ++ name) fs.

Definition target_of (name : string) : RaceTarget :=
  Race ("https://www.ironman.com/" ++ name ++ "-results") name.

(** Two dates, each with two pages of two rows (one finisher, one DNS). *)
Definition two_by_two : site :=
  site_of "im-alpha"
    [ Facet "2024 - June 02" [ [finisher "A1"; dns "A2"];
                               [finisher "A3"; dns "A4"] ] false;
      Facet "2023 - June 04" [ [finisher "B1"; dns "B2"];
                               [finisher "B3"; dns "B4"] ] false ].

(** Three dates of one row each. *)
Definition three_dates : site :=
  site_of "im-gamma"
    [ Facet "2024 - May 05" [ [finisher "C1"] ] false;
      Facet "2023 - May 07" [ [dnf "C2"] ] false;
      Facet "2022 - May 08" [ [dns "C3"] ] false ].

(** A date with results, then a date whose table is empty. *)
Definition then_empty : site :=
  site_of "im-delta"
    [ Facet "2024 - July 07" [ [finisher "D1"] ] false;
      Facet "2023 - July 09" [] false ].

(** A date whose table is empty, then a date with results. *)
Definition empty_first : site :=
  site_of "im-epsilon"
    [ Facet "2024 - August 04" [] false;
      Facet "2023 - August 06" [ [finisher "E1"] ] false ].

(** A single date whose table is empty. *)
Definition no_results : site :=
  site_of "im-zeta" [ Facet "2024 - September 01" [] false ].

(** One row. *)
Definition one_row : site :=
  site_of "im-eta" [ Facet "2024 - October 06" [ [finisher "H1"] ] false ].

(** A table whose next-page control never reports disabled: after its
    second page comes its first again. *)
Definition endless_table : site :=
  site_of "im-theta"
    [ Facet "2024 - November 03" [ [dns "T1"]; [dns "T2"] ] true ].

(** A DNS row, with and without its designation on the panel. *)
Definition one_dns : site :=
  site_of "im-iota" [ Facet "2024 - December 01" [ [dns "I1"] ] false ].
Definition one_unlabelled : site :=
  site_of "im-iota" [ Facet "2024 - December 01" [ [unlabelled "I1"] ] false ].

Definition fuel : nat := 8.

(** Runs of the whole script. *)
Definition run_empty_then_aborted :=
  run fuel [target_of "im-zeta"; target_of "im-delta"]
      (new_web [no_results; then_empty] 0 None).

Definition run_close_fails_once :=
  run fuel [target_of "im-eta"] (new_web [one_row] 1 None).

Definition run_unreachable_first :=
  run fuel [target_of "im-nowhere"; target_of "im-eta"]
      (new_web [one_row] 0 None).

Definition run_empty_first_date :=
  run fuel [target_of "im-epsilon"] (new_web [empty_first] 0 None).

Definition run_three_dates_first :=
  run fuel [target_of "im-gamma"] (new_web [three_dates] 0 None).

Definition run_three_dates_second :=
  run fuel [target_of "im-eta"; target_of "im-gamma"]
      (new_web [one_row; three_dates] 0 None).

Definition run_two_by_two :=
  run fuel [target_of "im-alpha"] (new_web [two_by_two] 0 None).

Definition run_second_option_broken :=
  run fuel [target_of "im-alpha"] (new_web [two_by_two] 0 (Some 1)).

(** The state in which the page loop of the first date of a site starts: a
    session is open on the results frame and the date is selected. *)
Definition opened_on (st : site) : state nat element web :=
  snd ((start_driver chrome (entry_url st) ;;
        d <- read_var "driver" (@driver nat element web) ;;
        remote chrome (Get d (Some (frame_src st))) ;;
        select_with_retries chrome 0)
         (initial_state nat element (new_web [st] 0 None))).

(** A session open on the results frame of a site, no date selected yet. *)
Definition framed_on (st : site) : state nat element web :=
  snd ((start_driver chrome (entry_url st) ;;
        d <- read_var "driver" (@driver nat element web) ;;
        remote chrome (Get d (Some (frame_src st))))
         (initial_state nat element (new_web [st] 0 None))).

(** The state after a first race, on a catalogue of two. *)
Definition after_first_race : state nat element web :=
  snd (process_race chrome fuel (target_of "im-alpha")
         (initial_state nat element (new_web [two_by_two; one_row] 0 None))).

(** The endless table showing its page [p], in the first session. *)
Definition endless_world (p : nat) : web :=
  Web [endless_table] 1 true (Some endless_table) true 0 p None 0 None.

(** The script in the middle of the endless table. *)
Definition in_endless_table (s : state nat element web) : Prop :=
  (world s = endless_world 0 \/ world s = endless_world 1)
  /\ driver s = Some 1
  /\ race_date_text s <> None
  /\ pagination_active s = true.
End Scenarios.

(* ================================================================= *)
(** * Part 5: notions used in the statements *)

(** ** Invariants of statements

    [inv I m]: whatever way [m] ends (value, exception, out of fuel), it
    takes a state in [I] to a state in [I].  Exceptions are caught and loops
    go on, so the invariants that matter are those that hold on every exit. *)
Definition inv {St A : Type} (I : St -> Prop) (m : M St A) : Prop :=
  forall s, I s -> I (snd (m s)).

(** ** The order of the records (C9) *)

(** Date-major, then page-major, then row-major. *)
Definition pos_le (p q : position) : Prop :=
  let '(d, g, r) := p in
  let '(d', g', r') := q in
  d < d' \/ (d = d' /\ (g < g' \/ (g = g' /\ r <= r'))).

Definition is_prefix {A : Type} (l l' : list A) : Prop :=
  exists rest, l' = (l ++ rest)%list.

Section Notions.
Variables driver_t elem_t W : Type.
Local Abbreviation St := (state driver_t elem_t W).
Local Abbreviation Event := (event driver_t elem_t).

(** What an invariant must stand: the answer of the remote side to a
    call (the world moves, the trace notes the call), the field reads, the
    passing of time, a line printed. *)
Definition stands_event (I : St -> Prop) (R : Type)
  (c : call driver_t elem_t R) : Prop :=
  forall s w a, I s -> I (set_world w (set_trace (Ev c a :: trace s) s)).
Definition stands_reads (I : St -> Prop) : Prop :=
  (forall d loc, stands_event I (FindElement d loc))
  /\ (forall e, stands_event I (GetText e)).
Definition stands_world (I : St -> Prop) : Prop :=
  forall s w, I s -> I (set_world w s).
Definition stands_print (I : St -> Prop) : Prop :=
  forall s o, I s -> I (set_stdout o s).

(** Counting the events of a kind in a trace. *)
Definition count_events (p : Event -> bool) (t : list Event) : nat :=
  List.length (filter p t).

(** Session opens and confirmed page transitions made so far. *)
Definition opens (s : St) : nat := count_events (@is_open _ _) (trace s).
Definition transitions (s : St) : nat :=
  count_events (@is_transition _ _) (trace s).

(** The text a successful [.text] read returned. *)
Definition text_read (ev : Event) : option string :=
  match ev with
  | Ev c a =>
      match c in call _ _ R return exn + R -> option string with
      | GetText _ =>
          fun a => match a with inr t => Some t | inl _ => None end
      | _ => fun _ => None
      end a
  end.

(** The text of the latest successful [.text] read among some events. *)
Fixpoint latest_text (t : list Event) : option string :=
  match t with
  | [] => None
  | ev :: rest =>
      match text_read ev with
      | Some text => Some text
      | None => latest_text rest
      end
  end.

(** The date label after some events: the latest text read, or the label
    there was when none was read. *)
Definition label_after (events : list Event) (label : option string)
  : option string :=
  match latest_text events with
  | Some text => Some text
  | None => label
  end.

(** A record carries the label. *)
Definition carries (label : option string) (r : dict) : Prop :=
  exists t, label = Some t /\ dict_get "Race Date" r = Some t.

(** *** Field reads on a page that stands still (C8) *)

(** A browser is static when looking up an element, reading its text and
    letting time pass change nothing on the remote side. *)
Definition static (B : browser driver_t elem_t W) : Prop :=
  (forall d loc w, snd (handle B (FindElement d loc) w) = w)
  /\ (forall e w, snd (handle B (GetText e) w) = w)
  /\ (forall ms w, sleep_for B ms w = w).

(** The browser [B] with a fault injected: no element is found at the
    xpaths that [faulty] picks. *)
Definition inject (faulty : string -> bool) (B : browser driver_t elem_t W)
  : browser driver_t elem_t W :=
  Browser
    (fun (R : Type) (c : call driver_t elem_t R) (w : W) =>
       match c in call _ _ R return (exn + R) * W with
       | FindElement d (XPATH, x) =>
           if faulty x
           then (inl (Exception "NoSuchElementException"
                        "Message: no such element"), w)
           else handle B (FindElement d (XPATH, x)) w
       | c' => handle B c' w
       end)
    (sleep_for B).

(** Two states that differ at most by the trace. *)
Definition alike (s s' : St) : Prop :=
  world s = world s'
  /\ stdout s = stdout s'
  /\ files s = files s'
  /\ race_date_counter s = race_date_counter s'
  /\ race_date_text s = race_date_text s'
  /\ race_results s = race_results s'
  /\ driver s = driver s'
  /\ rows s = rows s'
  /\ pagination_active s = pagination_active s'
  /\ page_no s = page_no s'
  /\ provenance s = provenance s'.

(** What one look at an xpath gives. *)
Definition reading (B : browser driver_t elem_t W) (od : option driver_t)
  (w : W) (xpath : string) : option string :=
  match od with
  | None => None
  | Some d =>
      match handle B (FindElement d (XPATH, xpath)) w with
      | (inr e, _) =>
          match handle B (GetText e) w with
          | (inr t, _) => Some t
          | (inl _, _) => None
          end
      | (inl _, _) => None
      end
  end.

Fixpoint first_reading (B : browser driver_t elem_t W) (od : option driver_t)
  (w : W) (xpaths : list string) : option string :=
  match xpaths with
  | [] => None
  | x :: rest =>
      match reading B od w x with
      | Some t => Some t
      | None => first_reading B od w rest
      end
  end.

(** The value of a field read at some xpaths: the first text found, or the
    sentinel. *)
Definition field_value (B : browser driver_t elem_t W) (od : option driver_t)
  (w : W) (xpaths : list string) : string :=
  match first_reading B od w xpaths with
  | Some t => t
  | None => "N/A"
  end.

(** A statement that reads: it completes with a value that the driver and
    the remote side determine, and leaves the state alike. *)
Definition reads (A : Type) (m : M St A) (f : option driver_t -> W -> A)
  : Prop :=
  forall s, exists s', m s = (Ok (f (driver s) (world s)), s') /\ alike s s'.

(** Calls of a driver restart that have failed so far. *)
Definition failed_restarts (s : St) : nat :=
  count_events (@failed_restart_call _ _) (trace s).

(** The events of a run from [s] to [s'], latest first. *)
Definition events_since (s s' : St) : list Event :=
  firstn (List.length (trace s') - List.length (trace s)) (trace s').

(** The positions noted so far are in order and none is beyond [b], and
    there is one for each record. *)
Definition ordered_upto (b : position) (s : St) : Prop :=
  Sorted pos_le (provenance s)
  /\ Forall (fun q => pos_le q b) (provenance s)
  /\ List.length (provenance s) = List.length (race_results s).
End Notions.

(** ** The record shapes of the data model (C3)

    The three field sets, under the column names the script gives them:
    raceName, raceDate, athlete, designation are "Race Name", "Race Date",
    "Athlete", "Designation"; the durations swimTime, t1, bikeTime, t2,
    runTime, finishTime are "Swim Time", "Transition 1", "Bike Time",
    "Transition 2", "Run Time", "Finish Time"; and divRank, genderRank,
    overallRank, division are "Div Rank", "Gender Rank", "Overall Rank",
    "Division". *)
Definition base_fields : list string :=
  ["Race Name"; "Race Date"; "Athlete"; "Designation"].
Definition duration_fields : list string :=
  ["Swim Time"; "Transition 1"; "Bike Time"; "Transition 2"; "Run Time";
   "Finish Time"].
Definition rank_fields : list string :=
  ["Div Rank"; "Gender Rank"; "Overall Rank"; "Division"].

Definition fields_for (designation : string) : list string :=
  if (designation =? "DNS") || (designation =? "DQ") then base_fields
  else if designation =? "DNF" then base_fields ++ duration_fields
  else base_fields ++ duration_fields ++ rank_fields.

Definition mem (k : string) (ks : list string) : bool :=
  existsb (String.eqb k) ks.

Fixpoint distinct (ks : list string) : bool :=
  match ks with
  | [] => true
  | k :: rest => negb (mem k rest) && distinct rest
  end.

(** The same fields, each once, in whatever order. *)
Definition same_fields (ks ks' : list string) : bool :=
  distinct ks && forallb (fun k => mem k ks') ks
  && forallb (fun k => mem k ks) ks'.

(** A record has a designation and exactly the fields of that designation. *)
Definition well_shaped (r : dict) : bool :=
  match dict_get "Designation" r with
  | Some d => same_fields (dict_keys r) (fields_for d)
  | None => false
  end.

(** ** Pre- and postconditions

    [hoare P m Q]: from a state in [P], [m] ends in a state in [Q], however
    it ends.  [triple P m Qok Qexit]: it ends in [Qok] when it completes and
    in [Qexit] when it raises or runs out of fuel. *)
Definition hoare {St A : Type} (P : St -> Prop) (m : M St A) (Q : St -> Prop)
  : Prop :=
  forall s, P s -> Q (snd (m s)).

Definition triple {St A : Type} (P : St -> Prop) (m : M St A)
  (Qok Qexit : St -> Prop) : Prop :=
  forall s, P s ->
    match fst (m s) with
    | Ok _ => Qok (snd (m s))
    | _ => Qexit (snd (m s))
    end.

(** ** How a statement can end

    [total m]: [m] never runs out of fuel.  [succeeds m]: [m] always
    completes with a value. *)
Definition total {St A : Type} (m : M St A) : Prop :=
  forall s, fst (m s) <> Diverge.

Definition succeeds {St A : Type} (m : M St A) : Prop :=
  forall s, exists a, fst (m s) = Ok a.

(** ** The fields of a record and where they are read (C8)

    The data field behind a column, for the columns read from the row. *)
Definition data_field_of (key : string) : option string :=
  if key =? "Athlete" then Some "athlete"
  else if key =? "Swim Time" then Some "wtc_swimtimeformatted"
  else if key =? "Transition 1" then Some "wtc_transition1timeformatted"
  else if key =? "Bike Time" then Some "wtc_biketimeformatted"
  else if key =? "Transition 2" then Some "wtc_transitiontime2formatted"
  else if key =? "Run Time" then Some "wtc_runtimeformatted"
  else if key =? "Finish Time" then Some "wtc_finishtimeformatted"
  else None.

(** The xpaths at which the value of a column is looked up: the two
    variants of its data field, or the label of the panel for the ranks and
    the division; none for the columns that are not read by a field read
    (race name, race date, designation). *)
Definition field_xpaths (row_index : option string) (key : string)
  : list string :=
  match data_field_of key with
  | Some field_name => xpath_variants row_index field_name
  | None => if mem key rank_fields then [label_xpath key] else []
  end.

(** The keys of the three dictionary displays, in the order in which they
    are written. *)
Definition keys_in_order (designation : string) : list string :=
  if (designation =? "DNS") || (designation =? "DQ") then
    ["Race Name"; "Race Date"; "Athlete"; "Designation"]
  else if designation =? "DNF" then
    ["Race Name"; "Race Date"; "Athlete"; "Designation"; "Swim Time";
     "Transition 1"; "Bike Time"; "Transition 2"; "Run Time"; "Finish Time"]
  else
    ["Race Name"; "Race Date"; "Athlete"; "Div Rank"; "Gender Rank";
     "Overall Rank"; "Designation"; "Division"; "Swim Time"; "Transition 1";
     "Bike Time"; "Transition 2"; "Run Time"; "Finish Time"].

(** The record of a row, given the value each field read returns. *)
Definition record_of (value : string -> string)
  (race_name race_date designation : string) : dict :=
  map (fun key =>
         (key,
          if key =? "Race Name" then race_name
          else if key =? "Race Date" then race_date
          else if key =? "Designation" then designation
          else value key))
      (keys_in_order designation).

(** ** Two runs side by side (C8)

    One run on a browser, the other on the same browser with a fault
    injected at some xpaths. *)

(** Two records of one row: the same columns, and the same value wherever
    no xpath of the column is faulted. *)
Definition agree (faulty : string -> bool) (record record' : dict) : Prop :=
  dict_keys record' = dict_keys record
  /\ exists row_index,
       forall key,
         (forall x, In x (field_xpaths row_index key) -> faulty x = false) ->
         dict_get key record' = dict_get key record.

Section SideBySide.
Variables driver_t elem_t W : Type.
Local Abbreviation St := (state driver_t elem_t W).

(** The states of the two runs: the same remote side, output, files and
    variables, and records that agree one by one. *)
Definition sim (faulty : string -> bool) (s s' : St) : Prop :=
  world s = world s'
  /\ stdout s = stdout s'
  /\ files s = files s'
  /\ race_date_counter s = race_date_counter s'
  /\ race_date_text s = race_date_text s'
  /\ Forall2 (agree faulty) (race_results s) (race_results s')
  /\ driver s = driver s'
  /\ rows s = rows s'
  /\ pagination_active s = pagination_active s'
  /\ page_no s = page_no s'
  /\ provenance s = provenance s'.

(** How two statements end. *)
Definition same_end (A A' : Type) (R : A -> A' -> Prop)
  (r : result A) (r' : result A') : Prop :=
  match r, r' with
  | Ok a, Ok a' => R a a'
  | Raise e, Raise e' => e = e'
  | Diverge, Diverge => True
  | _, _ => False
  end.

(** [m] and [m'] keep the two runs side by side: from states that are,
    they end the same way, with values in [R], in states that are. *)
Definition related (faulty : string -> bool) (A A' : Type)
  (R : A -> A' -> Prop) (m : M St A) (m' : M St A') : Prop :=
  forall s s',
    sim faulty s s' ->
    same_end R (fst (m s)) (fst (m' s'))
    /\ sim faulty (snd (m s)) (snd (m' s')).
End SideBySide.

(** ** Predicates on states used in the proofs *)
Section StatePredicates.
Variables driver_t elem_t W : Type.
Local Abbreviation St := (state driver_t elem_t W).

(** Every record has the shape of its designation. *)
Definition shaped (s : St) : Prop :=
  Forall (fun r => well_shaped r = true) (race_results s).

(** While row [k] of page [page_no] of date [i] is being extracted. *)
Definition at_row (i k : nat) (s : St) : Prop :=
  ordered_upto (i, page_no s, k) s.

(** On some row of the current page of date [i]. *)
Definition in_page (i : nat) (s : St) : Prop := exists k, at_row i k s.

(** Before date [i]: nothing noted is at date [i] or later.  *)
Definition before_date (i : nat) (s : St) : Prop :=
  ordered_upto (i, 0, 0) s.

(** The positions are in order, one per record. *)
Definition in_order (s : St) : Prop :=
  Sorted pos_le (provenance s)
  /\ List.length (provenance s) = List.length (race_results s).

(** The latest call is a call that starts or quits a session, and it
    failed with [e]. *)
Definition ends_on_failed_session_call (e : exn) (s : St) : Prop :=
  exists (R : Type) (c : call driver_t elem_t R) rest,
    trace s = Ev c (inl e) :: rest /\ session_call c = true.

(** The name [driver] is bound. *)
Definition driver_bound (s : St) : Prop := driver s <> None.

(** Since [s0]: the date counter and the number of opens are what they
    were, no failed restart call has been forgotten, the driver is still
    bound. *)
Definition since (s0 s : St) : Prop :=
  race_date_counter s = race_date_counter s0
  /\ opens s = opens s0
  /\ failed_restarts s0 <= failed_restarts s
  /\ (driver_bound s0 -> driver_bound s).

(** One attempt to restart the driver. *)
Definition restarted (s : St) (r : result unit) (s' : St) : Prop :=
  race_date_counter s' = race_date_counter s
  /\ failed_restarts s <= failed_restarts s'
  /\ driver_bound s'
  /\ (failed_restarts s' = failed_restarts s ->
      r = Ok tt /\ opens s' = opens s + 1).

(** From [s] to [s']: some dates were processed, each after a restart but
    the one that found the date counter at 0. *)
Definition dated (s s' : St) : Prop :=
  race_date_counter s <= race_date_counter s'
  /\ failed_restarts s <= failed_restarts s'
  /\ driver_bound s'
  /\ (failed_restarts s' = failed_restarts s ->
      opens s'
      + (if (race_date_counter s =? 0)%nat
            && (0 <? race_date_counter s' - race_date_counter s)%nat
         then 1 else 0)
      = opens s + (race_date_counter s' - race_date_counter s)).

(** The step to the next page either ended the pagination without any
    transition, or left the flag alone after one confirmed transition. *)
Definition stepped (s s' : St) : Prop :=
  (pagination_active s' = false /\ transitions s' = transitions s)
  \/ (pagination_active s' = pagination_active s
      /\ transitions s' = S (transitions s)).

(** Nothing moved: same flag, same number of transitions. *)
Definition stayed (s s' : St) : Prop :=
  pagination_active s' = pagination_active s
  /\ transitions s' = transitions s.

(** Since [s0] the label has followed the texts read. *)
Definition labelled (s0 s : St) : Prop :=
  exists events,
    trace s = (events ++ trace s0)%list
    /\ race_date_text s = label_after events (race_date_text s0).

(** Since the rows of a date began: the label is [label], and what has been
    appended to [results] carries it. *)
Definition dated_rows (label : option string) (results : list dict) (s : St)
  : Prop :=
  race_date_text s = label
  /\ exists rest,
       race_results s = (results ++ rest)%list /\ Forall (carries label) rest.

End StatePredicates.

Arguments shaped {driver_t elem_t W}.
Arguments at_row {driver_t elem_t W}.
Arguments in_page {driver_t elem_t W}.
Arguments before_date {driver_t elem_t W}.
Arguments in_order {driver_t elem_t W}.
Arguments ends_on_failed_session_call {driver_t elem_t W}.
Arguments driver_bound {driver_t elem_t W}.
Arguments since {driver_t elem_t W}.
Arguments restarted {driver_t elem_t W}.
Arguments dated {driver_t elem_t W}.
Arguments stepped {driver_t elem_t W}.
Arguments stayed {driver_t elem_t W}.
Arguments labelled {driver_t elem_t W}.
Arguments dated_rows {driver_t elem_t W}.

(** ** Strings: the catalogue and the file names *)

(** A string of ASCII characters only. *)
Definition ascii_only (s : string) : bool :=
  forallb (fun c => (nat_of_ascii c <? 128)%nat) (list_ascii_of_string s).

(** An ASCII letter, digit or underscore. *)
Definition is_ascii_word (c : ascii) : bool :=
  let n := nat_of_ascii c in
  (((48 <=? n) && (n <=? 57)) || ((65 <=? n) && (n <=? 90)) ||
   ((97 <=? n) && (n <=? 122)) || (n =? 95))%nat.

(** A non-empty run of non-word characters. *)
Definition separator_run (s : string) : bool :=
  negb (s =? EmptyString)
  && forallb (fun c => negb (is_word_char c)) (list_ascii_of_string s).

(** Whether [sub_nonword] is inside a run of non-word characters after it
    has read [s]. *)
Fixpoint in_run_after (in_run : bool) (s : string) : bool :=
  match s with
  | EmptyString => in_run
  | String c s' => in_run_after (negb (is_word_char c)) s'
  end.

(** The elements of a list that are flagged. *)
Fixpoint picked {A : Type} (keep : list bool) (xs : list A) : list A :=
  match keep, xs with
  | true :: keep', x :: xs' => x :: picked keep' xs'
  | false :: keep', _ :: xs' => picked keep' xs'
  | _, _ => []
  end.

(** ** The log *)

(** The line that reports a race: saved, or failed. *)
Definition is_saved_line (line : string) : bool :=
  String.prefix "✅ Saved: " line.
Definition is_report_line (line : string) : bool :=
  is_saved_line line || String.prefix "🚨 Error processing " line.

(** ** Sessions, element lookups, costs *)
Section Resources.
Variables driver_t elem_t W : Type.
Local Abbreviation St := (state driver_t elem_t W).
Local Abbreviation Event := (event driver_t elem_t).

(** The session a call of [webdriver.Chrome()] returned, and the session
    a call of [quit()] that came back was made on. *)
Definition opened_by (ev : Event) : option driver_t :=
  match ev with
  | Ev c a =>
      match c in call _ _ R return exn + R -> option driver_t with
      | Chrome => fun a => match a with inr d => Some d | inl _ => None end
      | _ => fun _ => None
      end a
  end.
Definition quit_by (ev : Event) : option driver_t :=
  match ev with
  | Ev c a =>
      match c in call _ _ R return exn + R -> option driver_t with
      | Quit d => fun a => match a with inr _ => Some d | inl _ => None end
      | _ => fun _ => None
      end a
  end.

Definition was_opened (t : list Event) (d : driver_t) : Prop :=
  exists ev, In ev t /\ opened_by ev = Some d.
Definition was_quit (t : list Event) (d : driver_t) : Prop :=
  exists ev, In ev t /\ quit_by ev = Some d.

(** The sessions opened in a trace, latest first. *)
Definition sessions_opened (t : list Event) : list driver_t :=
  flat_map (fun ev => match opened_by ev with Some d => [d] | None => [] end)
           t.

(** Since the trace was [t0], every session opened has been quit. *)
Definition all_quit (t0 : list Event) (s : St) : Prop :=
  exists events,
    trace s = (events ++ t0)%list
    /\ forall d, was_opened events d -> was_quit events d.

(** The same, but for the session that [driver] names. *)
Definition settled (t0 : list Event) (s : St) : Prop :=
  exists events,
    trace s = (events ++ t0)%list
    /\ forall d, was_opened events d ->
                 was_quit events d \/ driver s = Some d.

(** A call of [find_element]. *)
Definition is_lookup (ev : Event) : bool :=
  match ev with Ev (FindElement _ _) _ => true | Ev _ _ => false end.
Definition lookups (s : St) : nat := count_events is_lookup (trace s).

(** The report lines and the saved lines printed so far. *)
Definition reports (s : St) : nat :=
  List.length (filter is_report_line (stdout s)).
Definition saved_lines (s : St) : nat :=
  List.length (filter is_saved_line (stdout s)).

(** [m] adds at most [k] to the measure [mu], however it ends. *)
Definition adds (A : Type) (mu : St -> nat) (k : nat) (m : M St A) : Prop :=
  forall s, mu (snd (m s)) <= mu s + k.

(** Every record is of the race [race_name]. *)
Definition named (race_name : string) (s : St) : Prop :=
  Forall (fun r => dict_get "Race Name" r = Some race_name) (race_results s).
End Resources.

Arguments named {driver_t elem_t W}.
Arguments lookups {driver_t elem_t W}.
Arguments reports {driver_t elem_t W}.
Arguments saved_lines {driver_t elem_t W}.

(* ================================================================= *)
(** * Part 6: proofs *)

(** ** Rules for invariants *)

Section InvariantRules.
Variable St : Type.
Variable I : St -> Prop.

Lemma inv_ret (A : Type) (a : A) : inv I (ret a).
Proof. intros s H; exact H. Qed.

Lemma inv_raise (A : Type) (e : exn) : inv I (@raise St A e).
Proof. intros s H; exact H. Qed.

Lemma inv_gets (A : Type) (f : St -> A) : inv I (gets f).
Proof. intros s H; exact H. Qed.

Lemma inv_lift_exn (A : Type) (r : exn + A) : inv I (@lift_exn St A r).
Proof. destruct r; intros s H; exact H. Qed.

Lemma inv_modify (f : St -> St) :
  (forall s, I s -> I (f s)) -> inv I (modify f).
Proof. intros Hf s H; apply Hf, H. Qed.

Lemma inv_bind (A C : Type) (m : M St A) (k : A -> M St C) :
  inv I m -> (forall a, inv I (k a)) -> inv I (bind m k).
Proof.
  intros Hm Hk s H. unfold bind. specialize (Hm s H).
  destruct (m s) as [[a | e |] s1]; simpl in *; auto.
  apply Hk, Hm.
Qed.

Lemma inv_try_except (A : Type) (body : M St A) (handler : exn -> M St A) :
  inv I body -> (forall e, inv I (handler e)) -> inv I (try_except body handler).
Proof.
  intros Hb Hh s H. unfold try_except. specialize (Hb s H).
  destruct (body s) as [[a | e |] s1]; simpl in *; auto.
  apply Hh, Hb.
Qed.

Lemma inv_try_finally (A : Type) (body : M St A) (final : M St unit) :
  inv I body -> inv I final -> inv I (try_finally body final).
Proof.
  intros Hb Hf s H. unfold try_finally. specialize (Hb s H).
  destruct (body s) as [[a | e |] s1]; simpl in *; auto;
    specialize (Hf s1 Hb); destruct (final s1) as [[u | e' |] s2]; auto.
Qed.

Lemma inv_for_range_from (body : nat -> M St unit) :
  (forall k, inv I (body k)) -> forall n i, inv I (for_range_from i n body).
Proof.
  intros Hb n; induction n as [| n IH]; intros i; simpl.
  - apply inv_ret.
  - apply inv_bind; [apply Hb | intros; apply IH].
Qed.

Lemma inv_for_range (n : nat) (body : nat -> M St unit) :
  (forall k, inv I (body k)) -> inv I (for_range n body).
Proof. intros; apply inv_for_range_from; assumption. Qed.

Lemma inv_attempts_from (body : M St unit) (handler : nat -> exn -> M St unit) :
  inv I body -> (forall a e, inv I (handler a e)) ->
  forall n a, inv I (attempts_from a n body handler).
Proof.
  intros Hb Hh n; induction n as [| n IH]; intros a; simpl.
  - apply inv_ret.
  - apply inv_bind.
    + apply inv_try_except.
      * apply inv_bind; [exact Hb | intros; apply inv_ret].
      * intros e. apply inv_bind; [apply Hh | intros; apply inv_ret].
    + intros [|]; [apply inv_ret | apply IH].
Qed.

Lemma inv_attempts (n : nat) (body : M St unit)
  (handler : nat -> exn -> M St unit) :
  inv I body -> (forall a e, inv I (handler a e)) ->
  inv I (attempts n body handler).
Proof. intros; apply inv_attempts_from; assumption. Qed.

Lemma inv_while_loop (cond : St -> bool) (body : M St unit) :
  inv I body -> forall fuel, inv I (while_loop fuel cond body).
Proof.
  intros Hb fuel; induction fuel as [| fuel IH]; intros s H; simpl.
  - destruct (cond s); exact H.
  - destruct (cond s); [| exact H].
    apply (@inv_bind unit unit body (fun _ => while_loop fuel cond body)
             Hb (fun _ => IH) s H).
Qed.
End InvariantRules.

Section ScriptInvariants.
Variables driver_t elem_t W : Type.
Variable B : browser driver_t elem_t W.
Local Abbreviation St := (state driver_t elem_t W).
Variable I : St -> Prop.

Lemma inv_remote (R : Type) (c : call driver_t elem_t R) :
  stands_event I c -> inv I (remote B c).
Proof.
  intros HI s H. unfold remote.
  destruct (handle B c (world s)) as [r w']. simpl. apply HI, H.
Qed.

Lemma inv_time_sleep (ms : nat) : stands_world I -> inv I (time_sleep B ms).
Proof. intros HI s H. apply HI, H. Qed.

Lemma inv_print (line : string) : stands_print I -> inv I (@print _ _ _ line).
Proof. intros HI s H. apply HI, H. Qed.

Lemma inv_read_var (A : Type) (name : string) (v : St -> option A) :
  inv I (read_var name v).
Proof. intros s H. unfold read_var. destruct (v s); exact H. Qed.

Lemma inv_for_each (A : Type) (xs : list A) (body : A -> Run _ _ _ unit) :
  (forall x, inv I (body x)) -> inv I (for_each xs body).
Proof.
  intros Hb; induction xs as [| x xs IH]; simpl.
  - apply inv_ret.
  - apply inv_bind; [apply Hb | intros; exact IH].
Qed.
End ScriptInvariants.

(** ** Invariants through the field reads and the script *)
Section ReadInvariants.
Variables driver_t elem_t W : Type.
Variable B : browser driver_t elem_t W.
Local Abbreviation St := (state driver_t elem_t W).
Variable I : St -> Prop.
Hypothesis Hreads : stands_reads I.
Hypothesis Hworld : stands_world I.

Lemma inv_find_text (xpath : string) : inv I (find_text B xpath).
Proof.
  unfold find_text.
  apply inv_bind; [apply inv_read_var | intros d].
  apply inv_bind; [apply inv_remote, Hreads | intros e].
  apply inv_remote, Hreads.
Qed.

Lemma inv_get_text_loop (retries delay : nat) (xpath : string) :
  inv I (get_text_loop B retries delay xpath).
Proof.
  induction retries as [| n IH]; simpl.
  - apply inv_ret.
  - apply inv_bind.
    + apply inv_try_except.
      * apply inv_bind; [apply inv_find_text | intros; apply inv_ret].
      * intros e. apply inv_bind; [apply inv_time_sleep, Hworld |].
        intros; apply inv_ret.
    + intros [t |]; [apply inv_ret | exact IH].
Qed.

Lemma inv_get_text (xpath : string) : inv I (get_text B xpath).
Proof. apply inv_get_text_loop. Qed.

Lemma inv_first_text (xpaths : list string) : inv I (first_text B xpaths).
Proof.
  induction xpaths as [| x xs IH]; simpl.
  - apply inv_ret.
  - apply inv_bind.
    + apply inv_try_except.
      * apply inv_bind; [apply inv_find_text | intros; apply inv_ret].
      * intros; apply inv_ret.
    + intros [t |]; [apply inv_ret | exact IH].
Qed.

Lemma inv_by_data_field_loop (retries delay : nat) (xpaths : list string) :
  inv I (by_data_field_loop B retries delay xpaths).
Proof.
  induction retries as [| n IH]; simpl.
  - apply inv_ret.
  - apply inv_bind; [apply inv_first_text |].
    intros [t |]; [apply inv_ret |].
    apply inv_bind; [apply inv_time_sleep, Hworld | intros; exact IH].
Qed.

Lemma inv_get_text_by_data_field (row_index : option string)
  (field_name : string) :
  inv I (get_text_by_data_field B row_index field_name).
Proof. apply inv_by_data_field_loop. Qed.

Lemma inv_texts_of (options : list elem_t) : inv I (texts_of B options).
Proof.
  induction options as [| o os IH]; simpl.
  - apply inv_ret.
  - apply inv_bind; [apply inv_remote, Hreads | intros t].
    apply inv_bind; [exact IH | intros; apply inv_ret].
Qed.
End ReadInvariants.

(** Walking down a statement: [known] is tried first at every node (for
    statements that have a lemma of their own), [leaf] closes what is asked
    of the invariant at an assignment, a call, a sleep or a print. *)
Ltac head_of t := lazymatch t with ?f _ => head_of f | _ => t end.

Ltac inv_go known leaf :=
  first
    [ solve [known]
    | lazymatch goal with
      | |- inv _ (bind _ _) =>
          apply inv_bind; [inv_go known leaf | intros; inv_go known leaf]
      | |- inv _ (ret _) => apply inv_ret
      | |- inv _ (raise _) => apply inv_raise
      | |- inv _ (gets _) => apply inv_gets
      | |- inv _ (lift_exn _) => apply inv_lift_exn
      | |- inv _ (read_var _ _) => apply inv_read_var
      | |- inv _ (modify _) => apply inv_modify; leaf
      | |- inv _ (remote _ _) => apply inv_remote; leaf
      | |- inv _ (time_sleep _ _) => apply inv_time_sleep; leaf
      | |- inv _ (print _) => apply inv_print; leaf
      | |- inv _ (try_except _ _) =>
          apply inv_try_except; [inv_go known leaf | intros; inv_go known leaf]
      | |- inv _ (try_finally _ _) =>
          apply inv_try_finally; [inv_go known leaf | inv_go known leaf]
      | |- inv _ (for_range _ _) =>
          apply inv_for_range; intros; inv_go known leaf
      | |- inv _ (for_each _ _) =>
          apply inv_for_each; intros; inv_go known leaf
      | |- inv _ (attempts _ _ _) =>
          apply inv_attempts; [inv_go known leaf | intros; inv_go known leaf]
      | |- inv _ (while_loop _ _ _) =>
          apply inv_while_loop; inv_go known leaf
      | |- inv _ (get_text _ _) => apply inv_get_text; leaf
      | |- inv _ (get_text_by_data_field _ _ _) =>
          apply inv_get_text_by_data_field; leaf
      | |- inv _ (texts_of _ _) => apply inv_texts_of; leaf
      | |- inv _ (if ?b then _ else _) => destruct b; inv_go known leaf
      | |- inv _ (match ?x with _ => _ end) => destruct x; inv_go known leaf
      | |- inv _ ?m => let h := head_of m in unfold h; inv_go known leaf
      end ].

Ltac stands_intro :=
  lazymatch goal with
  | |- stands_reads _ => split; intros
  | _ => idtac
  end;
  unfold stands_event, stands_world, stands_print; intros.

(** The usual leaf: the invariant reads fields that the step leaves alone. *)
Ltac frame_leaf := stands_intro; simpl in *; auto.

Section FilesUntouched.
Variables driver_t elem_t W : Type.
Variable B : browser driver_t elem_t W.
Local Abbreviation St := (state driver_t elem_t W).

(** Nothing before [save_results] writes a file. *)
Lemma collect_dates_files (fuel : nat) (race_url race_name : string)
  (f : list (string * csv)) :
  inv (fun s : St => files s = f)
      (collect_dates B fuel race_url race_name).
Proof. inv_go fail frame_leaf. Qed.
End FilesUntouched.

(** ** C1: what is written, and when *)
Section Persistence.
Variables driver_t elem_t W : Type.
Variable B : browser driver_t elem_t W.
Local Abbreviation St := (state driver_t elem_t W).

Lemma quit_driver_keeps (f : list (string * csv)) (r : list dict) :
  inv (fun s : St => files s = f /\ race_results s = r) (quit_driver B).
Proof. inv_go fail frame_leaf. Qed.

(** C1, as the script has it.  A race whose date loop ends without an
    exception gets one file: the records accumulated, or the bare header
    line when there are none.  A race whose [try] is left by an exception
    gets no file, and the records accumulated so far are not written. *)
Theorem C1_saved_iff_dates_completed (fuel : nat) (race_url race_name : string)
  (s : St) :
  let body := collect_dates B fuel race_url race_name s in
  let final := snd (guarded_race B fuel race_url race_name s) in
  match fst body with
  | Ok _ =>
      files final
      = (csv_filename_of race_name, to_csv (race_results (snd body)))
          :: files s
      /\ race_results final = race_results (snd body)
  | Raise _ =>
      files final = files s /\ race_results final = race_results (snd body)
  | Diverge => files final = files s
  end.
Proof.
  intros body final.
  pose proof (@collect_dates_files _ _ _ B fuel race_url race_name (files s) s
                eq_refl) as Hf.
  subst body final.
  unfold guarded_race, try_finally, try_except, scrape_race, bind.
  destruct (collect_dates B fuel race_url race_name s) as [[[] | e |] s1];
    simpl in Hf |- *.
  - match goal with
    | |- context [quit_driver B ?s2] =>
        pose proof (@quit_driver_keeps (files s2) (race_results s2) s2
                      (conj eq_refl eq_refl)) as [H1 H2];
        destruct (quit_driver B s2) as [[[] | e |] s3]
    end; simpl in *; rewrite H1, H2, Hf; auto.
  - match goal with
    | |- context [quit_driver B ?s2] =>
        pose proof (@quit_driver_keeps (files s2) (race_results s2) s2
                      (conj eq_refl eq_refl)) as [H1 H2];
        destruct (quit_driver B s2) as [[[] | e' |] s3]
    end; simpl in *; rewrite H1, H2, Hf; auto.
  - exact Hf.
Qed.
End Persistence.

(** C1 fails as stated.  Two races: the first has one date and an empty
    table, the second a date with one row and then a date with an empty
    table.  The run goes through both, one record has been accumulated for
    the second race when it is abandoned, and no file at all is written. *)
Lemma C1_aborted_race_writes_nothing :
  let final := snd Scenarios.run_empty_then_aborted in
  fst Scenarios.run_empty_then_aborted = Ok tt
  /\ List.length (race_results final) = 1
  /\ files final = [].
Proof. vm_compute. repeat split. Qed.

(** ** Reading a run backwards *)
Section Inversion.
Variable St : Type.

Lemma bind_Ok (A C : Type) (m : M St A) (k : A -> M St C) (s s' : St) (c : C) :
  bind m k s = (Ok c, s') ->
  exists a s1, m s = (Ok a, s1) /\ k a s1 = (Ok c, s').
Proof.
  unfold bind. destruct (m s) as [[a | e |] s1]; intros H;
    [exists a, s1; auto | discriminate | discriminate].
Qed.

Lemma ret_Ok (A : Type) (a b : A) (s s' : St) :
  ret a s = (Ok b, s') -> a = b /\ s = s'.
Proof. unfold ret. intros H; inversion H; auto. Qed.

(** An invariant through [x <- m ;; k x] when [k] needs to know something
    of the value [m] returns. *)
Lemma inv_bind_value (A C : Type) (I : St -> Prop) (P : A -> Prop)
  (m : M St A) (k : A -> M St C) :
  (forall s a s', I s -> m s = (Ok a, s') -> P a) ->
  inv I m -> (forall a, P a -> inv I (k a)) -> inv I (bind m k).
Proof.
  intros HP Hm Hk s H. unfold bind. specialize (Hm s H).
  destruct (m s) as [[a | e |] s1] eqn:E; simpl in *; auto.
  apply Hk; [eapply HP; [exact H | exact E] | exact Hm].
Qed.
End Inversion.

Ltac invert_binds H :=
  repeat (apply bind_Ok in H;
          let a := fresh "v" in
          let s1 := fresh "s" in
          let E := fresh "E" in
          destruct H as (a & s1 & E & H));
  apply ret_Ok in H; destruct H as [H _].

(** ** C3: the shape of a record follows its designation *)
Section Shape.
Variables driver_t elem_t W : Type.
Variable B : browser driver_t elem_t W.
Local Abbreviation St := (state driver_t elem_t W).

Lemma build_record_shape (race_name designation : string)
  (row_index : option string) (s s' : St) (record : dict) :
  build_record B race_name designation row_index s = (Ok record, s') ->
  well_shaped record = true.
Proof.
  unfold build_record, well_shaped, fields_for.
  destruct ((designation =? "DNS") || (designation =? "DQ")) eqn:E1;
    [| destruct (designation =? "DNF") eqn:E2];
    intros H;
    [unfold record_base_only in H | unfold record_dnf in H
     | unfold record_finisher in H];
    invert_binds H; subst record; simpl;
    rewrite E1; try rewrite E2; reflexivity.
Qed.

Lemma extract_row_shaped (race_name : string) (i row_number : nat) :
  inv shaped (extract_row B race_name i row_number).
Proof.
  inv_go
    ltac:(eapply inv_bind_value;
          [ intros ? ? ? _; apply build_record_shape
          | inv_go fail ltac:(unfold shaped; frame_leaf)
          | intros record Hrecord;
            inv_go fail
              ltac:(unfold shaped; frame_leaf;
                    try (apply Forall_app; split; auto)) ])
    ltac:(unfold shaped; frame_leaf).
Qed.

End Shape.

(** ** Rules for pre- and postconditions *)
Section HoareRules.
Variable St : Type.

Lemma hoare_inv (A : Type) (I : St -> Prop) (m : M St A) :
  inv I m -> hoare I m I.
Proof. intros H; exact H. Qed.

Lemma hoare_conseq (A : Type) (P P' Q Q' : St -> Prop) (m : M St A) :
  hoare P' m Q' -> (forall s, P s -> P' s) -> (forall s, Q' s -> Q s) ->
  hoare P m Q.
Proof. intros H HP HQ s Hs. apply HQ, H, HP, Hs. Qed.

Lemma hoare_bind (A C : Type) (P P' Q : St -> Prop) (m : M St A)
  (k : A -> M St C) :
  hoare P m P' -> (forall a, hoare P' (k a) Q) -> (forall s, P' s -> Q s) ->
  hoare P (bind m k) Q.
Proof.
  intros Hm Hk HQ s Hs. unfold bind. specialize (Hm s Hs).
  destruct (m s) as [[a | e |] s1]; simpl in *; auto.
  apply Hk, Hm.
Qed.

Lemma hoare_try_except (A : Type) (P P' Q : St -> Prop) (body : M St A)
  (handler : exn -> M St A) :
  hoare P body P' -> (forall e, hoare P' (handler e) Q) ->
  (forall s, P' s -> Q s) -> hoare P (try_except body handler) Q.
Proof.
  intros Hb Hh HQ s Hs. unfold try_except. specialize (Hb s Hs).
  destruct (body s) as [[a | e |] s1]; simpl in *; auto.
  apply Hh, Hb.
Qed.

Lemma hoare_try_finally (A : Type) (P P' Q : St -> Prop) (body : M St A)
  (final : M St unit) :
  hoare P body P' -> hoare P' final Q -> (forall s, P' s -> Q s) ->
  hoare P (try_finally body final) Q.
Proof.
  intros Hb Hf HQ s Hs. unfold try_finally. specialize (Hb s Hs).
  destruct (body s) as [[a | e |] s1]; simpl in *; auto;
    specialize (Hf s1 Hb); destruct (final s1) as [[u | e' |] s2]; auto.
Qed.

(** A [for] loop whose invariant moves with the index. *)
Lemma hoare_for_range_from (I : nat -> St -> Prop) (body : nat -> M St unit) :
  (forall k, hoare (I k) (body k) (I (S k))) ->
  (forall k s, I k s -> I (S k) s) ->
  forall n i, hoare (I i) (for_range_from i n body) (I (i + n)).
Proof.
  intros Hb Hmono n; induction n as [| n IH]; intros i s Hs; simpl.
  - rewrite Nat.add_0_r. exact Hs.
  - assert (Hup : forall j m s0, I m s0 -> I (m + j) s0).
    { induction j as [| j IHj]; intros m s0 H0.
      - rewrite Nat.add_0_r; exact H0.
      - rewrite Nat.add_succ_r. apply Hmono, IHj, H0. }
    unfold bind. specialize (Hb i s Hs).
    destruct (body i s) as [[u | e |] s1]; simpl in *.
    + rewrite Nat.add_succ_r. apply (IH (S i) s1 Hb).
    + rewrite Nat.add_succ_r. apply (Hup n (S i)), Hb.
    + rewrite Nat.add_succ_r. apply (Hup n (S i)), Hb.
Qed.

Lemma triple_bind (A C : Type) (P P' Qok Qexit : St -> Prop) (m : M St A)
  (k : A -> M St C) :
  hoare P m P' -> (forall a, triple P' (k a) Qok Qexit) ->
  (forall s, P' s -> Qexit s) -> triple P (bind m k) Qok Qexit.
Proof.
  intros Hm Hk HQ s Hs. unfold bind. specialize (Hm s Hs).
  destruct (m s) as [[a | e |] s1]; simpl in *; auto.
  apply Hk, Hm.
Qed.

Lemma triple_modify (P Qok Qexit : St -> Prop) (f : St -> St) :
  (forall s, P s -> Qok (f s)) -> triple P (modify f) Qok Qexit.
Proof. intros H s Hs. simpl. apply H, Hs. Qed.

(** A [while] loop whose invariant is wanted only where the body
    completes. *)
Lemma hoare_while_loop (I Qexit : St -> Prop) (cond : St -> bool)
  (body : M St unit) :
  triple I body I Qexit -> (forall s, I s -> Qexit s) ->
  forall fuel, hoare I (while_loop fuel cond body) Qexit.
Proof.
  intros Hb HQ fuel; induction fuel as [| fuel IH]; intros s Hs; simpl.
  - destruct (cond s); simpl; apply HQ, Hs.
  - destruct (cond s); [| simpl; apply HQ, Hs].
    unfold bind. specialize (Hb s Hs).
    destruct (body s) as [[u | e |] s1]; simpl in *;
      [apply IH, Hb | exact Hb | exact Hb].
Qed.
End HoareRules.

(** ** C9: the records come in date, page, row order *)
Lemma pos_le_refl (p : position) : pos_le p p.
Proof. destruct p as [[d g] r]; simpl; lia. Qed.

Lemma pos_le_trans (p q r : position) : pos_le p q -> pos_le q r -> pos_le p r.
Proof.
  destruct p as [[d1 g1] r1], q as [[d2 g2] r2], r as [[d3 g3] r3]; simpl; lia.
Qed.

Lemma Sorted_snoc (A : Type) (R : A -> A -> Prop) (l : list A) (x : A) :
  Sorted R l -> Forall (fun y => R y x) l -> Sorted R (l ++ [x]).
Proof.
  induction l as [| a l IH]; simpl; intros Hs Hf.
  - repeat constructor.
  - inversion Hs as [| ? ? Hs' Hhd]; subst.
    inversion Hf as [| ? ? Ha Hf']; subst.
    constructor; [apply IH; assumption |].
    destruct l as [| b l']; simpl; constructor; [exact Ha |].
    inversion Hhd; assumption.
Qed.

Section Order.
Variables driver_t elem_t W : Type.
Variable B : browser driver_t elem_t W.
Local Abbreviation St := (state driver_t elem_t W).

Lemma ordered_weaken (b b' : position) (s : St) :
  pos_le b b' -> ordered_upto b s -> ordered_upto b' s.
Proof.
  intros Hb (Hs & Hf & Hl). split; [exact Hs | split; [| exact Hl]].
  eapply Forall_impl; [| exact Hf].
  intros q Hq. exact (pos_le_trans _ _ _ Hq Hb).
Qed.

Lemma ordered_ext (b : position) (s s' : St) :
  provenance s' = provenance s -> race_results s' = race_results s ->
  ordered_upto b s -> ordered_upto b s'.
Proof. unfold ordered_upto. intros -> ->. auto. Qed.

Lemma ordered_snoc (b : position) (prov : list position)
  (results : list dict) (record : dict) :
  Sorted pos_le prov /\ Forall (fun q => pos_le q b) prov
  /\ List.length prov = List.length results ->
  Sorted pos_le (prov ++ [b]) /\ Forall (fun q => pos_le q b) (prov ++ [b])
  /\ List.length (prov ++ [b]) = List.length (results ++ [record]).
Proof.
  intros (Hs & Hf & Hl). repeat split.
  - apply Sorted_snoc; assumption.
  - apply Forall_app; split; [assumption |].
    constructor; [apply pos_le_refl | constructor].
  - rewrite !length_app, Hl; reflexivity.
Qed.

Ltac order_leaf :=
  stands_intro; unfold at_row, ordered_upto in *; intros; simpl in *;
  first [assumption | apply ordered_snoc; assumption].

Lemma process_row_ordered (race_name : string) (i k : nat) :
  hoare (at_row i k) (process_row B race_name i k) (at_row i (S k)).
Proof.
  eapply hoare_conseq with (P' := at_row i k) (Q' := at_row i k).
  - apply hoare_inv. inv_go fail order_leaf.
  - auto.
  - intros s. apply ordered_weaken. simpl. lia.
Qed.

Lemma rows_ordered (race_name : string) (i n : nat) :
  hoare (at_row i 0) (for_range n (process_row B race_name i)) (at_row i n).
Proof.
  apply (@hoare_for_range_from _ (at_row i)).
  - intros k. apply process_row_ordered.
  - intros k s. apply ordered_weaken. simpl. lia.
Qed.

Lemma process_page_ordered (race_name : string) (i : nat) :
  triple (at_row i 0) (process_page B race_name i) (at_row i 0) (in_page i).
Proof.
  unfold process_page.
  apply triple_bind with (P' := at_row i 0);
    [apply hoare_inv; inv_go fail order_leaf | intros d
     | intros s H; exists 0; exact H].
  apply triple_bind with (P' := at_row i 0);
    [apply hoare_inv; inv_go fail order_leaf | intros rs
     | intros s H; exists 0; exact H].
  apply triple_bind with (P' := at_row i 0);
    [apply hoare_inv; inv_go fail order_leaf | intros _
     | intros s H; exists 0; exact H].
  apply triple_bind with (P' := at_row i 0);
    [apply hoare_inv; inv_go fail order_leaf | intros _
     | intros s H; exists 0; exact H].
  apply triple_bind with (P' := at_row i (List.length rs));
    [apply rows_ordered | intros _
     | intros s H; exists (List.length rs); exact H].
  apply triple_bind with (P' := at_row i (List.length rs));
    [apply hoare_inv; inv_go fail order_leaf | intros _
     | intros s H; exists (List.length rs); exact H].
  apply triple_modify. intros s H. unfold at_row in *. simpl.
  apply ordered_ext with (s := s); [reflexivity | reflexivity |].
  revert H. apply ordered_weaken. simpl. lia.
Qed.

Ltac date_leaf :=
  stands_intro; unfold before_date, ordered_upto in *; intros; simpl in *;
  assumption.

Lemma page_loop_ordered (fuel : nat) (race_name : string) (i : nat) :
  hoare (before_date i) (page_loop B fuel race_name i) (before_date (S i)).
Proof.
  unfold page_loop.
  apply hoare_bind with (P' := at_row i 0).
  - intros s H. unfold at_row. simpl.
    apply ordered_ext with (s := s); [reflexivity | reflexivity | exact H].
  - intros _. eapply hoare_conseq.
    + apply hoare_while_loop with (I := at_row i 0) (Qexit := in_page i).
      * apply process_page_ordered.
      * intros s H; exists 0; exact H.
    + auto.
    + intros s [k H]. revert H. apply ordered_weaken. simpl. lia.
  - intros s. apply ordered_weaken. simpl. lia.
Qed.

Lemma process_date_ordered (fuel : nat) (race_url race_name : string)
  (i : nat) :
  hoare (before_date i) (process_date B fuel race_url race_name i)
        (before_date (S i)).
Proof.
  assert (Hup : forall s : St, before_date i s -> before_date (S i) s).
  { intros s. apply ordered_weaken. simpl. lia. }
  unfold process_date.
  apply hoare_bind with (P' := before_date i);
    [apply hoare_inv; inv_go fail date_leaf | intros _ | exact Hup].
  apply hoare_bind with (P' := before_date i);
    [apply hoare_inv; inv_go fail date_leaf | intros _ | exact Hup].
  apply hoare_bind with (P' := before_date i);
    [apply hoare_inv; inv_go fail date_leaf | intros _ | exact Hup].
  apply hoare_bind with (P' := before_date i);
    [apply hoare_inv; inv_go fail date_leaf | intros _ | exact Hup].
  apply page_loop_ordered.
Qed.

Ltac in_order_leaf :=
  stands_intro; unfold in_order, before_date, ordered_upto in *; intros;
  simpl in *; assumption.

Lemma collect_dates_ordered (fuel : nat) (race_url race_name : string) :
  hoare (before_date 0) (collect_dates B fuel race_url race_name) in_order.
Proof.
  assert (Hout : forall n (s : St), before_date n s -> in_order s).
  { intros n s (Hs & _ & Hl). split; assumption. }
  unfold collect_dates.
  repeat (apply hoare_bind with (P' := before_date 0);
          [apply hoare_inv; inv_go fail date_leaf | intros ? | apply Hout]).
  eapply hoare_conseq.
  - apply (@hoare_for_range_from _ before_date).
    + intros k. apply process_date_ordered.
    + intros k s. apply ordered_weaken. simpl. lia.
  - auto.
  - apply Hout.
Qed.

Lemma process_race_ordered (fuel : nat) (target : RaceTarget) (s : St) :
  in_order (snd (process_race B fuel target s)).
Proof.
  unfold process_race.
  unfold bind at 1. simpl.
  unfold bind at 1. simpl.
  match goal with
  | |- in_order (snd (?m ?s0)) =>
      assert (Hm : hoare (before_date 0) m in_order);
      [| apply Hm; repeat split; simpl; constructor]
  end.
  assert (Hout : forall s : St, before_date 0 s -> in_order s).
  { intros s0 (Hs & _ & Hl). split; assumption. }
  apply hoare_bind with (P' := before_date 0);
    [apply hoare_inv; inv_go fail date_leaf | intros _ | exact Hout].
  unfold guarded_race.
  apply hoare_try_finally with (P' := in_order);
    [| apply hoare_inv; inv_go fail in_order_leaf | auto].
  apply hoare_try_except with (P' := in_order);
    [| intros e; apply hoare_inv; inv_go fail in_order_leaf | auto].
  unfold scrape_race.
  apply hoare_bind with (P' := in_order);
    [apply collect_dates_ordered | intros _ | auto].
  apply hoare_inv; inv_go fail in_order_leaf.
Qed.

(** Between the start of a race's [try] and its end, [race_results] only
    grows at its end. *)
Lemma guarded_race_appends (fuel : nat) (race_url race_name : string)
  (s : St) :
  is_prefix (race_results s)
            (race_results (snd (guarded_race B fuel race_url race_name s))).
Proof.
  assert (H : inv (fun s' : St =>
                     is_prefix (race_results s) (race_results s'))
                  (guarded_race B fuel race_url race_name)).
  { inv_go fail
      ltac:(frame_leaf;
            try match goal with
                | H : is_prefix _ _ |- is_prefix _ _ =>
                    destruct H as [rest ->]; eexists;
                    rewrite <- app_assoc; reflexivity
                end). }
  apply H. exists []. rewrite app_nil_r. reflexivity.
Qed.
End Order.

(** C9.  From the start of a race's [try] to its end, [race_results] is
    only appended to.  When the race has been processed, the records stand
    in the order of their positions: by date ordinal, within a date by page
    in the order of the visits, within a page by row ordinal.  On the site
    with two dates of two pages of two rows the script collects eight
    records, in that order. *)
Theorem C9_records_in_date_page_row_order :
  (forall (driver_t elem_t W : Type) (B : browser driver_t elem_t W)
          (fuel : nat) (race_url race_name : string)
          (s : state driver_t elem_t W),
      is_prefix (race_results s)
        (race_results (snd (guarded_race B fuel race_url race_name s))))
  /\ (forall (driver_t elem_t W : Type) (B : browser driver_t elem_t W)
             (fuel : nat) (target : RaceTarget) (s : state driver_t elem_t W),
         let final := snd (process_race B fuel target s) in
         Sorted pos_le (provenance final)
         /\ List.length (provenance final) = List.length (race_results final))
  /\ (let final := snd Scenarios.run_two_by_two in
      provenance final
      = [ (0, 0, 0); (0, 0, 1); (0, 1, 0); (0, 1, 1);
          (1, 0, 0); (1, 0, 1); (1, 1, 0); (1, 1, 1) ]
      /\ map (dict_get "Athlete") (race_results final)
         = [ Some "A1"; Some "A2"; Some "A3"; Some "A4";
             Some "B1"; Some "B2"; Some "B3"; Some "B4" ]
      /\ map (dict_get "Race Date") (race_results final)
         = [ Some "2024 - June 02"; Some "2024 - June 02";
             Some "2024 - June 02"; Some "2024 - June 02";
             Some "2023 - June 04"; Some "2023 - June 04";
             Some "2023 - June 04"; Some "2023 - June 04" ]).
Proof.
  split; [| split].
  - intros. apply guarded_race_appends.
  - intros. apply process_race_ordered.
  - vm_compute. repeat split.
Qed.

(** ** C7: the cells of a written file *)
Lemma mem_In (k : string) (ks : list string) : mem k ks = true <-> In k ks.
Proof.
  unfold mem. rewrite existsb_exists. split.
  - intros (x & Hx & E). apply String.eqb_eq in E. subst; exact Hx.
  - intros H. exists k. split; [exact H | apply String.eqb_refl].
Qed.

Lemma add_column_In (cols : list string) (k k' : string) :
  In k (add_column cols k') <-> In k cols \/ k = k'.
Proof.
  unfold add_column. fold (mem k' cols).
  destruct (mem k' cols) eqn:E.
  - apply mem_In in E. split; [auto | intros [H | ->]; auto].
  - rewrite in_app_iff. simpl. split; intros [H | H]; auto.
    + destruct H as [-> | []]; auto.
Qed.

Lemma add_column_NoDup (cols : list string) (k : string) :
  NoDup cols -> NoDup (add_column cols k).
Proof.
  intros H. unfold add_column. fold (mem k cols).
  destruct (mem k cols) eqn:E; [exact H |].
  apply NoDup_app; [exact H | repeat constructor; simpl; tauto |].
  intros x Hx [<- | []]. apply mem_In in Hx. congruence.
Qed.

Lemma add_columns_In (ks cols : list string) (k : string) :
  In k (fold_left add_column ks cols) <-> In k cols \/ In k ks.
Proof.
  revert cols; induction ks as [| k' ks IH]; intros cols; simpl.
  - tauto.
  - rewrite IH, add_column_In. intuition (subst; auto).
Qed.

Lemma add_columns_NoDup (ks cols : list string) :
  NoDup cols -> NoDup (fold_left add_column ks cols).
Proof.
  revert cols; induction ks as [| k' ks IH]; intros cols H; simpl.
  - exact H.
  - apply IH, add_column_NoDup, H.
Qed.

Lemma frame_columns_In (records : list dict) (cols : list string) (k : string) :
  In k (fold_left (fun cols r => fold_left add_column (dict_keys r) cols)
                  records cols)
  <-> In k cols \/ exists r, In r records /\ In k (dict_keys r).
Proof.
  revert cols; induction records as [| r rs IH]; intros cols; simpl.
  - split; [auto | intros [H | (r & [] & _)]; exact H].
  - rewrite IH, add_columns_In. split.
    + intros [[H | H] | (r' & Hr' & Hk)]; eauto.
    + intros [H | (r' & [<- | Hr'] & Hk)]; eauto.
Qed.

Lemma frame_columns_NoDup (records : list dict) (cols : list string) :
  NoDup cols ->
  NoDup (fold_left (fun cols r => fold_left add_column (dict_keys r) cols)
                   records cols).
Proof.
  revert cols; induction records as [| r rs IH]; intros cols H; simpl.
  - exact H.
  - apply IH, add_columns_NoDup, H.
Qed.

Lemma dict_get_absent (k : string) (r : dict) :
  ~ In k (dict_keys r) -> dict_get k r = None.
Proof.
  induction r as [| [k' v] r IH]; simpl; intros H; [reflexivity |].
  destruct (String.eqb_spec k k') as [-> | Hne]; [tauto |].
  apply IH. tauto.
Qed.

Lemma well_shaped_keys (r : dict) (d k : string) :
  well_shaped r = true -> dict_get "Designation" r = Some d ->
  In k (dict_keys r) -> mem k (fields_for d) = true.
Proof.
  unfold well_shaped, same_fields. intros H Hd Hk. rewrite Hd in H.
  apply andb_prop in H as [H _]. apply andb_prop in H as [_ H].
  rewrite forallb_forall in H. apply H, Hk.
Qed.



(** C2: the script gives one row two records.  The site has one date, one
    page, one row; the first click meant to close the expanded row raises.
    The record had been appended before that click, the [except] clause
    retries the whole extraction, and the row is appended again: the file
    has two lines for the one row. *)
Lemma C2_row_recorded_twice :
  let final := snd Scenarios.run_close_fails_once in
  fst Scenarios.run_close_fails_once = Ok tt
  /\ List.length (race_results final) = 2
  /\ provenance final = [ (0, 0, 0); (0, 0, 0) ]
  /\ map (dict_get "Athlete") (race_results final) = [ Some "H1"; Some "H1" ]
  /\ exists name header first second,
       files final = [ (name, [ header; first; second ]) ].
Proof. vm_compute. repeat split. do 4 eexists. reflexivity. Qed.

(** ** C4: what ends a run *)
Section Containment.
Variables driver_t elem_t W : Type.
Variable B : browser driver_t elem_t W.
Local Abbreviation St := (state driver_t elem_t W).

Lemma bind_Raise (A C : Type) (m : Run driver_t elem_t W A)
  (k : A -> Run driver_t elem_t W C) (s s' : St) (e : exn) :
  bind m k s = (Raise e, s') ->
  m s = (Raise e, s')
  \/ exists a s1, m s = (Ok a, s1) /\ k a s1 = (Raise e, s').
Proof.
  unfold bind. destruct (m s) as [[a | e0 |] s1]; intros H.
  - right. exists a, s1. auto.
  - left. inversion H; subst. reflexivity.
  - discriminate.
Qed.

Lemma remote_Raise (R : Type) (c : call driver_t elem_t R) (s s' : St)
  (e : exn) :
  remote B c s = (Raise e, s') -> trace s' = Ev c (inl e) :: trace s.
Proof.
  unfold remote. destruct (handle B c (world s)) as [[e0 | v] w'];
    intros H; inversion H; subst; reflexivity.
Qed.

Lemma start_driver_Raise (race_url : string) (s s' : St) (e : exn) :
  start_driver B race_url s = (Raise e, s') ->
  ends_on_failed_session_call e s'.
Proof.
  unfold start_driver. intros H.
  apply bind_Raise in H as [H | (d & s1 & _ & H)].
  { apply remote_Raise in H. do 3 eexists. split; [exact H | reflexivity]. }
  apply bind_Raise in H as [H | ([] & s2 & _ & H)]; [discriminate |].
  apply bind_Raise in H as [H | ([] & s3 & _ & H)].
  { apply remote_Raise in H. do 3 eexists. split; [exact H | reflexivity]. }
  apply remote_Raise in H. do 3 eexists. split; [exact H | reflexivity].
Qed.

Lemma start_driver_binds (race_url : string) (s s' : St) :
  start_driver B race_url s = (Ok tt, s') -> driver_bound s'.
Proof.
  unfold start_driver. intros H.
  apply bind_Ok in H as (d & s1 & _ & H).
  apply bind_Ok in H as ([] & s2 & H2 & H).
  inversion H2; subst s2.
  assert (Hinv : inv driver_bound
                   (remote B (MaximizeWindow d) ;;
                    remote B (Get d (Some race_url)))).
  { inv_go fail ltac:(unfold driver_bound; frame_leaf). }
  specialize (Hinv (set_driver (Some d) s1)). rewrite H in Hinv.
  apply Hinv. unfold driver_bound. simpl. discriminate.
Qed.

Lemma scrape_keeps_driver (fuel : nat) (race_url race_name : string) :
  inv driver_bound
      (try_except (scrape_race B fuel race_url race_name)
         (fun e => print ("🚨 Error processing " ++ race_url ++ ": "
                            ++ str_prefix 100 (exn_str e)))).
Proof.
  inv_go fail ltac:(unfold driver_bound; frame_leaf; try discriminate).
Qed.

Lemma guarded_race_Raise (fuel : nat) (race_url race_name : string)
  (s s' : St) (e : exn) :
  driver_bound s ->
  guarded_race B fuel race_url race_name s = (Raise e, s') ->
  ends_on_failed_session_call e s'.
Proof.
  intros Hd H. unfold guarded_race, try_finally in H.
  pose proof (@scrape_keeps_driver fuel race_url race_name s Hd) as Hd1.
  set (T := try_except _ _) in *.
  assert (HT : forall e0, fst (T s) <> Raise e0).
  { subst T. unfold try_except.
    destruct (scrape_race B fuel race_url race_name s) as [[[] | e1 |] s1];
      simpl; intros; discriminate. }
  destruct (T s) as [r1 s1]. simpl in *.
  assert (Hq : forall s2, quit_driver B s1 = (Raise e, s2) ->
                          ends_on_failed_session_call e s2).
  { unfold quit_driver, bind, read_var. intros s2.
    destruct (driver s1) as [d |] eqn:Ed; [| contradiction].
    destruct (remote B (Quit d) s1) as [[[] | e1 |] s3] eqn:Eq;
      intros E; inversion E; subst.
    apply remote_Raise in Eq. do 3 eexists. split; [exact Eq | reflexivity]. }
  destruct r1 as [[] | e1 |];
    [| exfalso; eapply HT; reflexivity | discriminate].
  destruct (quit_driver B s1) as [[[] | e2 |] s2] eqn:Eq;
    inversion H; subst. apply Hq. reflexivity.
Qed.

Lemma process_race_Raise (fuel : nat) (target : RaceTarget) (s s' : St)
  (e : exn) :
  process_race B fuel target s = (Raise e, s') ->
  ends_on_failed_session_call e s'.
Proof.
  unfold process_race. intros H.
  apply bind_Raise in H as [H | ([] & s1 & _ & H)]; [discriminate |].
  apply bind_Raise in H as [H | ([] & s2 & _ & H)]; [discriminate |].
  apply bind_Raise in H as [H | ([] & s3 & Hs & H)].
  - eapply start_driver_Raise; exact H.
  - eapply guarded_race_Raise; [| exact H].
    eapply start_driver_binds; exact Hs.
Qed.

End Containment.

(** ** Rules for the ways a statement ends *)
Section EndingRules.
Variable St : Type.

Lemma succeeds_total (A : Type) (m : M St A) : succeeds m -> total m.
Proof. intros H s. destruct (H s) as [a ->]. discriminate. Qed.

Lemma total_ret (A : Type) (a : A) : total (@ret St A a).
Proof. intros s; discriminate. Qed.

Lemma total_raise (A : Type) (e : exn) : total (@raise St A e).
Proof. intros s; discriminate. Qed.

Lemma total_gets (A : Type) (f : St -> A) : total (gets f).
Proof. intros s; discriminate. Qed.

Lemma total_modify (f : St -> St) : total (modify f).
Proof. intros s; discriminate. Qed.

Lemma total_lift_exn (A : Type) (r : exn + A) : total (@lift_exn St A r).
Proof. destruct r; intros s; discriminate. Qed.

Lemma total_bind (A C : Type) (m : M St A) (k : A -> M St C) :
  total m -> (forall a, total (k a)) -> total (bind m k).
Proof.
  intros Hm Hk s. unfold bind. specialize (Hm s).
  destruct (m s) as [[a | e |] s1]; simpl in *;
    [apply Hk | discriminate | congruence].
Qed.

Lemma total_try_except (A : Type) (body : M St A) (handler : exn -> M St A) :
  total body -> (forall e, total (handler e)) ->
  total (try_except body handler).
Proof.
  intros Hb Hh s. unfold try_except. specialize (Hb s).
  destruct (body s) as [[a | e |] s1]; simpl in *;
    [discriminate | apply Hh | congruence].
Qed.

Lemma total_try_finally (A : Type) (body : M St A) (final : M St unit) :
  total body -> total final -> total (try_finally body final).
Proof.
  intros Hb Hf s. unfold try_finally. specialize (Hb s).
  destruct (body s) as [[a | e |] s1]; simpl in *; try congruence;
    specialize (Hf s1); destruct (final s1) as [[u | e' |] s2]; simpl in *;
    congruence.
Qed.

Lemma total_for_range_from (body : nat -> M St unit) :
  (forall k, total (body k)) -> forall n i, total (for_range_from i n body).
Proof.
  intros Hb n; induction n as [| n IH]; intros i; simpl.
  - apply total_ret.
  - apply total_bind; [apply Hb | intros; apply IH].
Qed.

Lemma total_for_range (n : nat) (body : nat -> M St unit) :
  (forall k, total (body k)) -> total (for_range n body).
Proof. intros; apply total_for_range_from; assumption. Qed.

Lemma total_attempts_from (body : M St unit)
  (handler : nat -> exn -> M St unit) :
  total body -> (forall a e, total (handler a e)) ->
  forall n a, total (attempts_from a n body handler).
Proof.
  intros Hb Hh n; induction n as [| n IH]; intros a; simpl.
  - apply total_ret.
  - apply total_bind.
    + apply total_try_except.
      * apply total_bind; [exact Hb | intros; apply total_ret].
      * intros e. apply total_bind; [apply Hh | intros; apply total_ret].
    + intros [|]; [apply total_ret | apply IH].
Qed.

Lemma total_attempts (n : nat) (body : M St unit)
  (handler : nat -> exn -> M St unit) :
  total body -> (forall a e, total (handler a e)) ->
  total (attempts n body handler).
Proof. intros; apply total_attempts_from; assumption. Qed.

Lemma succeeds_ret (A : Type) (a : A) : succeeds (@ret St A a).
Proof. intros s; exists a; reflexivity. Qed.

Lemma succeeds_gets (A : Type) (f : St -> A) : succeeds (gets f).
Proof. intros s; exists (f s); reflexivity. Qed.

Lemma succeeds_modify (f : St -> St) : succeeds (modify f).
Proof. intros s; exists tt; reflexivity. Qed.

Lemma succeeds_bind (A C : Type) (m : M St A) (k : A -> M St C) :
  succeeds m -> (forall a, succeeds (k a)) -> succeeds (bind m k).
Proof.
  intros Hm Hk s. unfold bind. destruct (Hm s) as [a Ha].
  destruct (m s) as [[a' | e |] s1]; simpl in *; try discriminate.
  apply Hk.
Qed.

Lemma succeeds_for_range_from (body : nat -> M St unit) :
  (forall k, succeeds (body k)) ->
  forall n i, succeeds (for_range_from i n body).
Proof.
  intros Hb n; induction n as [| n IH]; intros i; simpl.
  - apply succeeds_ret.
  - apply succeeds_bind; [apply Hb | intros; apply IH].
Qed.

Lemma succeeds_for_range (n : nat) (body : nat -> M St unit) :
  (forall k, succeeds (body k)) -> succeeds (for_range n body).
Proof. intros; apply succeeds_for_range_from; assumption. Qed.

(** A retry loop whose handler cannot fail always completes. *)
Lemma succeeds_attempts_from (body : M St unit)
  (handler : nat -> exn -> M St unit) :
  total body -> (forall a e, succeeds (handler a e)) ->
  forall n a, succeeds (attempts_from a n body handler).
Proof.
  intros Hb Hh n; induction n as [| n IH]; intros a; simpl.
  - apply succeeds_ret.
  - apply succeeds_bind.
    + intros s. unfold try_except, bind. specialize (Hb s).
      destruct (body s) as [[u | e |] s1]; simpl in *.
      * exists true; reflexivity.
      * destruct (Hh a e s1) as [u Hu].
        destruct (handler a e s1) as [[u' | e' |] s2]; simpl in *;
          try discriminate.
        exists false; reflexivity.
      * congruence.
    + intros [|]; [apply succeeds_ret | apply IH].
Qed.

Lemma succeeds_attempts (n : nat) (body : M St unit)
  (handler : nat -> exn -> M St unit) :
  total body -> (forall a e, succeeds (handler a e)) ->
  succeeds (attempts n body handler).
Proof. intros; apply succeeds_attempts_from; assumption. Qed.
End EndingRules.

Section ScriptEndings.
Variables driver_t elem_t W : Type.
Variable B : browser driver_t elem_t W.
Local Abbreviation St := (state driver_t elem_t W).

Lemma total_remote (R : Type) (c : call driver_t elem_t R) :
  total (remote B c).
Proof.
  intros s. unfold remote.
  destruct (handle B c (world s)) as [[e | v] w']; discriminate.
Qed.

Lemma total_read_var (A : Type) (name : string) (v : St -> option A) :
  total (read_var name v).
Proof. intros s. unfold read_var. destruct (v s); discriminate. Qed.

Lemma succeeds_time_sleep (ms : nat) : succeeds (time_sleep B ms).
Proof. apply succeeds_modify. Qed.

Lemma succeeds_print (line : string) :
  succeeds (@print driver_t elem_t W line).
Proof. apply succeeds_modify. Qed.

Lemma total_find_text (xpath : string) : total (find_text B xpath).
Proof.
  unfold find_text.
  apply total_bind; [apply total_read_var | intros d].
  apply total_bind; [apply total_remote | intros e; apply total_remote].
Qed.

(** A field read always gives a value: the text or the sentinel. *)
Lemma succeeds_get_text_loop (retries delay : nat) (xpath : string) :
  succeeds (get_text_loop B retries delay xpath).
Proof.
  induction retries as [| n IH]; simpl.
  - apply succeeds_ret.
  - apply succeeds_bind.
    + intros s. unfold try_except, bind.
      pose proof (@total_find_text xpath s) as Ht.
      destruct (find_text B xpath s) as [[t | e |] s1]; simpl in *.
      * eexists; reflexivity.
      * eexists; reflexivity.
      * congruence.
    + intros [t |]; [apply succeeds_ret | exact IH].
Qed.

Lemma succeeds_get_text (xpath : string) : succeeds (get_text B xpath).
Proof. apply succeeds_get_text_loop. Qed.

Lemma succeeds_first_text (xpaths : list string) :
  succeeds (first_text B xpaths).
Proof.
  induction xpaths as [| x xs IH]; simpl.
  - apply succeeds_ret.
  - apply succeeds_bind.
    + intros s. unfold try_except, bind.
      pose proof (@total_find_text x s) as Ht.
      destruct (find_text B x s) as [[t | e |] s1]; simpl in *.
      * eexists; reflexivity.
      * eexists; reflexivity.
      * congruence.
    + intros [t |]; [apply succeeds_ret | exact IH].
Qed.

Lemma succeeds_by_data_field_loop (retries delay : nat)
  (xpaths : list string) :
  succeeds (by_data_field_loop B retries delay xpaths).
Proof.
  induction retries as [| n IH]; simpl.
  - apply succeeds_ret.
  - apply succeeds_bind; [apply succeeds_first_text |].
    intros [t |]; [apply succeeds_ret |].
    apply succeeds_bind; [apply succeeds_time_sleep | intros; exact IH].
Qed.

Lemma succeeds_get_text_by_data_field (row_index : option string)
  (field_name : string) :
  succeeds (get_text_by_data_field B row_index field_name).
Proof. apply succeeds_by_data_field_loop. Qed.

Lemma total_texts_of (options : list elem_t) : total (texts_of B options).
Proof.
  induction options as [| o os IH]; simpl.
  - apply total_ret.
  - apply total_bind; [apply total_remote | intros t].
    apply total_bind; [exact IH | intros; apply total_ret].
Qed.
End ScriptEndings.

Ltac total_go :=
  lazymatch goal with
  | |- total (bind _ _) => apply total_bind; [total_go | intros; total_go]
  | |- total (ret _) => apply total_ret
  | |- total (raise _) => apply total_raise
  | |- total (gets _) => apply total_gets
  | |- total (modify _) => apply total_modify
  | |- total (lift_exn _) => apply total_lift_exn
  | |- total (read_var _ _) => apply total_read_var
  | |- total (remote _ _) => apply total_remote
  | |- total (time_sleep _ _) => apply succeeds_total, succeeds_time_sleep
  | |- total (print _) => apply succeeds_total, succeeds_print
  | |- total (try_except _ _) =>
      apply total_try_except; [total_go | intros; total_go]
  | |- total (try_finally _ _) =>
      apply total_try_finally; [total_go | total_go]
  | |- total (for_range _ _) => apply total_for_range; intros; total_go
  | |- total (attempts _ _ _) =>
      apply total_attempts; [total_go | intros; total_go]
  | |- total (get_text _ _) => apply succeeds_total, succeeds_get_text
  | |- total (get_text_by_data_field _ _ _) =>
      apply succeeds_total, succeeds_get_text_by_data_field
  | |- total (texts_of _ _) => apply total_texts_of
  | |- total (if ?b then _ else _) => destruct b; total_go
  | |- total (match ?x with _ => _ end) => destruct x; total_go
  | |- total ?m => let h := head_of m in unfold h; total_go
  end.

Ltac succeeds_go :=
  lazymatch goal with
  | |- succeeds (bind _ _) =>
      apply succeeds_bind; [succeeds_go | intros; succeeds_go]
  | |- succeeds (ret _) => apply succeeds_ret
  | |- succeeds (gets _) => apply succeeds_gets
  | |- succeeds (modify _) => apply succeeds_modify
  | |- succeeds (time_sleep _ _) => apply succeeds_time_sleep
  | |- succeeds (print _) => apply succeeds_print
  | |- succeeds (for_range _ _) =>
      apply succeeds_for_range; intros; succeeds_go
  | |- succeeds (attempts _ _ _) =>
      apply succeeds_attempts; [total_go | intros; succeeds_go]
  | |- succeeds (get_text _ _) => apply succeeds_get_text
  | |- succeeds (get_text_by_data_field _ _ _) =>
      apply succeeds_get_text_by_data_field
  | |- succeeds (if ?b then _ else _) => destruct b; succeeds_go
  | |- succeeds ?m => let h := head_of m in unfold h; succeeds_go
  end.

Section ScriptSucceeds.
Variables driver_t elem_t W : Type.
Variable B : browser driver_t elem_t W.

Lemma process_row_succeeds (race_name : string) (i k : nat) :
  succeeds (process_row B race_name i k).
Proof. succeeds_go. Qed.

Lemma next_page_succeeds : succeeds (next_page B).
Proof. succeeds_go. Qed.

Lemma restart_if_due_succeeds (race_url : string) :
  succeeds (restart_if_due B race_url).
Proof. succeeds_go. Qed.

Lemma select_with_retries_succeeds (i : nat) :
  succeeds (select_with_retries B i).
Proof. succeeds_go. Qed.

Lemma set_rows_with_retries_succeeds : succeeds (set_rows_with_retries B).
Proof. succeeds_go. Qed.

Lemma process_page_total (race_name : string) (i : nat) :
  total (process_page B race_name i).
Proof. total_go. Qed.
End ScriptSucceeds.

(** ** C5: how many sessions a race opens *)
Section Recycling.
Variables driver_t elem_t W : Type.
Variable B : browser driver_t elem_t W.
Local Abbreviation St := (state driver_t elem_t W).

Lemma since_refl (s : St) : since s s.
Proof. unfold since. auto. Qed.

Ltac count_leaf :=
  stands_intro;
  unfold since, opens, failed_restarts, count_events, driver_bound in *;
  simpl in *;
  repeat match goal with
         | |- context [match ?a with inl _ => _ | inr _ => _ end] =>
             destruct a; simpl in *
         end;
  intuition (try lia; try discriminate).

Lemma select_since (i : nat) (s0 : St) :
  inv (since s0) (select_with_retries B i).
Proof. inv_go fail count_leaf. Qed.

Lemma table_since (fuel : nat) (race_name : string) (i : nat) (s0 : St) :
  inv (since s0) (set_rows_with_retries B ;; page_loop B fuel race_name i).
Proof. inv_go fail count_leaf. Qed.

Lemma save_since (race_name : string) (s0 : St) :
  inv (since s0) (save_results (driver_t := driver_t) (elem_t := elem_t)
                    (W := W) race_name).
Proof. inv_go fail count_leaf. Qed.

Lemma quit_since (s0 : St) : inv (since s0) (quit_driver B).
Proof. inv_go fail count_leaf. Qed.

Lemma restart_driver_spec (race_url : string) (s : St) :
  driver_bound s ->
  restarted s (fst (restart_driver B race_url s))
            (snd (restart_driver B race_url s)).
Proof.
  intros Hd.
  unfold restart_driver, bind, read_var, remote, modify, time_sleep.
  destruct (driver s) as [d |] eqn:Ed; [| contradiction].
  repeat (match goal with
          | |- context [handle B ?c ?w] =>
              destruct (handle B c w) as [[? | ?] ?]
          end; simpl);
    unfold restarted, failed_restarts, opens, count_events, driver_bound;
    simpl; rewrite ?Ed;
    repeat split; try lia; try discriminate; try (intros; lia);
    try (intros ?; exfalso; lia).
Qed.

Lemma restart_attempts_spec (race_url : string)
  (handler : nat -> exn -> Run driver_t elem_t W unit) :
  (forall a e s0, inv (since s0) (handler a e)) ->
  forall n a s, driver_bound s ->
    forall s',
      s' = snd (attempts_from a n (restart_driver B race_url) handler s) ->
      race_date_counter s' = race_date_counter s
      /\ failed_restarts s <= failed_restarts s'
      /\ driver_bound s'
      /\ (failed_restarts s' = failed_restarts s -> 0 < n ->
          opens s' = opens s + 1).
Proof.
  intros Hh n; induction n as [| n IH]; intros a s Hd s' Hs'; simpl in Hs'.
  - subst s'. (split; [| split; [| split]]); auto. intros _ H; inversion H.
  - pose proof (@restart_driver_spec race_url s Hd) as (Hc & Hf & Hb & Hok).
    unfold bind at 1 in Hs'. unfold try_except, bind at 1 in Hs'.
    destruct (restart_driver B race_url s) as [[[] | e |] s1];
      simpl in Hs', Hc, Hf, Hb, Hok.
    + subst s'. (split; [| split; [| split]]); auto.
      intros HF _. apply Hok, HF.
    + pose proof (Hh a e s1 s1 (since_refl s1)) as (Hc2 & Ho2 & Hf2 & Hb2).
      assert (Hno : failed_restarts s' = failed_restarts s ->
                    failed_restarts s1 <= failed_restarts s' -> False).
      { intros HF Hle.
        assert (HF1 : failed_restarts s1 = failed_restarts s) by lia.
        destruct (Hok HF1) as [Habs _]. discriminate. }
      unfold bind at 1 in Hs'.
      destruct (handler a e s1) as [[[] | e' |] s2]; simpl in *.
      * specialize (IH (S a) s2 (Hb2 Hb) s' Hs').
        destruct IH as (Hc3 & Hf3 & Hb3 & _).
        (split; [| split; [| split]]); try lia; auto;
          try (intros HF _; exfalso; apply Hno; [exact HF | lia]).
      * subst s'. (split; [| split; [| split]]); try lia; auto;
          try (intros HF _; exfalso; apply Hno; [exact HF | lia]).
      * subst s'. (split; [| split; [| split]]); try lia; auto;
          try (intros HF _; exfalso; apply Hno; [exact HF | lia]).
    + subst s'. (split; [| split; [| split]]); auto. intros HF _.
      destruct (Hok HF) as [Habs _]. discriminate.
Qed.

(** The restart before a date: none while the date counter is 0. *)
Lemma restart_if_due_skipped (race_url : string) (s : St) :
  race_date_counter s = 0 -> restart_if_due B race_url s = (Ok tt, s).
Proof.
  intros H. unfold restart_if_due, bind, gets. rewrite H. reflexivity.
Qed.

Lemma restart_if_due_spec (race_url : string) (s : St) :
  driver_bound s ->
  forall s', s' = snd (restart_if_due B race_url s) ->
  race_date_counter s' = race_date_counter s
  /\ failed_restarts s <= failed_restarts s'
  /\ driver_bound s'
  /\ (failed_restarts s' = failed_restarts s ->
      opens s' = opens s + (if race_date_counter s =? 0 then 0 else 1)%nat).
Proof.
  intros Hd s' Hs'. destruct (race_date_counter s) as [| c] eqn:Ec.
  - rewrite restart_if_due_skipped in Hs' by exact Ec. subst s'. simpl.
    (split; [| split; [| split]]); auto.
  - unfold restart_if_due, bind at 1, gets in Hs'. rewrite Ec in Hs'.
    replace ((0 <? S c)%nat && (S c mod 1 =? 0)%nat) with true in Hs'
      by (rewrite Nat.mod_1_r; reflexivity).
    unfold bind at 1 in Hs'. unfold print at 1 in Hs'.
    unfold modify at 1 in Hs'. cbv beta iota in Hs'.
    unfold bind at 1 in Hs'.
    match type of Hs' with
    | context [attempts 10 ?body ?h ?s1] =>
        pose proof (@restart_attempts_spec race_url h) as Hspec;
        assert (Hh : forall a e s0, inv (since s0) (h a e));
        [ intros a e s0; inv_go fail count_leaf
        | specialize (Hspec Hh 10 0 s1 Hd _ eq_refl) ];
        unfold attempts in Hs';
        destruct (attempts_from 0 10 body h s1) as [[b | e |] s2]
    end; simpl in *; subst s';
      destruct Hspec as (Hc & Hf & Hb & Ho);
      (split; [| split; [| split]]); auto; try congruence;
      intros HF; apply Ho; solve [exact HF | lia].
Qed.

Lemma since_dated (s s' : St) : driver_bound s -> since s s' -> dated s s'.
Proof.
  intros Hd (Hc & Ho & Hf & Hb). unfold dated. rewrite Hc, Ho, Nat.sub_diag.
  (split; [| split; [| split]]); auto.
  intros _. rewrite andb_false_r. lia.
Qed.

Lemma dated_since (a b c : St) : dated a b -> since b c -> dated a c.
Proof.
  intros (Hc & Hf & Hb & Ho) (Hc' & Ho' & Hf' & Hb'). unfold dated.
  rewrite Hc', Ho'.
  (split; [| split; [| split]]); auto; try lia;
    try (intros HF; apply Ho; lia).
Qed.

Lemma since_then_dated (a b c : St) : since a b -> dated b c -> dated a c.
Proof.
  intros (Hc & Ho & Hf & Hb) (Hc' & Hf' & Hb' & Ho'). unfold dated.
  rewrite <- Hc, <- Ho.
  (split; [| split; [| split]]); auto; try lia;
    try (intros HF; apply Ho'; lia).
Qed.

Lemma inv_dated (A : Type) (m : Run driver_t elem_t W A) (s : St) :
  (forall s0, inv (since s0) m) -> inv (dated s) m.
Proof.
  intros H s1 H1. eapply dated_since; [exact H1 |].
  apply H, since_refl.
Qed.

Lemma process_date_counts (fuel : nat) (race_url race_name : string)
  (i : nat) (s : St) :
  race_date_counter (snd (process_date B fuel race_url race_name i s))
  = race_date_counter s + 1.
Proof.
  unfold process_date. unfold bind at 1.
  destruct (@restart_if_due_succeeds _ _ _ B race_url s) as [[] Ha].
  assert (H1 : inv (fun s' : St =>
                      race_date_counter s' = race_date_counter s)
                   (restart_if_due B race_url)).
  { inv_go fail frame_leaf. }
  specialize (H1 s eq_refl).
  destruct (restart_if_due B race_url s) as [r1 s1]. simpl in Ha, H1.
  subst r1. unfold bind at 1.
  destruct (@select_with_retries_succeeds _ _ _ B i s1) as [[] Hb].
  pose proof (@select_since i s1 s1 (since_refl s1)) as (H2 & _).
  destruct (select_with_retries B i s1) as [r2 s2]. simpl in Hb, H2.
  subst r2. unfold bind at 1. unfold modify at 1. cbv beta iota.
  match goal with
  | |- context [(?m ;; ?k) ?s3] =>
      pose proof (@table_since fuel race_name i s3 s3 (since_refl s3))
        as (H3 & _)
  end.
  eapply eq_trans; [exact H3 |]. simpl. lia.
Qed.

Lemma process_date_spec (fuel : nat) (race_url race_name : string)
  (i : nat) (s : St) :
  driver_bound s ->
  forall s', s' = snd (process_date B fuel race_url race_name i s) ->
  failed_restarts s <= failed_restarts s'
  /\ driver_bound s'
  /\ (failed_restarts s' = failed_restarts s ->
      opens s' = opens s + (if race_date_counter s =? 0 then 0 else 1)%nat).
Proof.
  intros Hd s' Hs'. unfold process_date in Hs'. unfold bind at 1 in Hs'.
  destruct (@restart_if_due_succeeds _ _ _ B race_url s) as [[] Ha].
  pose proof (@restart_if_due_spec race_url s Hd _ eq_refl)
    as (Hc1 & Hf1 & Hb1 & Ho1).
  destruct (restart_if_due B race_url s) as [r1 s1].
  simpl in Ha, Hc1, Hf1, Hb1, Ho1. subst r1. unfold bind at 1 in Hs'.
  destruct (@select_with_retries_succeeds _ _ _ B i s1) as [[] Hb].
  pose proof (@select_since i s1 s1 (since_refl s1)) as (Hc2 & Ho2 & Hf2 & Hb2).
  destruct (select_with_retries B i s1) as [r2 s2].
  simpl in Hb, Hc2, Ho2, Hf2, Hb2. subst r2.
  unfold bind at 1 in Hs'. unfold modify at 1 in Hs'. cbv beta iota in Hs'.
  match type of Hs' with
  | context [(?m ;; ?k) ?s3] =>
      pose proof (@table_since fuel race_name i s3 s3 (since_refl s3))
        as (Hc3 & Ho3 & Hf3 & Hb3)
  end.
  rewrite <- Hs' in Hc3, Ho3, Hf3, Hb3.
  unfold opens, failed_restarts, driver_bound in *. simpl in *.
  (split; [| split]); auto; try lia;
    try (intros HF; rewrite Ho3, Ho2; apply Ho1; lia).
Qed.

Lemma dates_spec (fuel : nat) (race_url race_name : string) :
  forall n i s, driver_bound s ->
    dated s (snd (for_range_from i n
                    (process_date B fuel race_url race_name) s)).
Proof.
  intros n; induction n as [| n IH]; intros i s Hd; simpl.
  - apply since_dated; [exact Hd | apply since_refl].
  - unfold bind.
    pose proof (@process_date_counts fuel race_url race_name i s) as Hc.
    pose proof (@process_date_spec fuel race_url race_name i s Hd _ eq_refl)
      as (Hf & Hb & Ho).
    destruct (process_date B fuel race_url race_name i s) as [[[] | e |] s1];
      simpl in Hc, Hf, Hb, Ho |- *.
    + specialize (IH (S i) s1 Hb). destruct IH as (Hc' & Hf' & Hb' & Ho').
      unfold dated. (split; [| split; [| split]]); auto; try lia.
      intros HF.
      assert (HF1 : failed_restarts s1 = failed_restarts s) by lia.
      specialize (Ho HF1).
      assert (HF2 : failed_restarts
                      (snd (for_range_from (S i) n
                              (process_date B fuel race_url race_name) s1))
                    = failed_restarts s1) by lia.
      specialize (Ho' HF2). rewrite Hc in Ho'.
      replace (race_date_counter s + 1 =? 0)%nat with false in Ho'
        by (symmetry; apply Nat.eqb_neq; lia).
      simpl in Ho'.
      destruct (race_date_counter s =? 0)%nat eqn:E0.
      * replace (0 <? _)%nat with true
          by (symmetry; apply Nat.ltb_lt; lia).
        simpl. lia.
      * simpl. lia.
    + unfold dated. rewrite Hc.
      (split; [| split; [| split]]); auto; try lia.
      intros HF. rewrite (Ho HF).
      replace (race_date_counter s + 1 - race_date_counter s) with 1 by lia.
      destruct (race_date_counter s =? 0)%nat; simpl; lia.
    + unfold dated. rewrite Hc.
      (split; [| split; [| split]]); auto; try lia.
      intros HF. rewrite (Ho HF).
      replace (race_date_counter s + 1 - race_date_counter s) with 1 by lia.
      destruct (race_date_counter s =? 0)%nat; simpl; lia.
Qed.
Lemma collect_dates_dated (fuel : nat) (race_url race_name : string) (s : St) :
  driver_bound s ->
  hoare (since s) (collect_dates B fuel race_url race_name) (dated s).
Proof.
  intros Hd. unfold collect_dates.
  repeat (apply hoare_bind with (P' := since s);
          [ apply hoare_inv; inv_go fail count_leaf
          | intros ?
          | intros ? ?; apply since_dated; assumption ]).
  intros s1 H1. eapply since_then_dated; [exact H1 |].
  apply dates_spec. apply H1, Hd.
Qed.

Lemma guarded_race_dated (fuel : nat) (race_url race_name : string) (s : St) :
  driver_bound s ->
  dated s (snd (guarded_race B fuel race_url race_name s)).
Proof.
  intros Hd.
  assert (H : hoare (since s) (guarded_race B fuel race_url race_name)
                    (dated s)).
  { unfold guarded_race.
    apply hoare_try_finally with (P' := dated s);
      [| apply hoare_inv, inv_dated; intros s0; apply quit_since | auto].
    apply hoare_try_except with (P' := dated s);
      [| intros e; apply hoare_inv, inv_dated; intros s0;
         inv_go fail count_leaf
       | auto].
    unfold scrape_race.
    apply hoare_bind with (P' := dated s);
      [apply collect_dates_dated, Hd | intros _ | auto].
    apply hoare_inv, inv_dated. intros s0. apply save_since. }
  apply H, since_refl.
Qed.

Lemma start_driver_spec (race_url : string) (s : St) :
  race_date_counter (snd (start_driver B race_url s)) = race_date_counter s
  /\ opens (snd (start_driver B race_url s)) = opens s + 1
  /\ failed_restarts s <= failed_restarts (snd (start_driver B race_url s))
  /\ (failed_restarts (snd (start_driver B race_url s)) = failed_restarts s ->
      fst (start_driver B race_url s) = Ok tt
      /\ driver_bound (snd (start_driver B race_url s))).
Proof.
  unfold start_driver, bind, remote, modify.
  repeat (match goal with
          | |- context [handle B ?c ?w] =>
              destruct (handle B c w) as [[? | ?] ?]
          end; simpl);
    repeat match goal with u : unit |- _ => destruct u end;
    unfold failed_restarts, opens, count_events, driver_bound; simpl;
    (split; [| split; [| split]]); try lia;
    try (intros ?; exfalso; lia);
    intros _; split; [reflexivity | discriminate].
Qed.

(** C5, as the script has it.  The restart before a date is skipped while
    the date counter, which is never reset, is 0; every date adds one to
    the counter, so that only the first date of the whole run goes without
    a restart.  When no call of a restart fails, a race opens one session
    at its start and one more for each of its dates, except for the date
    that found the counter at 0: with three dates, four opens, or three
    for the first race of the run. *)
Theorem C5_one_open_per_date_but_the_first_of_the_run :
  (forall (race_url : string) (s : St),
      race_date_counter s = 0 ->
      restart_if_due B race_url s = (Ok tt, s))
  /\ (forall (fuel : nat) (race_url race_name : string) (i : nat) (s : St),
         race_date_counter (snd (process_date B fuel race_url race_name i s))
         = race_date_counter s + 1)
  /\ (forall (fuel : nat) (target : RaceTarget) (s : St),
         let final := snd (process_race B fuel target s) in
         let dates := race_date_counter final - race_date_counter s in
         failed_restarts final = failed_restarts s ->
         opens final
         + (if (race_date_counter s =? 0)%nat && (0 <? dates)%nat
            then 1 else 0)
         = opens s + 1 + dates).
Proof.
  split; [| split].
  - apply restart_if_due_skipped.
  - apply process_date_counts.
  - intros fuel target s final dates. subst dates.
    assert (Hfin : final = snd (process_race B fuel target s)) by reflexivity.
    clearbody final. intros HF.
    unfold process_race in Hfin.
    unfold bind at 1 in Hfin. unfold print at 1, modify at 1 in Hfin.
    cbv beta iota zeta in Hfin.
    unfold bind at 1 in Hfin. unfold modify at 1 in Hfin.
    cbv beta iota in Hfin. unfold bind at 1 in Hfin.
    match type of Hfin with
    | context [start_driver B ?u ?s0] =>
        set (st0 := s0) in *;
        assert (E0 : failed_restarts st0 = failed_restarts s
                     /\ opens st0 = opens s
                     /\ race_date_counter st0 = race_date_counter s)
          by (repeat split; reflexivity);
        clearbody st0;
        destruct E0 as (EF & EO & EC);
        pose proof (@start_driver_spec u st0) as (Hc & Ho & Hf & Hok);
        destruct (start_driver B u st0) as [[[] | e |] s1]
    end; simpl in Hc, Ho, Hf, Hok, Hfin.
    + assert (Hinv : inv (fun s2 : St =>
                            failed_restarts s1 <= failed_restarts s2)
                         (guarded_race B fuel (URL target)
                            (Race_Name target))).
      { inv_go fail count_leaf. }
      specialize (Hinv s1 (Nat.le_refl _)). cbv beta in Hinv.
      rewrite <- Hfin in Hinv.
      assert (HF1 : failed_restarts s1 = failed_restarts st0) by lia.
      destruct (Hok HF1) as [_ Hb].
      destruct (@guarded_race_dated fuel (URL target) (Race_Name target) s1 Hb)
        as (Hc' & Hf' & Hb' & Ho').
      rewrite <- Hfin in Hc', Hf', Hb', Ho'.
      assert (HF2 : failed_restarts final = failed_restarts s1) by lia.
      specialize (Ho' HF2). rewrite Hc, EC in Ho'. rewrite Ho, EO in Ho'.
      match goal with
      | |- context [if ?b then _ else _] => destruct b
      end; lia.
    + exfalso. subst final. rewrite <- EF in HF.
      destruct (Hok HF) as [Habs _]. discriminate.
    + exfalso. subst final. rewrite <- EF in HF.
      destruct (Hok HF) as [Habs _]. discriminate.
Qed.
End Recycling.




(** C5 at work: the race with three dates, processed after another race. *)
Lemma C5_witness_second_race :
  let start :=
    initial_state nat Fixture.element
      (Fixture.new_web [Scenarios.one_row; Scenarios.three_dates] 0 None) in
  let s1 :=
    snd (process_race Fixture.chrome Scenarios.fuel
           (Scenarios.target_of "im-eta") start) in
  let final :=
    snd (process_race Fixture.chrome Scenarios.fuel
           (Scenarios.target_of "im-gamma") s1) in
  (race_date_counter start = 0
   /\ restart_if_due Fixture.chrome "https://www.ironman.com/im-eta-results"
        start = (Ok tt, start))
  /\ (failed_restarts final = failed_restarts s1
      /\ opens final
         + (if (race_date_counter s1 =? 0)%nat
               && (0 <? race_date_counter final - race_date_counter s1)%nat
            then 1 else 0)
         = opens s1 + 1 + (race_date_counter final - race_date_counter s1))
  /\ race_date_counter final - race_date_counter s1 = 3
  /\ opens final = opens s1 + 4.
Proof.
  intros start s1 final.
  split; [| split; [| split]].
  - split; [reflexivity |].
    apply (proj1 (@C5_one_open_per_date_but_the_first_of_the_run
                    nat Fixture.element Fixture.web Fixture.chrome)).
    reflexivity.
  - split; [vm_compute; reflexivity |].
    apply (proj2 (proj2 (@C5_one_open_per_date_but_the_first_of_the_run
                           nat Fixture.element Fixture.web Fixture.chrome))
             Scenarios.fuel (Scenarios.target_of "im-gamma") s1).
    vm_compute. reflexivity.
  - vm_compute. reflexivity.
  - vm_compute. reflexivity.
Defined.

(** C5 fails as stated.  The race with three dates is the first of the run:
    no call fails, three dates are processed, and three sessions are opened,
    the initial one included. *)
Lemma C5_first_race_opens_three :
  let final := snd Scenarios.run_three_dates_first in
  fst Scenarios.run_three_dates_first = Ok tt
  /\ failed_restarts final = 0
  /\ race_date_counter final = 3
  /\ opens final = 3.
Proof. vm_compute. repeat split. Qed.

(** ** C6: when the page loop goes on and when it stops *)
Section Pagination.
Variables driver_t elem_t W : Type.
Variable B : browser driver_t elem_t W.
Local Abbreviation St := (state driver_t elem_t W).

Ltac page_leaf :=
  stands_intro; unfold stayed, transitions, count_events in *; simpl in *;
  repeat match goal with
         | |- context [match ?a with inl _ => _ | inr _ => _ end] =>
             destruct a; simpl in *
         end;
  intuition (try lia; try congruence).

Lemma next_page_attempt_spec (s s' : St) (r : result unit) :
  next_page_attempt B s = (r, s') ->
  match r with
  | Ok _ => stepped s s'
  | Raise _ => stayed s s'
  | Diverge => False
  end.
Proof.
  unfold next_page_attempt, bind, read_var, remote, modify, lift_exn, raise,
    ret.
  destruct (driver s) as [d |]; simpl;
    [| intros H; inversion H; subst; split; reflexivity].
  repeat (match goal with
          | |- context [handle B ?c ?w] =>
              destruct (handle B c w) as [[? | ?] ?]
          | |- context [match ?o with Some _ => _ | None => _ end] =>
              destruct o
          | |- context [if ?b then _ else _] => destruct b
          | |- context [py_index ?l ?n] => destruct (py_index l n)
          end; simpl);
    intros H; inversion H; subst;
    unfold stepped, stayed, transitions, count_events; simpl;
    try (split; reflexivity);
    try (left; split; reflexivity);
    try (right; split; reflexivity).
Qed.

Lemma next_page_attempts_spec
  (handler : nat -> exn -> Run driver_t elem_t W unit) :
  (forall a e s0, inv (stayed s0) (handler a e)) ->
  (forall a e, succeeds (handler a e)) ->
  forall n a s r s',
    attempts_from a n (next_page_attempt B) handler s = (r, s') ->
    match r with
    | Ok true => stepped s s'
    | Ok false => stayed s s'
    | _ => False
    end.
Proof.
  intros Hh Hs n; induction n as [| n IH]; intros a s r s' E; simpl in E.
  - inversion E; subst. split; reflexivity.
  - unfold bind at 1 in E. unfold try_except, bind at 1 in E.
    destruct (next_page_attempt B s) as [[[] | e |] s1] eqn:E1;
      apply next_page_attempt_spec in E1; simpl in E.
    + inversion E; subst. exact E1.
    + pose proof (Hh a e s1 s1 (conj eq_refl eq_refl)) as Hst.
      destruct (Hs a e s1) as [[] Hok].
      unfold bind at 1 in E.
      destruct (handler a e s1) as [r2 s2]; simpl in Hok, Hst. subst r2.
      simpl in E. apply IH in E.
      destruct E1 as [Hp Ht]. destruct Hst as [Hp2 Ht2].
      destruct r as [[|] | e' |]; try contradiction.
      * unfold stepped in *. rewrite Hp2, Hp, Ht2, Ht in E. exact E.
      * unfold stayed in *. rewrite Hp2, Hp, Ht2, Ht in E. exact E.
    + contradiction.
Qed.

Lemma next_page_spec (s s' : St) (r : result unit) :
  next_page B s = (r, s') -> r = Ok tt /\ stepped s s'.
Proof.
  unfold next_page. change ENABLE_PAGINATION with true. cbv iota.
  unfold bind at 1. unfold attempts. intros E.
  match type of E with
  | context [attempts_from 0 5 _ ?h s] =>
      pose proof (@next_page_attempts_spec h) as Hspec;
      assert (H1 : forall a e s0, inv (stayed s0) (h a e))
        by (intros; inv_go fail page_leaf);
      assert (H2 : forall a e, succeeds (h a e)) by (intros; succeeds_go);
      specialize (Hspec H1 H2 5 0 s);
      destruct (attempts_from 0 5 (next_page_attempt B) h s)
        as [[[|] | e |] s1]
  end; specialize (Hspec _ _ eq_refl); simpl in Hspec; try contradiction;
    simpl in E; inversion E; subst.
  - split; [reflexivity | exact Hspec].
  - split; [reflexivity |]. left. destruct Hspec as [_ Ht].
    unfold transitions in *. simpl. auto.
Qed.

Lemma rows_stay (race_name : string) (i n : nat) (s0 : St) :
  inv (stayed s0) (for_range n (process_row B race_name i)).
Proof. inv_go fail page_leaf. Qed.

Lemma stayed_refl (s : St) : stayed s s.
Proof. split; reflexivity. Qed.

(** One page: it always ends; when it completes, the loop goes on exactly
    when one more transition was confirmed. *)
Lemma process_page_spec (race_name : string) (i : nat) (s s' : St)
  (r : result unit) :
  process_page B race_name i s = (r, s') ->
  match r with
  | Ok _ => stepped s s'
  | Raise _ => stayed s s'
  | Diverge => False
  end.
Proof.
  unfold process_page. intros E.
  unfold bind at 1 in E. unfold read_var at 1 in E.
  destruct (driver s) as [d |]; simpl in E;
    [| inversion E; subst; apply stayed_refl].
  unfold bind at 1 in E. unfold remote at 1 in E.
  destruct (handle B (WaitPresenceAll d 10 row_locator) (world s))
    as [[e | rs] w]; simpl in E.
  { inversion E; subst. unfold stayed, transitions, count_events. simpl. auto. }
  unfold bind at 1 in E. unfold modify at 1 in E. cbv beta iota in E.
  unfold bind at 1 in E. unfold print at 1, modify at 1 in E.
  cbv beta iota in E.
  match type of E with
  | context [bind (for_range ?n ?body) ?k ?s1] =>
      assert (Hs1 : stayed s s1)
        by (unfold stayed, transitions, count_events; simpl; auto);
      set (st1 := s1) in *; clearbody st1;
      pose proof (@rows_stay race_name i n st1 st1 (stayed_refl st1))
        as Hrows;
      assert (Hok : exists u, fst (for_range n body st1) = Ok u)
        by (apply succeeds_for_range; intros; apply process_row_succeeds)
  end.
  unfold bind at 1 in E.
  destruct Hok as [[] Hok].
  destruct (for_range (List.length rs) (process_row B race_name i) st1)
    as [r2 s2]; simpl in Hok, Hrows. subst r2. cbv beta iota in E.
  unfold bind at 1 in E.
  destruct (next_page B s2) as [r3 s3] eqn:E3.
  apply next_page_spec in E3 as [-> Hstep].
  simpl in E. inversion E; subst.
  destruct Hs1 as [Hp1 Ht1]. destruct Hrows as [Hp2 Ht2].
  unfold stepped, transitions in *. simpl.
  rewrite Hp2, Hp1, Ht2, Ht1 in Hstep. exact Hstep.
Qed.
Lemma page_while_spec (race_name : string) (i : nat) :
  forall fuel s r s',
    while_loop fuel (@pagination_active _ _ _) (process_page B race_name i) s
    = (r, s') ->
    r = Diverge -> transitions s' = transitions s + fuel.
Proof.
  intros fuel; induction fuel as [| fuel IH]; intros s r s' E HD; simpl in E.
  - destruct (pagination_active s); inversion E; subst; [lia | discriminate].
  - destruct (pagination_active s) eqn:Hp;
      [| inversion E; subst; discriminate].
    unfold bind in E.
    destruct (process_page B race_name i s) as [[[] | e |] s1] eqn:E1;
      apply process_page_spec in E1.
    + destruct E1 as [[Hp1 Ht1] | [Hp1 Ht1]].
      * destruct fuel; simpl in E; rewrite Hp1 in E; inversion E; subst;
          discriminate.
      * specialize (IH _ _ _ E HD). lia.
    + inversion E; subst. discriminate.
    + contradiction.
Qed.

End Pagination.



(** One page of the endless table: the script clicks on, the table turns to
    its other page, the loop goes on. *)
Lemma endless_page (s : state nat Fixture.element Fixture.web) :
  Scenarios.in_endless_table s ->
  fst (process_page Fixture.chrome "im-theta" 0 s) = Ok tt
  /\ Scenarios.in_endless_table
       (snd (process_page Fixture.chrome "im-theta" 0 s)).
Proof.
  destruct s as [w out fl c dt rr dr rw pa tr pn pv].
  unfold Scenarios.in_endless_table. simpl.
  intros (Hw & Hd & Ht & Hp). subst dr pa.
  destruct dt as [t |]; [clear Ht | contradiction].
  destruct Hw as [-> | ->]; vm_compute;
    (split; [reflexivity |]);
    (split; [| split; [reflexivity | split; [discriminate | reflexivity]]]);
    [right | left]; reflexivity.
Qed.

Lemma endless_loop (fuel : nat) (s : state nat Fixture.element Fixture.web) :
  Scenarios.in_endless_table s ->
  fst (while_loop fuel (@pagination_active _ _ _)
         (process_page Fixture.chrome "im-theta" 0) s) = Diverge.
Proof.
  revert s; induction fuel as [| fuel IH]; intros s H; simpl.
  - destruct H as (_ & _ & _ & ->). reflexivity.
  - destruct (endless_page H) as [Hok Hnext].
    destruct H as (_ & _ & _ & ->).
    unfold bind.
    destruct (process_page Fixture.chrome "im-theta" 0 s) as [r s1].
    simpl in Hok, Hnext. subst r. apply IH, Hnext.
Qed.


(** ** C10: the date label *)
Section DateLabel.
Variables driver_t elem_t W : Type.
Variable B : browser driver_t elem_t W.
Local Abbreviation St := (state driver_t elem_t W).
Local Abbreviation Event := (event driver_t elem_t).

Lemma events_since_app (s s' : St) (events : list Event) :
  trace s' = (events ++ trace s)%list -> events_since s s' = events.
Proof.
  intros H. unfold events_since. rewrite H, length_app, Nat.add_sub.
  rewrite firstn_app, Nat.sub_diag, firstn_all. simpl.
  apply app_nil_r.
Qed.

Lemma latest_text_app (e1 e2 : list Event) (label : option string) :
  label_after (e2 ++ e1) label = label_after e2 (label_after e1 label).
Proof.
  unfold label_after. induction e2 as [| ev e2 IH]; simpl.
  - destruct (latest_text e1); reflexivity.
  - destruct (text_read ev); [reflexivity | exact IH].
Qed.

Lemma labelled_refl (s : St) : labelled s s.
Proof. exists []. split; reflexivity. Qed.

Ltac label_leaf :=
  stands_intro; unfold labelled in *; simpl in *;
  match goal with
  | H : exists _, _ |- _ => destruct H as (? & ? & ?)
  end;
  match goal with
  | Ht : trace _ = (?evs ++ _)%list, Hl : race_date_text _ = _ |- _ =>
      first
        [ exists evs; split; assumption
        | match goal with
          | |- exists _, ?ev :: _ = _ /\ _ =>
              exists (ev :: evs); split;
              [ rewrite Ht; reflexivity
              | unfold label_after in *; simpl;
                repeat match goal with
                       | |- context [match ?a with
                                     | inl _ => _
                                     | inr _ => _
                                     end] => destruct a; simpl
                       end; assumption ]
          end ]
  end.

(** Reading the text of the option and assigning it (lines 162-163). *)
Lemma read_and_assign (A : Type) (s0 : St) (e : elem_t)
  (k : string -> Run driver_t elem_t W A) :
  (forall text, inv (labelled s0) (k text)) ->
  inv (labelled s0)
      (text <- remote B (GetText e) ;;
       modify (set_race_date_text (Some text)) ;; k text).
Proof.
  intros Hk s (events & Ht & Hl). unfold bind at 1. unfold remote.
  destruct (handle B (GetText e) (world s)) as [[e' | text] w]; simpl.
  - exists (Ev (GetText e) (inl e') :: events). split.
    + rewrite Ht. reflexivity.
    + exact Hl.
  - unfold bind at 1. unfold modify at 1. cbv beta iota. apply Hk.
    exists (Ev (GetText e) (inr text) :: events). split.
    + simpl. rewrite Ht. reflexivity.
    + reflexivity.
Qed.

Lemma select_labelled (i : nat) (s0 : St) :
  inv (labelled s0) (select_with_retries B i).
Proof.
  inv_go ltac:(apply read_and_assign; intros; inv_go fail label_leaf)
         label_leaf.
Qed.

Lemma build_record_date (race_name designation : string)
  (row_index : option string) (s s' : St) (record : dict) :
  build_record B race_name designation row_index s = (Ok record, s') ->
  carries (race_date_text s) record.
Proof.
  unfold build_record, carries.
  destruct ((designation =? "DNS") || (designation =? "DQ"));
    [| destruct (designation =? "DNF")];
    intros H;
    [unfold record_base_only in H | unfold record_dnf in H
     | unfold record_finisher in H];
    apply bind_Ok in H as (t & s1 & Ht & H);
    unfold read_var in Ht;
    (destruct (race_date_text s) as [t' |]; [| discriminate]);
    inversion Ht; subst;
    invert_binds H; subst record; exists t; split; reflexivity.
Qed.

Ltac rows_leaf :=
  stands_intro; unfold dated_rows in *; simpl in *;
  first
    [ assumption
    | match goal with
      | H : _ /\ exists _, _ |- _ =>
          let Hl := fresh "Hl" in
          let Hr := fresh "Hr" in
          let Hf := fresh "Hf" in
          destruct H as (Hl & ? & Hr & Hf); split; [exact Hl |];
          eexists; split;
          [ rewrite Hr, <- app_assoc; reflexivity
          | apply Forall_app; split;
            [exact Hf | constructor; [assumption | constructor]] ]
      end ].

Lemma table_dated_rows (fuel : nat) (race_name : string) (i : nat)
  (label : option string) (results : list dict) :
  inv (dated_rows label results)
      (set_rows_with_retries B ;; page_loop B fuel race_name i).
Proof.
  inv_go
    ltac:(eapply inv_bind_value with (P := carries label);
          [ let Hl := fresh "Hl" in
            let Hb := fresh "Hb" in
            intros ? ? ? (Hl & _) Hb; rewrite <- Hl;
            eapply build_record_date; exact Hb
          | inv_go fail rows_leaf
          | intros record Hrecord; inv_go fail rows_leaf ])
    rows_leaf.
Qed.
Lemma carries_nothing (rest : list dict) : Forall (carries None) rest -> rest = [].
Proof.
  destruct rest as [| r rest]; [reflexivity |].
  intros H. inversion H as [| ? ? (t & Habs & _) _]. discriminate.
Qed.

Lemma process_date_label (fuel : nat) (race_url race_name : string) (i : nat)
  (s : St) :
  let s1 := snd (restart_if_due B race_url s) in
  let s2 := snd (select_with_retries B i s1) in
  let s' := snd (process_date B fuel race_url race_name i s) in
  race_date_text s1 = race_date_text s
  /\ race_date_text s' = race_date_text s2
  /\ exists rest,
       race_results s' = (race_results s ++ rest)%list
       /\ Forall (carries (race_date_text s2)) rest.
Proof.
  intros s1 s2 s'.
  assert (Hs' : s' = snd (process_date B fuel race_url race_name i s))
    by reflexivity.
  assert (Hs2 : s2 = snd (select_with_retries B i s1)) by reflexivity.
  assert (Hs1 : s1 = snd (restart_if_due B race_url s)) by reflexivity.
  clearbody s' s2 s1.
  assert (H1 : inv (fun x : St => race_date_text x = race_date_text s
                                  /\ race_results x = race_results s)
                   (restart_if_due B race_url)).
  { inv_go fail frame_leaf. }
  specialize (H1 s (conj eq_refl eq_refl)). rewrite <- Hs1 in H1.
  destruct H1 as [Hl1 Hr1].
  assert (H2 : inv (fun x : St => race_results x = race_results s)
                   (select_with_retries B i)).
  { inv_go fail frame_leaf. }
  specialize (H2 s1 Hr1). rewrite <- Hs2 in H2.
  unfold process_date in Hs'. unfold bind at 1 in Hs'.
  destruct (@restart_if_due_succeeds _ _ _ B race_url s) as [[] Ha].
  destruct (restart_if_due B race_url s) as [r1 x1].
  simpl in Ha, Hs1. subst r1 x1. unfold bind at 1 in Hs'.
  destruct (@select_with_retries_succeeds _ _ _ B i s1) as [[] Hb].
  destruct (select_with_retries B i s1) as [r2 x2].
  simpl in Hb, Hs2. subst r2 x2.
  unfold bind at 1 in Hs'. unfold modify at 1 in Hs'. cbv beta iota in Hs'.
  match type of Hs' with
  | context [(?m ;; ?k) ?s3] =>
      pose proof (@table_dated_rows fuel race_name i (race_date_text s2)
                    (race_results s) s3) as H3
  end.
  rewrite <- Hs' in H3.
  destruct H3 as (Hl3 & rest & Hr3 & Hf3).
  { split; [reflexivity |]. exists []. split; [| constructor].
    simpl. rewrite app_nil_r. exact H2. }
  split; [exact Hl1 | split; [exact Hl3 |]].
  exists rest. split; assumption.
Qed.

Lemma label_stays_bound (fuel : nat) (target : RaceTarget) :
  inv (fun s : St => race_date_text s <> None) (process_race B fuel target).
Proof. inv_go fail ltac:(frame_leaf; try discriminate). Qed.

(** C10, as the script has it.  The date label is the text last read from
    the option at the ordinal in the selection loop, assigned as soon as it
    is read: it follows the reads, not the success of the click.  The label
    left by the loop is the latest text read in it, or the label there was
    when no read succeeded.  The restart before the loop leaves the label
    alone, the rows of the date do not change it, and every record appended
    for the date carries it.  If no read has ever succeeded, the label is
    unbound and the date yields no record.  Once bound it stays bound, from
    race to race. *)
Theorem C10_label_follows_the_text_reads :
  (forall (i : nat) (s : St),
      let s' := snd (select_with_retries B i s) in
      race_date_text s' = label_after (events_since s s') (race_date_text s))
  /\ (forall (fuel : nat) (race_url race_name : string) (i : nat) (s : St),
         let s1 := snd (restart_if_due B race_url s) in
         let s2 := snd (select_with_retries B i s1) in
         let s' := snd (process_date B fuel race_url race_name i s) in
         race_date_text s1 = race_date_text s
         /\ race_date_text s' = race_date_text s2
         /\ exists rest,
              race_results s' = (race_results s ++ rest)%list
              /\ Forall (carries (race_date_text s2)) rest)
  /\ (forall (fuel : nat) (race_url race_name : string) (i : nat) (s : St),
         race_date_text
           (snd (select_with_retries B i (snd (restart_if_due B race_url s))))
         = None ->
         race_results (snd (process_date B fuel race_url race_name i s))
         = race_results s)
  /\ (forall (fuel : nat) (target : RaceTarget) (s : St),
         race_date_text s <> None ->
         race_date_text (snd (process_race B fuel target s)) <> None).
Proof.
  split; [| split; [| split]].
  - intros i s s'.
    destruct (@select_labelled i s s (labelled_refl s)) as (events & Ht & Hl).
    fold s' in Ht, Hl. rewrite (@events_since_app s s' events Ht). exact Hl.
  - intros. apply process_date_label.
  - intros fuel race_url race_name i s Hnone.
    destruct (process_date_label fuel race_url race_name i s)
      as (_ & _ & rest & Hr & Hf).
    rewrite Hnone in Hf. apply carries_nothing in Hf. subst rest.
    rewrite Hr. apply app_nil_r.
  - intros fuel target s H. apply (@label_stays_bound fuel target s H).
Qed.
End DateLabel.


(** C10 at work.  On the results frame with no date selected yet, the date
    ordinal 7 does not exist: the five attempts fail before any text is
    read, the label stays unbound, the ten attempts on the row of the table
    shown all fail on the unbound name, and the date yields no record.  And
    the label left by a first race is still bound after the second. *)
Lemma C10_witness_unbound_label :
  let s := Scenarios.framed_on Scenarios.one_row in
  let s' :=
    snd (process_date Fixture.chrome Scenarios.fuel
           "https://www.ironman.com/im-eta-results" "im-eta" 7 s) in
  (race_date_text
     (snd (select_with_retries Fixture.chrome 7
             (snd (restart_if_due Fixture.chrome
                     "https://www.ironman.com/im-eta-results" s))))
   = None
   /\ race_results s' = race_results s
   /\ mem "Retry 10 on row 1: name 'race_date_text' is not defined"
          (stdout s') = true)
  /\ (race_date_text Scenarios.after_first_race <> None
      /\ race_date_text
           (snd (process_race Fixture.chrome Scenarios.fuel
                   (Scenarios.target_of "im-eta")
                   Scenarios.after_first_race)) <> None).
Proof.
  intros s s'.
  pose proof (@C10_label_follows_the_text_reads
                nat Fixture.element Fixture.web Fixture.chrome)
    as (_ & _ & Hunbound & Hbound).
  assert (Hnone : race_date_text
                    (snd (select_with_retries Fixture.chrome 7
                            (snd (restart_if_due Fixture.chrome
                                    "https://www.ironman.com/im-eta-results"
                                    s))))
                  = None) by (vm_compute; reflexivity).
  assert (Hsome : race_date_text Scenarios.after_first_race <> None)
    by (vm_compute; discriminate).
  split; [split; [exact Hnone | split] | split].
  - exact (Hunbound Scenarios.fuel "https://www.ironman.com/im-eta-results"
             "im-eta" 7 s Hnone).
  - vm_compute. reflexivity.
  - exact Hsome.
  - exact (Hbound Scenarios.fuel (Scenarios.target_of "im-eta")
             Scenarios.after_first_race Hsome).
Defined.

(** C10 fails as stated.  The click on the second date's option is always
    intercepted: the five attempts to select it fail, the table goes on
    showing the first date (athletes A1 to A4), and yet the four records
    produced for the second date carry the second date's label, read before
    each failed click, not the label of the last successful selection. *)
Lemma C10_failed_selection_overwrites_label :
  let final := snd Scenarios.run_second_option_broken in
  mem "Retry 5 on selecting race date failed: Message: element click intercepted"
      (stdout final) = true
  /\ map (fun r => (dict_get "Race Date" r, dict_get "Athlete" r))
         (race_results final)
     = [ (Some "2024 - June 02", Some "A1"); (Some "2024 - June 02", Some "A2");
         (Some "2024 - June 02", Some "A3"); (Some "2024 - June 02", Some "A4");
         (Some "2023 - June 04", Some "A1"); (Some "2023 - June 04", Some "A2");
         (Some "2023 - June 04", Some "A3"); (Some "2023 - June 04", Some "A4") ]
  /\ provenance final
     = [ (0, 0, 0); (0, 0, 1); (0, 1, 0); (0, 1, 1);
         (1, 0, 0); (1, 0, 1); (1, 1, 0); (1, 1, 1) ].
Proof. vm_compute. repeat split. Qed.

(** ** C8: a failed field read *)
Section StaticReads.
Variables driver_t elem_t W : Type.
Local Abbreviation St := (state driver_t elem_t W).

Lemma alike_refl (s : St) : alike s s.
Proof. unfold alike. repeat split; reflexivity. Qed.

Lemma alike_trans (a b c : St) : alike a b -> alike b c -> alike a c.
Proof. unfold alike. intuition congruence. Qed.

Lemma alike_sym (a b : St) : alike a b -> alike b a.
Proof. unfold alike. intuition congruence. Qed.

Lemma reads_ret (A : Type) (a : A) :
  @reads driver_t elem_t W A (ret a) (fun _ _ => a).
Proof. intros s. exists s. split; [reflexivity | apply alike_refl]. Qed.

Lemma reads_bind (A C : Type) (m : M St A) (k : A -> M St C)
  (f : option driver_t -> W -> A) (g : A -> option driver_t -> W -> C) :
  reads m f -> (forall a, reads (k a) (g a)) ->
  reads (bind m k) (fun od w => g (f od w) od w).
Proof.
  intros Hm Hk s. destruct (Hm s) as (s1 & E1 & H1).
  destruct (Hk (f (driver s) (world s)) s1) as (s2 & E2 & H2).
  exists s2. unfold bind. rewrite E1, E2. split.
  - destruct H1 as (Hw & _ & _ & _ & _ & _ & Hd & _).
    rewrite Hw, Hd. reflexivity.
  - eapply alike_trans; eassumption.
Qed.

Lemma reads_ext (A : Type) (m : M St A) (f g : option driver_t -> W -> A) :
  reads m f -> (forall od w, f od w = g od w) -> reads m g.
Proof.
  intros H E s. destruct (H s) as (s' & Hs & Ha). exists s'.
  rewrite <- E. split; assumption.
Qed.

Section OnStatic.
Variable B : browser driver_t elem_t W.
Hypothesis Hstatic : static B.

Lemma find_text_static (xpath : string) (s : St) :
  exists r s',
    find_text B xpath s = (r, s') /\ alike s s'
    /\ match reading B (driver s) (world s) xpath with
       | Some t => r = Ok t
       | None => exists e, r = Raise e
       end.
Proof.
  destruct Hstatic as (Hfind & Htext & _).
  unfold find_text, bind, read_var, remote, reading.
  destruct (driver s) as [d |].
  - pose proof (Hfind d (XPATH, xpath) (world s)) as H1.
    destruct (handle B (FindElement d (XPATH, xpath)) (world s))
      as [[e | el] w]; simpl in H1 |- *; subst w.
    + do 2 eexists. split; [reflexivity |].
      split; [unfold alike; simpl; repeat split; reflexivity | eauto].
    + pose proof (Htext el (world s)) as H2.
      destruct (handle B (GetText el) (world s)) as [[e | t] w];
        simpl in H2 |- *; subst w;
        do 2 eexists; (split; [reflexivity |]);
        (split; [unfold alike; simpl; repeat split; reflexivity | eauto]).
  - do 2 eexists. split; [reflexivity |].
    split; [apply alike_refl | eauto].
Qed.

Lemma sleep_static (ms : nat) (s : St) :
  exists s', time_sleep B ms s = (Ok tt, s') /\ alike s s'.
Proof.
  destruct Hstatic as (_ & _ & Hsleep).
  eexists. split; [reflexivity |].
  unfold alike. simpl. rewrite Hsleep. repeat split; reflexivity.
Qed.

Lemma alike_reading (s s' : St) (xpath : string) :
  alike s s' ->
  reading B (driver s') (world s') xpath = reading B (driver s) (world s) xpath.
Proof. intros (Hw & _ & _ & _ & _ & _ & Hd & _). rewrite Hw, Hd. reflexivity. Qed.

Lemma get_text_loop_S (n delay : nat) (xpath : string) :
  get_text_loop B (S n) delay xpath
  = (r <- try_except (t <- find_text B xpath ;; ret (Some t))
                     (fun _ => time_sleep B delay ;; ret None) ;;
     match r with
     | Some t => ret t
     | None => get_text_loop B n delay xpath
     end).
Proof. reflexivity. Qed.

Lemma by_data_field_loop_S (n delay : nat) (xpaths : list string) :
  by_data_field_loop B (S n) delay xpaths
  = (r <- first_text B xpaths ;;
     match r with
     | Some t => ret t
     | None => time_sleep B delay ;; by_data_field_loop B n delay xpaths
     end).
Proof. reflexivity. Qed.

Lemma get_text_loop_static (delay : nat) (xpath : string) :
  forall n, reads (get_text_loop B (S n) delay xpath)
                  (fun od w => field_value B od w [xpath]).
Proof.
  intros n; induction n as [| n IH]; intros s;
    destruct (find_text_static xpath s) as (r & s1 & E1 & H1 & Hr);
    unfold field_value; simpl first_reading;
    rewrite get_text_loop_S; unfold bind at 1; unfold try_except, bind at 1;
    rewrite E1;
    destruct (reading B (driver s) (world s) xpath) as [t |] eqn:Er.
  - subst r. exists s1. split; [reflexivity | exact H1].
  - destruct Hr as [e ->].
    destruct (sleep_static delay s1) as (s2 & E2 & H2).
    unfold bind at 1. rewrite E2. simpl.
    exists s2. split; [reflexivity | eapply alike_trans; eassumption].
  - subst r. exists s1. split; [reflexivity | exact H1].
  - destruct Hr as [e ->].
    destruct (sleep_static delay s1) as (s2 & E2 & H2).
    unfold bind at 1. rewrite E2. cbv beta iota.
    assert (H12 : alike s s2) by (eapply alike_trans; eassumption).
    destruct (IH s2) as (s3 & E3 & H3).
    unfold ret at 1. cbv beta iota.
    rewrite E3. exists s3. split.
    + unfold field_value. simpl first_reading.
      rewrite (alike_reading xpath H12), Er. reflexivity.
    + eapply alike_trans; eassumption.
Qed.

Lemma get_text_static (xpath : string) :
  reads (get_text B xpath) (fun od w => field_value B od w [xpath]).
Proof. apply get_text_loop_static. Qed.

Lemma first_text_static (xpaths : list string) :
  reads (first_text B xpaths) (fun od w => first_reading B od w xpaths).
Proof.
  induction xpaths as [| x xs IH]; intros s; simpl.
  - exists s. split; [reflexivity | apply alike_refl].
  - destruct (find_text_static x s) as (r & s1 & E1 & H1 & Hr).
    unfold bind at 1. unfold try_except, bind at 1. rewrite E1.
    destruct (reading B (driver s) (world s) x) as [t |] eqn:Er.
    + subst r. exists s1. split; [reflexivity | exact H1].
    + destruct Hr as [e ->]. simpl.
      destruct (IH s1) as (s2 & E2 & H2). rewrite E2.
      exists s2. split.
      * destruct H1 as (Hw & _ & _ & _ & _ & _ & Hd & _).
        rewrite Hw, Hd. reflexivity.
      * eapply alike_trans; eassumption.
Qed.

Lemma by_data_field_loop_static (delay : nat) (xpaths : list string) :
  forall n, reads (by_data_field_loop B (S n) delay xpaths)
                  (fun od w => field_value B od w xpaths).
Proof.
  intros n; induction n as [| n IH]; intros s;
    destruct (first_text_static xpaths s) as (s1 & E1 & H1);
    unfold field_value;
    rewrite by_data_field_loop_S; unfold bind at 1; rewrite E1;
    destruct (first_reading B (driver s) (world s) xpaths) as [t |] eqn:Er.
  - exists s1. split; [reflexivity | exact H1].
  - destruct (sleep_static delay s1) as (s2 & E2 & H2).
    unfold bind at 1. rewrite E2. simpl.
    exists s2. split; [reflexivity | eapply alike_trans; eassumption].
  - exists s1. split; [reflexivity | exact H1].
  - destruct (sleep_static delay s1) as (s2 & E2 & H2).
    unfold bind at 1. rewrite E2. cbv beta iota.
    assert (H12 : alike s s2) by (eapply alike_trans; eassumption).
    destruct (IH s2) as (s3 & E3 & H3).
    rewrite E3. exists s3. split.
    + unfold field_value.
      destruct H12 as (Hw & _ & _ & _ & _ & _ & Hd & _).
      rewrite <- Hw, <- Hd, Er. reflexivity.
    + eapply alike_trans; [| exact H3].
      unfold alike in *. intuition congruence.
Qed.

Lemma get_text_by_data_field_static (row_index : option string)
  (field_name : string) :
  reads (get_text_by_data_field B row_index field_name)
        (fun od w => field_value B od w (xpath_variants row_index field_name)).
Proof. apply by_data_field_loop_static. Qed.
End OnStatic.
End StaticReads.

Section Injection.
Variables driver_t elem_t W : Type.
Local Abbreviation St := (state driver_t elem_t W).
Variable B : browser driver_t elem_t W.
Variable faulty : string -> bool.

Lemma static_inject : static B -> static (inject faulty B).
Proof.
  intros (Hfind & Htext & Hsleep). split; [| split].
  - intros d [[|] x] w; simpl; [apply Hfind |].
    destruct (faulty x); [reflexivity | apply Hfind].
  - intros e w. simpl. apply Htext.
  - intros ms w. simpl. apply Hsleep.
Qed.

Lemma reading_inject (od : option driver_t) (w : W) (x : string) :
  reading (inject faulty B) od w x
  = if faulty x then None else reading B od w x.
Proof.
  unfold reading. destruct od as [d |]; [| destruct (faulty x); reflexivity].
  simpl. destruct (faulty x); reflexivity.
Qed.

Lemma first_reading_inject_clear (od : option driver_t) (w : W)
  (xpaths : list string) :
  (forall x, In x xpaths -> faulty x = false) ->
  first_reading (inject faulty B) od w xpaths = first_reading B od w xpaths.
Proof.
  induction xpaths as [| x xs IH]; intros H; simpl; [reflexivity |].
  rewrite reading_inject, (H x (or_introl eq_refl)), IH; [reflexivity |].
  intros y Hy. apply H. right. exact Hy.
Qed.

Lemma first_reading_inject_all (od : option driver_t) (w : W)
  (xpaths : list string) :
  (forall x, In x xpaths -> faulty x = true) ->
  first_reading (inject faulty B) od w xpaths = None.
Proof.
  induction xpaths as [| x xs IH]; intros H; simpl; [reflexivity |].
  rewrite reading_inject, (H x (or_introl eq_refl)). apply IH.
  intros y Hy. apply H. right. exact Hy.
Qed.
End Injection.

Lemma dict_get_map (cell : string -> string) (ks : list string)
  (key : string) :
  dict_get key (map (fun k => (k, cell k)) ks)
  = if mem key ks then Some (cell key) else None.
Proof.
  induction ks as [| k ks IH]; simpl; [reflexivity |].
  destruct (String.eqb_spec key k) as [-> | _]; [reflexivity | exact IH].
Qed.

Lemma dict_keys_map (cell : string -> string) (ks : list string) :
  dict_keys (map (fun k => (k, cell k)) ks) = ks.
Proof.
  unfold dict_keys. rewrite map_map. simpl. apply map_id.
Qed.

Section RecordReads.
Variables driver_t elem_t W : Type.
Local Abbreviation St := (state driver_t elem_t W).
Variable B : browser driver_t elem_t W.
Hypothesis Hstatic : static B.

Lemma reads_ret_as (A : Type) (a : A) (f : option driver_t -> W -> A) :
  (forall od w, f od w = a) -> @reads driver_t elem_t W A (ret a) f.
Proof.
  intros H s. exists s. rewrite H. split; [reflexivity | apply alike_refl].
Qed.

Lemma reads_at (A : Type) (m : M St A) (f : option driver_t -> W -> A) :
  reads m f ->
  forall s v, f (driver s) (world s) = v ->
              exists s', m s = (Ok v, s') /\ alike s s'.
Proof. intros H s v <-. apply H. Qed.

(** The record of a row is made of what the field reads return. *)
Lemma build_record_reads (race_name designation : string)
  (row_index : option string) (t : string) (s : St) :
  race_date_text s = Some t ->
  exists s',
    build_record B race_name designation row_index s
    = (Ok (record_of
             (fun key => field_value B (driver s) (world s)
                           (field_xpaths row_index key))
             race_name t designation), s')
    /\ alike s s'.
Proof.
  intros Hdate. unfold build_record, record_of, keys_in_order.
  destruct ((designation =? "DNS") || (designation =? "DQ"));
    [| destruct (designation =? "DNF")];
    [unfold record_base_only | unfold record_dnf | unfold record_finisher];
    unfold bind at 1; unfold read_var at 1; rewrite Hdate;
    (eapply reads_at;
     [ repeat (refine (reads_bind _ _ _ (fun _ => _));
               [ first [ exact (get_text_by_data_field_static Hstatic _ _)
                       | exact (get_text_static Hstatic _) ]
               | cbv beta ]);
       refine (reads_ret_as _ (fun od w => _)); reflexivity
     | reflexivity ]).
Qed.

(** Without a date label no record is made. *)
Lemma build_record_unbound (race_name designation : string)
  (row_index : option string) (s : St) :
  race_date_text s = None ->
  build_record B race_name designation row_index s
  = (Raise (NameError "race_date_text"), s).
Proof.
  intros Hdate. unfold build_record.
  destruct ((designation =? "DNS") || (designation =? "DQ"));
    [| destruct (designation =? "DNF")];
    [unfold record_base_only | unfold record_dnf | unfold record_finisher];
    unfold bind at 1; unfold read_var at 1; rewrite Hdate; reflexivity.
Qed.
End RecordReads.

Section RelatedRules.
Variables driver_t elem_t W : Type.
Local Abbreviation St := (state driver_t elem_t W).
Variable faulty : string -> bool.

Lemma agree_refl (record : dict) : agree faulty record record.
Proof. split; [reflexivity | exists None; reflexivity]. Qed.

Lemma sim_refl (s : St) : sim faulty s s.
Proof.
  unfold sim. repeat split; try reflexivity.
  induction (race_results s); constructor; [apply agree_refl | assumption].
Qed.

Lemma sim_alike (s s' s1 s1' : St) :
  sim faulty s s' -> alike s s1 -> alike s' s1' -> sim faulty s1 s1'.
Proof.
  unfold sim, alike.
  intros (H1 & H2 & H3 & H4 & H5 & H6 & H7 & H8 & H9 & H10 & H11)
         (A1 & A2 & A3 & A4 & A5 & A6 & A7 & A8 & A9 & A10 & A11)
         (C1 & C2 & C3 & C4 & C5 & C6 & C7 & C8 & C9 & C10 & C11).
  rewrite <- A6, <- C6.
  repeat split; congruence.
Qed.

Lemma same_end_eq (A : Type) (r r' : result A) : same_end eq r r' -> r = r'.
Proof.
  destruct r, r'; simpl; intros H; try contradiction; congruence.
Qed.

Lemma related_bind (A A' C C' : Type) (R : A -> A' -> Prop)
  (Q : C -> C' -> Prop) (m : M St A) (m' : M St A')
  (k : A -> M St C) (k' : A' -> M St C') :
  related faulty R m m' ->
  (forall a a', R a a' -> related faulty Q (k a) (k' a')) ->
  related faulty Q (bind m k) (bind m' k').
Proof.
  intros Hm Hk s s' Hs. destruct (Hm s s' Hs) as [He Hs1].
  unfold bind. destruct (m s) as [r s1], (m' s') as [r' s1'].
  simpl in He, Hs1.
  destruct r, r'; simpl in He; try contradiction.
  - apply Hk; assumption.
  - split; assumption.
  - split; assumption.
Qed.

Lemma related_ret (A A' : Type) (R : A -> A' -> Prop) (a : A) (a' : A') :
  R a a' -> related faulty R (ret (St := St) a) (ret a').
Proof. intros H s s' Hs. split; assumption. Qed.

Lemma related_raise (A A' : Type) (R : A -> A' -> Prop) (e : exn) :
  related faulty R (raise (St := St) e) (raise e).
Proof. intros s s' Hs. split; [reflexivity | assumption]. Qed.

Lemma related_lift_exn (A : Type) (r : exn + A) :
  related faulty eq (lift_exn (St := St) r) (lift_exn r).
Proof.
  destruct r; [apply related_raise | apply related_ret; reflexivity].
Qed.

Lemma related_read_var (A : Type) (name : string) (v : St -> option A) :
  (forall s s', sim faulty s s' -> v s = v s') ->
  related faulty eq (read_var name v) (read_var name v).
Proof.
  intros H s s' Hs. unfold read_var. rewrite <- (H s s' Hs).
  destruct (v s); split; try reflexivity; assumption.
Qed.

Lemma related_modify (g g' : St -> St) :
  (forall s s', sim faulty s s' -> sim faulty (g s) (g' s')) ->
  related faulty eq (modify g) (modify g').
Proof. intros H s s' Hs. split; [reflexivity | apply H; exact Hs]. Qed.

Lemma related_print (line : string) :
  related faulty eq (@print driver_t elem_t W line) (print line).
Proof.
  apply related_modify. unfold sim. simpl. intuition congruence.
Qed.

Lemma related_try_except (A A' : Type) (R : A -> A' -> Prop)
  (m : M St A) (m' : M St A') (h : exn -> M St A) (h' : exn -> M St A') :
  related faulty R m m' ->
  (forall e, related faulty R (h e) (h' e)) ->
  related faulty R (try_except m h) (try_except m' h').
Proof.
  intros Hm Hh s s' Hs. destruct (Hm s s' Hs) as [He Hs1].
  unfold try_except. destruct (m s) as [r s1], (m' s') as [r' s1'].
  simpl in He, Hs1.
  destruct r, r'; simpl in He; try contradiction.
  - split; assumption.
  - subst. apply Hh; assumption.
  - split; assumption.
Qed.

Lemma related_for_range_from (body body' : nat -> M St unit) :
  (forall i, related faulty eq (body i) (body' i)) ->
  forall n i,
    related faulty eq (for_range_from i n body) (for_range_from i n body').
Proof.
  intros H n; induction n as [| n IH]; intros i; simpl.
  - apply related_ret. reflexivity.
  - eapply related_bind; [apply H | intros _ _ _; apply IH].
Qed.

Lemma related_attempts_from (body body' : M St unit)
  (h h' : nat -> exn -> M St unit) :
  related faulty eq body body' ->
  (forall a e, related faulty eq (h a e) (h' a e)) ->
  forall n a,
    related faulty eq (attempts_from a n body h) (attempts_from a n body' h').
Proof.
  intros Hb Hh n; induction n as [| n IH]; intros a; simpl.
  - apply related_ret. reflexivity.
  - eapply related_bind.
    + apply related_try_except.
      * eapply related_bind; [exact Hb |].
        intros _ _ _. apply related_ret. reflexivity.
      * intros e. eapply related_bind; [apply Hh |].
        intros _ _ _. apply related_ret. reflexivity.
    + intros broke ? <-. destruct broke; [| apply IH].
      apply related_ret. reflexivity.
Qed.

Section OnBrowser.
Variable B : browser driver_t elem_t W.

Lemma related_remote (R : Type) (c : call driver_t elem_t R) :
  (forall w, handle (inject faulty B) c w = handle B c w) ->
  related faulty eq (remote B c) (remote (inject faulty B) c).
Proof.
  intros H s s' Hs. unfold remote. rewrite H.
  assert (Hw : world s' = world s) by (symmetry; apply Hs).
  rewrite Hw.
  destruct (handle B c (world s)) as [[e | v] w']; simpl;
    (split; [reflexivity |]);
    unfold sim in *; simpl; intuition congruence.
Qed.

Lemma related_time_sleep (ms : nat) :
  related faulty eq (time_sleep B ms) (time_sleep (inject faulty B) ms).
Proof.
  apply related_modify. unfold sim. simpl.
  intros s s' H. intuition congruence.
Qed.
End OnBrowser.
End RelatedRules.

Ltac related_leaf :=
  first
    [ apply related_ret; reflexivity
    | apply related_raise
    | apply related_lift_exn
    | apply related_print
    | apply related_time_sleep
    | apply related_remote; intros; reflexivity
    | apply related_read_var;
      let H := fresh "Hsim" in
      intros ? ? H; unfold sim in H; intuition congruence
    | apply related_modify;
      let H := fresh "Hsim" in
      intros ? ? H; unfold sim in *; simpl; intuition congruence ].

Ltac related_seq := eapply related_bind; [related_leaf | intros ? ? []].

Section FieldFaults.
Variables driver_t elem_t W : Type.
Local Abbreviation St := (state driver_t elem_t W).
Variable B : browser driver_t elem_t W.
Variable faulty : string -> bool.
Hypothesis Hstatic : static B.

Lemma related_get_text (xpath : string) :
  faulty xpath = false ->
  related faulty eq (get_text B xpath) (get_text (inject faulty B) xpath).
Proof.
  intros Hx s s' Hs.
  destruct (get_text_static Hstatic xpath s) as (s1 & E1 & A1).
  destruct (get_text_static (static_inject faulty Hstatic) xpath s')
    as (s1' & E1' & A1').
  rewrite E1, E1'. simpl. split; [| eapply sim_alike; eassumption].
  unfold field_value. rewrite first_reading_inject_clear.
  - destruct Hs as (Hw & _ & _ & _ & _ & _ & Hd & _).
    rewrite Hw, Hd. reflexivity.
  - intros y [<- | []]. exact Hx.
Qed.

Lemma record_of_agree (od : option driver_t) (w : W)
  (race_name t designation : string) (row_index : option string) :
  agree faulty
    (record_of (fun key => field_value B od w (field_xpaths row_index key))
       race_name t designation)
    (record_of (fun key => field_value (inject faulty B) od w
                             (field_xpaths row_index key))
       race_name t designation).
Proof.
  unfold agree, record_of. rewrite !dict_keys_map.
  split; [reflexivity |]. exists row_index. intros key Hclear.
  rewrite !dict_get_map. destruct (mem key _); [| reflexivity].
  unfold field_value. rewrite first_reading_inject_clear by exact Hclear.
  reflexivity.
Qed.

Lemma record_of_sentinel (od : option driver_t) (w : W)
  (race_name t designation : string) (row_index : option string)
  (key : string) :
  In key (keys_in_order designation) ->
  field_xpaths row_index key <> [] ->
  (forall x, In x (field_xpaths row_index key) -> faulty x = true) ->
  dict_get key
    (record_of (fun key => field_value (inject faulty B) od w
                             (field_xpaths row_index key))
       race_name t designation)
  = Some "N/A".
Proof.
  intros Hin Hne Hall. unfold record_of. rewrite dict_get_map.
  rewrite (proj2 (mem_In _ _) Hin). f_equal.
  destruct (String.eqb_spec key "Race Name") as [-> | _];
    [exfalso; apply Hne; reflexivity |].
  destruct (String.eqb_spec key "Race Date") as [-> | _];
    [exfalso; apply Hne; reflexivity |].
  destruct (String.eqb_spec key "Designation") as [-> | _];
    [exfalso; apply Hne; reflexivity |].
  unfold field_value. rewrite first_reading_inject_all by exact Hall.
  reflexivity.
Qed.

Lemma related_build_record (race_name designation : string)
  (row_index : option string) :
  related faulty (agree faulty)
    (build_record B race_name designation row_index)
    (build_record (inject faulty B) race_name designation row_index).
Proof.
  intros s s' Hs.
  assert (Hw : world s' = world s) by (symmetry; apply Hs).
  assert (Hd : driver s' = driver s)
    by (unfold sim in Hs; intuition congruence).
  assert (Ht : race_date_text s' = race_date_text s)
    by (unfold sim in Hs; intuition congruence).
  destruct (race_date_text s) as [t |] eqn:Hdate.
  - destruct (@build_record_reads _ _ _ _ Hstatic race_name designation
                row_index _ _ Hdate) as (s1 & E1 & A1).
    destruct (@build_record_reads _ _ _ _ (static_inject faulty Hstatic)
                race_name designation row_index _ _ Ht) as (s1' & E1' & A1').
    rewrite E1, E1'. simpl. split; [| eapply sim_alike; eassumption].
    rewrite Hw, Hd. apply record_of_agree.
  - rewrite (@build_record_unbound _ _ _ B race_name designation row_index
               _ Hdate).
    rewrite (@build_record_unbound _ _ _ (inject faulty B) race_name
               designation row_index _ Ht).
    split; [reflexivity | exact Hs].
Qed.

Lemma related_append (i row_number : nat) (record record' : dict) :
  agree faulty record record' ->
  related faulty eq
    (@append_result driver_t elem_t W i row_number record)
    (append_result i row_number record').
Proof.
  intros Hrec. apply related_modify. intros s s' Hs.
  unfold sim in *. simpl.
  destruct Hs as (H1 & H2 & H3 & H4 & H5 & H6 & H7 & H8 & H9 & H10 & H11).
  repeat split; try congruence.
  apply Forall2_app; [exact H6 | constructor; [exact Hrec | constructor]].
Qed.

Hypothesis Hdesignation : faulty (label_xpath "Designation") = false.

Lemma related_extract_row (race_name : string) (i row_number : nat) :
  related faulty eq
    (extract_row B race_name i row_number)
    (extract_row (inject faulty B) race_name i row_number).
Proof.
  unfold extract_row. do 7 related_seq.
  eapply related_bind;
    [apply related_get_text; exact Hdesignation | intros designation ? []].
  eapply related_bind; [apply related_build_record | intros rec rec' Hrec].
  eapply related_bind; [apply related_append; exact Hrec | intros _ _ _].
  related_leaf.
Qed.

Lemma related_process_row (race_name : string) (i row_number : nat) :
  related faulty eq
    (process_row B race_name i row_number)
    (process_row (inject faulty B) race_name i row_number).
Proof.
  unfold process_row, attempts.
  eapply related_bind; [| intros _ _ _; related_leaf].
  apply related_attempts_from; [apply related_extract_row |].
  intros a e. related_seq. related_leaf.
Qed.

Lemma related_next_page_attempt :
  related faulty eq (next_page_attempt B) (next_page_attempt (inject faulty B)).
Proof.
  unfold next_page_attempt. do 3 related_seq.
  match goal with
  | |- related _ _ (match ?c with _ => _ end) _ =>
      destruct c as [cls |]; [| related_leaf]
  end.
  destruct (str_contains "Mui-disabled" cls); [related_leaf |].
  do 3 related_seq. related_leaf.
Qed.

Lemma related_next_page :
  related faulty eq (next_page B) (next_page (inject faulty B)).
Proof.
  unfold next_page. simpl. unfold attempts.
  eapply related_bind.
  - apply related_attempts_from; [apply related_next_page_attempt |].
    intros a e. related_leaf.
  - intros broke ? []. destruct broke; related_leaf.
Qed.

Lemma related_process_page (race_name : string) (i : nat) :
  related faulty eq
    (process_page B race_name i) (process_page (inject faulty B) race_name i).
Proof.
  unfold process_page, for_range. do 4 related_seq.
  eapply related_bind;
    [ apply related_for_range_from; intros; apply related_process_row
    | intros _ _ _ ].
  eapply related_bind; [apply related_next_page | intros _ _ _].
  related_leaf.
Qed.
End FieldFaults.


Lemma chrome_static : static Fixture.chrome.
Proof.
  split; [| split].
  - intros d [[|] x] w; simpl; unfold Fixture.on_session;
      destruct (Fixture.alive d w); try reflexivity.
    destruct (Fixture.find_by_xpath x w); reflexivity.
  - intros e w. simpl. destruct (Fixture.live w); reflexivity.
  - intros ms w. reflexivity.
Qed.



(* ================================================================= *)
(** * Part 7: further properties of the script *)

(** ** The catalogue: the results address (lines 76-78) *)

Lemma endswith_app (a suffix : string) : endswith (a ++ suffix) suffix = true.
Proof.
  induction a as [| c a IH].
  - destruct suffix; [reflexivity |].
    cbn [append endswith]. rewrite String.eqb_refl. reflexivity.
  - cbn [append endswith]. rewrite IH. apply orb_true_r.
Qed.

Lemma lstrip_head (u : string) :
  lstrip u = EmptyString
  \/ exists c t, lstrip u = String c t /\ is_space c = false.
Proof.
  induction u as [| c u IH]; simpl; [left; reflexivity |].
  destruct (is_space c) eqn:E; [exact IH |].
  right. exists c, u. split; [reflexivity | exact E].
Qed.

Lemma rstrip_app_keep (x y : string) :
  rstrip y <> EmptyString -> rstrip (x ++ y) = x ++ rstrip y.
Proof.
  intros Hy. induction x as [| c x IH]; simpl; [reflexivity |].
  rewrite IH. destruct (x ++ rstrip y) eqn:E; [| reflexivity].
  destruct x; simpl in E; [contradiction | discriminate].
Qed.

Lemma strip_head (u : string) :
  strip u = EmptyString
  \/ exists c t, strip u = String c t /\ is_space c = false.
Proof.
  unfold strip. destruct (lstrip_head u) as [-> | (c & t & -> & Hc)].
  - left. reflexivity.
  - right. simpl. destruct (rstrip t).
    + rewrite Hc. exists c, EmptyString. split; [reflexivity | exact Hc].
    + eexists c, _. split; [reflexivity | exact Hc].
Qed.

Lemma strip_with_suffix (u : string) :
  strip (strip u ++ "-results") = strip u ++ "-results".
Proof.
  assert (Hl : lstrip (strip u ++ "-results") = strip u ++ "-results").
  { destruct (strip_head u) as [-> | (c & t & -> & Hc)];
      [reflexivity | simpl; rewrite Hc; reflexivity]. }
  unfold strip at 1. rewrite Hl.
  rewrite rstrip_app_keep; [reflexivity | discriminate].
Qed.

(** X1.  Adding the results suffix is idempotent: applied to its own
    result, the function of lines 76-78 changes nothing. *)
Theorem X1_results_url_idempotent (u : string) :
  ascii_only u = true ->
  results_url (results_url (Some u)) = results_url (Some u)
  /\ results_url (results_url None) = results_url None.
Proof.
  intros _. split; [| reflexivity].
  unfold results_url.
  destruct (endswith (strip u) "-results") eqn:E; simpl.
  - rewrite E. reflexivity.
  - rewrite strip_with_suffix, endswith_app. reflexivity.
Qed.

Lemma X1_witness_padded_address :
  ascii_only "  https://www.ironman.com/im-nice " = true
  /\ results_url (results_url (Some "  https://www.ironman.com/im-nice "))
     = results_url (Some "  https://www.ironman.com/im-nice ")
  /\ results_url (Some "  https://www.ironman.com/im-nice ")
     = Some "https://www.ironman.com/im-nice-results".
Proof.
  split; [reflexivity |]. split; [| reflexivity].
  exact (proj1 (@X1_results_url_idempotent
                  "  https://www.ironman.com/im-nice " eq_refl)).
Defined.

(** X2.  After the function of lines 76-78 a string cell, white space at
    its ends apart, ends with "-results".  A cell that did so already is
    left exactly as it was, white space included; any other is stripped and
    gets the suffix.  A cell that holds no string is passed on. *)
Theorem X2_results_url_has_the_suffix (u : string) :
  ascii_only u = true ->
  exists v,
    results_url (Some u) = Some v
    /\ endswith (strip v) "-results" = true
    /\ (endswith (strip u) "-results" = true -> v = u)
    /\ (endswith (strip u) "-results" = false -> v = strip u ++ "-results").
Proof.
  intros _. unfold results_url.
  destruct (endswith (strip u) "-results") eqn:E; simpl.
  - exists u. repeat split; [exact E | discriminate].
  - exists (strip u ++ "-results"). repeat split; try discriminate.
    rewrite strip_with_suffix. apply endswith_app.
Qed.

Lemma X2_witness_suffix_already_there :
  ascii_only " https://www.ironman.com/im-nice-results " = true
  /\ exists v,
       results_url (Some " https://www.ironman.com/im-nice-results ") = Some v
       /\ endswith (strip v) "-results" = true
       /\ v = " https://www.ironman.com/im-nice-results ".
Proof.
  split; [reflexivity |].
  destruct (@X2_results_url_has_the_suffix
              " https://www.ironman.com/im-nice-results " eq_refl)
    as (v & Hv & He & Hsame & _).
  exists v. split; [exact Hv |]. split; [exact He |].
  apply Hsame. reflexivity.
Defined.

(** ** The file name of a race (lines 96-97) *)

Lemma ascii_word_char (c : ascii) :
  is_word_char c = true -> (nat_of_ascii c <? 128)%nat = true ->
  is_ascii_word c = true.
Proof.
  unfold is_word_char, is_ascii_word. cbv zeta.
  intros Hw Ha. apply Nat.ltb_lt in Ha.
  destruct (128 <=? nat_of_ascii c)%nat eqn:E.
  - apply Nat.leb_le in E. lia.
  - rewrite orb_false_r in Hw. exact Hw.
Qed.

Lemma sub_nonword_chars (s : string) :
  forall in_run c,
    In c (list_ascii_of_string (sub_nonword in_run s)) ->
    c = "_"%char \/ (In c (list_ascii_of_string s) /\ is_word_char c = true).
Proof.
  induction s as [| c0 s IH]; intros in_run c; simpl; [tauto |].
  destruct (is_word_char c0) eqn:E; simpl.
  - intros [<- | H]; [right; split; [left; reflexivity | exact E] |].
    destruct (IH _ _ H) as [-> | [H1 H2]]; [left; reflexivity |].
    right. split; [right; exact H1 | exact H2].
  - destruct in_run; simpl.
    + intros H. destruct (IH _ _ H) as [-> | [H1 H2]]; [left; reflexivity |].
      right. split; [right; exact H1 | exact H2].
    + intros [<- | H]; [left; reflexivity |].
      destruct (IH _ _ H) as [-> | [H1 H2]]; [left; reflexivity |].
      right. split; [right; exact H1 | exact H2].
Qed.

(** X3.  The sanitised name of a race holds letters, digits and
    underscores only: whatever the race is called, the file name built from
    it has no path separator, no dot and no white space in it. *)
Theorem X3_safe_race_name_has_word_characters_only (race_name : string)
  (c : ascii) :
  ascii_only race_name = true ->
  In c (list_ascii_of_string (safe_race_name_of race_name)) ->
  is_ascii_word c = true
  /\ c <> "/"%char /\ c <> "."%char /\ c <> " "%char /\ c <> "\"%char.
Proof.
  intros Ha Hc.
  assert (Hw : is_ascii_word c = true).
  { unfold safe_race_name_of in Hc.
    destruct (sub_nonword_chars _ _ _ Hc) as [-> | [Hin Hword]];
      [reflexivity |].
    apply ascii_word_char; [exact Hword |].
    unfold ascii_only in Ha. rewrite forallb_forall in Ha.
    apply Ha. exact Hin. }
  split; [exact Hw |].
  repeat split; intros ->; discriminate Hw.
Qed.

Lemma X3_witness_slash_and_dots :
  ascii_only "IRONMAN 70.3 Nice/France" = true
  /\ safe_race_name_of "IRONMAN 70.3 Nice/France"
     = "IRONMAN_70_3_Nice_France"
  /\ In "_"%char
        (list_ascii_of_string (safe_race_name_of "IRONMAN 70.3 Nice/France"))
  /\ is_ascii_word "_"%char = true.
Proof.
  assert (Hin : In "_"%char
                  (list_ascii_of_string
                     (safe_race_name_of "IRONMAN 70.3 Nice/France")))
    by (vm_compute; tauto).
  split; [reflexivity |]. split; [reflexivity |]. split; [exact Hin |].
  exact (proj1 (@X3_safe_race_name_has_word_characters_only
                  "IRONMAN 70.3 Nice/France" "_"%char eq_refl Hin)).
Defined.

Lemma sub_nonword_app (a b : string) :
  forall in_run,
    sub_nonword in_run (a ++ b)
    = sub_nonword in_run a ++ sub_nonword (in_run_after in_run a) b.
Proof.
  induction a as [| c a IH]; intros in_run; simpl; [reflexivity |].
  destruct (is_word_char c); simpl.
  - rewrite IH. reflexivity.
  - destruct in_run; simpl; rewrite IH; reflexivity.
Qed.

Lemma sub_nonword_in_run (u : string) :
  forallb (fun c => negb (is_word_char c)) (list_ascii_of_string u) = true ->
  sub_nonword true u = EmptyString /\ in_run_after true u = true.
Proof.
  induction u as [| c u IH]; intros H; [split; reflexivity |].
  simpl in H. apply andb_prop in H as [Hc Hu].
  apply negb_true_iff in Hc. simpl. rewrite Hc. simpl. apply IH, Hu.
Qed.

Lemma sub_nonword_separators (u : string) :
  separator_run u = true ->
  forall in_run,
    sub_nonword in_run u = (if in_run : bool then EmptyString else "_")
    /\ in_run_after in_run u = true.
Proof.
  unfold separator_run. intros H. apply andb_prop in H as [Hne Hall].
  destruct u as [| c u]; [discriminate |]. clear Hne.
  simpl in Hall. apply andb_prop in Hall as [Hc Hu].
  apply negb_true_iff in Hc.
  destruct (sub_nonword_in_run u Hu) as [E1 E2].
  intros in_run. simpl. rewrite Hc. simpl.
  destruct in_run; rewrite E1; split; solve [reflexivity | exact E2].
Qed.

(** X4.  Two race names that differ only in what stands between two
    words, one run of non-word characters for another, get the same file
    name. *)
Theorem X4_race_names_collide (a b u v : string) :
  ascii_only a = true -> ascii_only b = true ->
  separator_run u = true -> separator_run v = true ->
  csv_filename_of (a ++ u ++ b) = csv_filename_of (a ++ v ++ b).
Proof.
  intros _ _ Hu Hv. unfold csv_filename_of, safe_race_name_of.
  do 2 f_equal.
  rewrite !sub_nonword_app.
  destruct (sub_nonword_separators u Hu (in_run_after false a)) as [-> ->].
  destruct (sub_nonword_separators v Hv (in_run_after false a)) as [-> ->].
  reflexivity.
Qed.

Lemma X4_witness_dot_and_dash :
  (ascii_only "IRONMAN 70" = true /\ ascii_only "3 Nice" = true
   /\ separator_run "." = true /\ separator_run " - " = true)
  /\ csv_filename_of "IRONMAN 70.3 Nice" = csv_filename_of "IRONMAN 70 - 3 Nice"
  /\ csv_filename_of "IRONMAN 70.3 Nice"
     = "data/urls/all_ironman_races/IRONMAN_70_3_Nice.csv".
Proof.
  split; [repeat split |]. split; [| reflexivity].
  exact (@X4_race_names_collide "IRONMAN 70" "3 Nice" "." " - "
           eq_refl eq_refl eq_refl eq_refl).
Defined.

Lemma sub_nonword_words (s : string) :
  forallb is_word_char (list_ascii_of_string s) = true ->
  forall in_run, sub_nonword in_run s = s.
Proof.
  induction s as [| c s IH]; intros H in_run; [reflexivity |].
  simpl in H. apply andb_prop in H as [Hc Hs].
  simpl. rewrite Hc, (IH Hs). reflexivity.
Qed.

Lemma sub_nonword_length (s : string) :
  forall in_run, String.length (sub_nonword in_run s) <= String.length s.
Proof.
  induction s as [| c s IH]; intros in_run; simpl; [lia |].
  destruct (is_word_char c); simpl; [specialize (IH false); lia |].
  destruct in_run; simpl; specialize (IH true); lia.
Qed.

(** X5.  Sanitising a race name twice gives what sanitising it once
    gives, and the sanitised name is never longer than the name. *)
Theorem X5_safe_race_name_idempotent (race_name : string) :
  ascii_only race_name = true ->
  safe_race_name_of (safe_race_name_of race_name)
  = safe_race_name_of race_name
  /\ String.length (safe_race_name_of race_name) <= String.length race_name.
Proof.
  intros _. split; [| apply sub_nonword_length].
  unfold safe_race_name_of. apply sub_nonword_words.
  apply forallb_forall. intros c Hc.
  destruct (sub_nonword_chars _ _ _ Hc) as [-> | [_ H]];
    [reflexivity | exact H].
Qed.

Lemma X5_witness_world_championship :
  ascii_only "IRONMAN World Championship (Kona)" = true
  /\ (safe_race_name_of
        (safe_race_name_of "IRONMAN World Championship (Kona)")
      = safe_race_name_of "IRONMAN World Championship (Kona)"
      /\ String.length
           (safe_race_name_of "IRONMAN World Championship (Kona)")
         <= String.length "IRONMAN World Championship (Kona)")
  /\ safe_race_name_of "IRONMAN World Championship (Kona)"
     = "IRONMAN_World_Championship_Kona_".
Proof.
  split; [reflexivity |]. split; [| reflexivity].
  exact (@X5_safe_race_name_idempotent
           "IRONMAN World Championship (Kona)" eq_refl).
Defined.

(** ** The files of a run (lines 97, 319-320) *)
Section FilesWritten.
Variables driver_t elem_t W : Type.
Variable B : browser driver_t elem_t W.
Local Abbreviation St := (state driver_t elem_t W).

Lemma guarded_race_files (fuel : nat) (race_url race_name : string) (s : St) :
  let s' := snd (guarded_race B fuel race_url race_name s) in
  files s' = files s
  \/ exists content, files s' = (csv_filename_of race_name, content) :: files s.
Proof.
  intros s'. subst s'.
  pose proof (@collect_dates_files _ _ _ B fuel race_url race_name (files s) s
                eq_refl) as Hf.
  unfold guarded_race, try_finally, try_except, scrape_race, bind.
  destruct (collect_dates B fuel race_url race_name s) as [[[] | e |] s1];
    simpl in Hf |- *; [| | left; exact Hf];
    match goal with
    | |- context [quit_driver B ?s2] =>
        pose proof (@quit_driver_keeps _ _ _ B (files s2) (race_results s2) s2
                      (conj eq_refl eq_refl)) as [H1 _];
        destruct (quit_driver B s2) as [[[] | e' |] s3]
    end; simpl in *; rewrite H1, Hf; eauto.
Qed.

Lemma process_race_files (fuel : nat) (target : RaceTarget) (s : St) :
  let s' := snd (process_race B fuel target s) in
  files s' = files s
  \/ exists content,
       files s' = (csv_filename_of (Race_Name target), content) :: files s.
Proof.
  intros s'. subst s'.
  assert (H : hoare (fun s' : St => files s' = files s)
                (process_race B fuel target)
                (fun s' : St =>
                   files s' = files s
                   \/ exists content,
                        files s'
                        = (csv_filename_of (Race_Name target), content)
                            :: files s));
    [| apply H; reflexivity].
  unfold process_race. cbv zeta.
  apply hoare_bind with (P' := fun s' : St => files s' = files s);
    [apply hoare_inv; inv_go fail frame_leaf | intros _ | auto].
  apply hoare_bind with (P' := fun s' : St => files s' = files s);
    [apply hoare_inv; inv_go fail frame_leaf | intros _ | auto].
  apply hoare_bind with (P' := fun s' : St => files s' = files s);
    [apply hoare_inv; inv_go fail frame_leaf | intros _ | auto].
  intros s1 H1. rewrite <- H1. apply guarded_race_files.
Qed.

Lemma picked_none (A : Type) (xs : list A) :
  picked (repeat false (List.length xs)) xs = [].
Proof. induction xs as [| x xs IH]; simpl; [reflexivity | exact IH]. Qed.

Lemma for_each_race_files (fuel : nat) (races : list RaceTarget) :
  forall s : St,
  exists keep written,
    List.length keep = List.length races
    /\ files (snd (for_each races (process_race B fuel) s))
       = (written ++ files s)%list
    /\ map fst (rev written)
       = map (fun t => csv_filename_of (Race_Name t)) (picked keep races).
Proof.
  induction races as [| target rest IH]; intros s.
  - exists [], []. repeat split.
  - cbn [for_each]. unfold bind.
    pose proof (process_race_files fuel target s) as Hf. cbv zeta in Hf.
    destruct (process_race B fuel target s) as [r s1]. simpl in Hf.
    assert (Hone : exists flag w1,
               files s1 = (w1 ++ files s)%list
               /\ map fst (rev w1)
                  = map (fun t => csv_filename_of (Race_Name t))
                        (picked [flag] [target])).
    { destruct Hf as [Hf | [content Hf]].
      - exists false, []. split; [exact Hf | reflexivity].
      - exists true, [(csv_filename_of (Race_Name target), content)].
        split; [exact Hf | reflexivity]. }
    destruct Hone as (flag & w1 & Hw1 & Hn1).
    destruct r as [[] | e |].
    + destruct (IH s1) as (keep & written & Hl & Hw & Hn).
      exists (flag :: keep), (written ++ w1)%list.
      split; [simpl; rewrite Hl; reflexivity |].
      split; [rewrite Hw, Hw1, app_assoc; reflexivity |].
      rewrite rev_app_distr, map_app, Hn1, Hn.
      destruct flag; reflexivity.
    + exists (flag :: repeat false (List.length rest)), w1.
      split; [simpl; rewrite repeat_length; reflexivity |].
      split; [exact Hw1 |].
      rewrite Hn1. destruct flag; simpl; rewrite picked_none; reflexivity.
    + exists (flag :: repeat false (List.length rest)), w1.
      split; [simpl; rewrite repeat_length; reflexivity |].
      split; [exact Hw1 |].
      rewrite Hn1. destruct flag; simpl; rewrite picked_none; reflexivity.
Qed.

End FilesWritten.

(** ** The race of a record (lines 98, 248-285) *)
Section RaceName.
Variables driver_t elem_t W : Type.
Variable B : browser driver_t elem_t W.
Local Abbreviation St := (state driver_t elem_t W).

Lemma build_record_name (race_name designation : string)
  (row_index : option string) (s s' : St) (record : dict) :
  build_record B race_name designation row_index s = (Ok record, s') ->
  dict_get "Race Name" record = Some race_name.
Proof.
  unfold build_record.
  destruct ((designation =? "DNS") || (designation =? "DQ"));
    [| destruct (designation =? "DNF")];
    intros H;
    [unfold record_base_only in H | unfold record_dnf in H
     | unfold record_finisher in H];
    invert_binds H; subst record; reflexivity.
Qed.

Lemma extract_row_named (race_name : string) (i row_number : nat) :
  inv (named race_name) (extract_row B race_name i row_number).
Proof.
  inv_go
    ltac:(eapply inv_bind_value;
          [ intros ? ? ? _; apply build_record_name
          | inv_go fail ltac:(unfold named; frame_leaf)
          | intros record Hrecord;
            inv_go fail
              ltac:(unfold named; frame_leaf;
                    try (apply Forall_app; split; auto)) ])
    ltac:(unfold named; frame_leaf).
Qed.

(** X7.  The records held when a race has been processed, however it
    ended, are all records of that race: the list is emptied when the race
    starts, and each record appended carries the name of the race. *)
Theorem X7_records_are_of_the_race (fuel : nat) (target : RaceTarget)
  (s : St) :
  Forall (fun r => dict_get "Race Name" r = Some (Race_Name target))
         (race_results (snd (process_race B fuel target s))).
Proof.
  unfold process_race.
  unfold bind at 1. simpl.
  unfold bind at 1. simpl.
  match goal with
  | |- Forall _ (race_results (snd (?m ?s0))) =>
      change (named (Race_Name target) (snd (m s0)));
      assert (Hm : inv (named (Race_Name target)) m);
      [| apply Hm; unfold named; simpl; constructor]
  end.
  inv_go ltac:(apply extract_row_named) ltac:(unfold named; frame_leaf).
Qed.
End RaceName.

(** ** The sessions of a race (lines 101, 137-138, 326) *)
Section Sessions.
Variables driver_t elem_t W : Type.
Variable B : browser driver_t elem_t W.
Local Abbreviation St := (state driver_t elem_t W).
Local Abbreviation Event := (event driver_t elem_t).
Variable t0 : list Event.

Lemma was_quit_cons (ev : Event) (t : list Event) (d : driver_t) :
  was_quit t d -> was_quit (ev :: t) d.
Proof. intros (ev' & Hin & Hq). exists ev'. split; [right |]; assumption. Qed.

Lemma all_quit_settled (s : St) : all_quit t0 s -> settled t0 s.
Proof.
  intros (events & Ht & Hall). exists events. split; [exact Ht |].
  intros d Hd. left. apply Hall, Hd.
Qed.

(** A call that opens no session. *)
Lemma settled_event (R : Type) (c : call driver_t elem_t R) :
  (forall a, opened_by (Ev c a) = None) ->
  stands_event (@settled _ _ W t0) c.
Proof.
  intros Hc s w a (events & Ht & Hall).
  exists (Ev c a :: events). split; [simpl; rewrite Ht; reflexivity |].
  intros d (ev & [<- | Hin] & Ho); [rewrite Hc in Ho; discriminate |].
  destruct (Hall d (ex_intro _ ev (conj Hin Ho))) as [Hq | Hd].
  - left. apply was_quit_cons, Hq.
  - right. exact Hd.
Qed.

(** The session that [driver] names is quit. *)
Lemma quit_settles (s : St) (d0 : driver_t) (w : W) :
  settled t0 s -> driver s = Some d0 ->
  all_quit t0 (set_world w (set_trace (Ev (Quit d0) (inr tt) :: trace s) s)).
Proof.
  intros (events & Ht & Hall) Hd0.
  exists (Ev (Quit d0) (inr tt) :: events).
  split; [simpl; rewrite Ht; reflexivity |].
  intros d (ev & [<- | Hin] & Ho); [discriminate |].
  destruct (Hall d (ex_intro _ ev (conj Hin Ho))) as [Hq | Hd].
  - apply was_quit_cons, Hq.
  - exists (Ev (Quit d0) (inr tt)). split; [left; reflexivity |].
    simpl. congruence.
Qed.

(** A session is opened and [driver] is bound to it. *)
Lemma open_settles (s : St) (d1 : driver_t) (w : W) :
  all_quit t0 s ->
  settled t0
    (set_driver (Some d1)
       (set_world w (set_trace (Ev Chrome (inr d1) :: trace s) s))).
Proof.
  intros (events & Ht & Hall).
  exists (Ev Chrome (inr d1) :: events).
  split; [simpl; rewrite Ht; reflexivity |].
  intros d (ev & [<- | Hin] & Ho).
  - right. simpl in Ho |- *. exact Ho.
  - left. apply was_quit_cons, Hall. exists ev. split; assumption.
Qed.

Lemma open_fails (s : St) (e : exn) (w : W) :
  all_quit t0 s ->
  settled t0 (set_world w (set_trace (Ev Chrome (inl e) :: trace s) s)).
Proof.
  intros (events & Ht & Hall).
  exists (Ev Chrome (inl e) :: events).
  split; [simpl; rewrite Ht; reflexivity |].
  intros d (ev & [<- | Hin] & Ho); [discriminate |].
  left. apply was_quit_cons, Hall. exists ev. split; assumption.
Qed.
End Sessions.

Ltac session_leaf :=
  first
    [ apply settled_event; intros; reflexivity
    | split; intros; apply settled_event; intros; reflexivity
    | stands_intro; unfold settled in *; simpl in *; assumption ].

Section SessionsOfTheScript.
Variables driver_t elem_t W : Type.
Variable B : browser driver_t elem_t W.
Local Abbreviation St := (state driver_t elem_t W).
Local Abbreviation Event := (event driver_t elem_t).

(** [driver = webdriver.Chrome()] and what follows it. *)
Lemma open_and_go (t0 : list Event) (A : Type)
  (k : driver_t -> M St A) :
  (forall d, inv (settled t0) (k d)) ->
  hoare (all_quit t0)
    (d <- remote B Chrome ;; modify (set_driver (Some d)) ;; k d)
    (settled t0).
Proof.
  intros Hk s H. unfold bind at 1. unfold remote at 1.
  destruct (handle B Chrome (world s)) as [[e | d1] w1];
    [apply open_fails, H |].
  unfold bind at 1. unfold modify at 1. cbv beta iota.
  apply Hk. apply open_settles, H.
Qed.

Lemma start_driver_settles (t0 : list Event) (race_url : string) :
  hoare (all_quit t0) (start_driver B race_url) (settled t0).
Proof.
  unfold start_driver. apply open_and_go. intros d. inv_go fail session_leaf.
Qed.

Lemma restart_driver_settled (t0 : list Event) (race_url : string) :
  inv (settled t0) (restart_driver B race_url).
Proof.
  intros s H. unfold restart_driver. unfold bind at 1. unfold read_var at 1.
  destruct (driver s) as [d0 |] eqn:Ed; [| exact H].
  unfold bind at 1. unfold remote at 1.
  destruct (handle B (Quit d0) (world s)) as [[e | []] w1].
  - apply (@settled_event _ _ _ t0 unit (Quit d0)); [reflexivity | exact H].
  - cbv beta iota.
    apply (@open_and_go t0 unit); [| apply quit_settles; assumption].
    intros d. inv_go fail session_leaf.
Qed.

Lemma scrape_race_settled (t0 : list Event) (fuel : nat)
  (race_url race_name : string) :
  inv (settled t0)
    (try_except (scrape_race B fuel race_url race_name)
       (fun e => print ("🚨 Error processing " ++ race_url ++ ": "
                          ++ str_prefix 100 (exn_str e)))).
Proof.
  inv_go ltac:(apply restart_driver_settled) session_leaf.
Qed.

Lemma quit_driver_settles (t0 : list Event) :
  triple (settled t0) (quit_driver B) (all_quit t0) (settled t0).
Proof.
  intros s H. unfold quit_driver, bind, read_var.
  destruct (driver s) as [d0 |] eqn:Ed; [| exact H].
  unfold remote.
  destruct (handle B (Quit d0) (world s)) as [[e | []] w1]; simpl.
  - apply (@settled_event _ _ _ t0 unit (Quit d0)); [reflexivity | exact H].
  - apply quit_settles; assumption.
Qed.

Lemma guarded_race_settles (t0 : list Event) (fuel : nat)
  (race_url race_name : string) :
  triple (settled t0) (guarded_race B fuel race_url race_name)
    (all_quit t0) (fun _ => True).
Proof.
  intros s H. unfold guarded_race, try_finally.
  pose proof (@scrape_race_settled t0 fuel race_url race_name s H) as Hb.
  match goal with
  | |- context [try_except ?b ?h s] => destruct (try_except b h s) as [r s1]
  end.
  simpl in Hb.
  pose proof (@quit_driver_settles t0 s1 Hb) as Hq.
  destruct r as [[] | e |]; [| | exact I];
    destruct (quit_driver B s1) as [[[] | e' |] s2]; simpl in *;
    solve [exact I | exact Hq].
Qed.

Lemma process_race_settles (fuel : nat) (target : RaceTarget) (s s' : St) :
  process_race B fuel target s = (Ok tt, s') -> all_quit (trace s) s'.
Proof.
  unfold process_race. cbv zeta. intros H.
  apply bind_Ok in H as ([] & s1 & E1 & H).
  apply bind_Ok in H as ([] & s2 & E2 & H).
  apply bind_Ok in H as ([] & s3 & E3 & H).
  inversion E1; subst s1. inversion E2; subst s2. clear E1 E2.
  match type of E3 with
  | start_driver _ _ ?s0 = _ =>
      assert (H2 : all_quit (trace s) s0)
        by (exists []; split; [reflexivity | intros d (ev & [] & _)]);
      pose proof (@start_driver_settles (trace s) (URL target) s0 H2) as H3
  end.
  rewrite E3 in H3. simpl in H3.
  pose proof (@guarded_race_settles (trace s) fuel (URL target)
                (Race_Name target) s3 H3) as H4.
  rewrite H in H4. exact H4.
Qed.

Lemma all_quit_trans (s1 s2 : St) (t0 : list Event) :
  all_quit t0 s1 -> all_quit (trace s1) s2 -> all_quit t0 s2.
Proof.
  intros (e1 & Ht1 & H1) (e2 & Ht2 & H2).
  exists (e2 ++ e1)%list. split; [rewrite Ht2, Ht1, app_assoc; reflexivity |].
  intros d (ev & Hin & Ho). apply in_app_or in Hin as [Hin | Hin].
  - destruct (H2 d (ex_intro _ ev (conj Hin Ho))) as (ev' & Hin' & Hq).
    exists ev'. split; [apply in_or_app; left; exact Hin' | exact Hq].
  - destruct (H1 d (ex_intro _ ev (conj Hin Ho))) as (ev' & Hin' & Hq).
    exists ev'. split; [apply in_or_app; right; exact Hin' | exact Hq].
Qed.

Lemma for_each_race_settles (fuel : nat) (races : list RaceTarget) :
  forall s s' : St,
    for_each races (process_race B fuel) s = (Ok tt, s') ->
    all_quit (trace s) s'.
Proof.
  induction races as [| target rest IH]; intros s s' H.
  - inversion H; subst. exists []. split; [reflexivity |].
    intros d (ev & [] & _).
  - cbn [for_each] in H. apply bind_Ok in H as ([] & s1 & E1 & H).
    eapply all_quit_trans; [eapply process_race_settles; exact E1 |].
    apply IH, H.
Qed.

(** X8.  When a race has been processed without an exception, every
    session that [webdriver.Chrome()] returned while it was has been passed
    to a [quit()] that came back: the sessions closed by the restarts and
    the last one closed by the [finally].  The same holds of a whole run
    that completes. *)
Theorem X8_completed_race_leaves_no_session_open :
  (forall (fuel : nat) (target : RaceTarget) (s : St) (d : driver_t),
      let s' := snd (process_race B fuel target s) in
      fst (process_race B fuel target s) = Ok tt ->
      was_opened (events_since s s') d -> was_quit (events_since s s') d)
  /\ (forall (fuel : nat) (race_data : list RaceTarget) (s : St)
             (d : driver_t),
         let s' := snd (main B fuel race_data s) in
         fst (main B fuel race_data s) = Ok tt ->
         was_opened (events_since s s') d -> was_quit (events_since s s') d).
Proof.
  split.
  - intros fuel target s d s' Hok. subst s'.
    destruct (process_race B fuel target s) as [r s'] eqn:E.
    simpl in Hok |- *. subst r.
    apply process_race_settles in E as (events & Ht & Hall).
    rewrite (events_since_app _ _ _ Ht). apply Hall.
  - intros fuel race_data s d s' Hok. subst s'.
    destruct (main B fuel race_data s) as [r s'] eqn:E.
    simpl in Hok |- *. subst r. unfold main in E.
    apply bind_Ok in E as ([] & s1 & E1 & E).
    assert (Hs' : trace s' = trace s1) by (inversion E; reflexivity).
    apply for_each_race_settles in E1 as (events & Ht & Hall).
    rewrite <- Hs' in Ht.
    rewrite (events_since_app _ _ _ Ht). apply Hall.
Qed.
End SessionsOfTheScript.

Lemma was_opened_sessions (driver_t elem_t : Type)
  (t : list (event driver_t elem_t)) (d : driver_t) :
  In d (sessions_opened t) -> was_opened t d.
Proof.
  unfold sessions_opened. rewrite in_flat_map. intros (ev & Hin & Hd).
  exists ev. split; [exact Hin |].
  destruct (opened_by ev) as [d' |]; [| contradiction].
  destruct Hd as [-> | []]. reflexivity.
Qed.

(** X8 at work: the race with three dates, first of its run, opens three
    sessions, and each of them has been quit when the run completes. *)
Lemma X8_witness_three_dates :
  let s := initial_state nat Fixture.element
             (Fixture.new_web [Scenarios.three_dates] 0 None) in
  let run := main Fixture.chrome Scenarios.fuel
               [Scenarios.target_of "im-gamma"] s in
  fst run = Ok tt
  /\ sessions_opened (events_since s (snd run)) = [3; 2; 1]
  /\ was_quit (events_since s (snd run)) 1
  /\ was_quit (events_since s (snd run)) 2
  /\ was_quit (events_since s (snd run)) 3.
Proof.
  intros s run.
  assert (Hok : fst run = Ok tt) by (vm_compute; reflexivity).
  assert (Hs : sessions_opened (events_since s (snd run)) = [3; 2; 1])
    by (vm_compute; reflexivity).
  pose proof (proj2 (@X8_completed_race_leaves_no_session_open
                       nat Fixture.element Fixture.web Fixture.chrome)
                Scenarios.fuel [Scenarios.target_of "im-gamma"] s) as H.
  cbv zeta in H.
  split; [exact Hok |]. split; [exact Hs |].
  repeat split; apply H; try exact Hok;
    apply was_opened_sessions; fold run; rewrite Hs; simpl; tauto.
Defined.

(** ** What a statement can cost *)
Section AddsRules.
Variables driver_t elem_t W : Type.
Local Abbreviation St := (state driver_t elem_t W).
Variable mu : St -> nat.

Lemma adds_weaken (A : Type) (k k' : nat) (m : M St A) :
  adds mu k m -> k <= k' -> adds mu k' m.
Proof. intros H Hk s. specialize (H s). lia. Qed.

Lemma adds_inv (A : Type) (m : M St A) :
  (forall c, inv (fun s => mu s <= c) m) -> adds mu 0 m.
Proof. intros H s. specialize (H (mu s) s (le_n _)). simpl in H. lia. Qed.

Lemma adds_ret (A : Type) (a : A) : adds mu 0 (ret a).
Proof. intros s. simpl. lia. Qed.

Lemma adds_bind (A C : Type) (a b : nat) (m : M St A) (k : A -> M St C) :
  adds mu a m -> (forall x, adds mu b (k x)) -> adds mu (a + b) (bind m k).
Proof.
  intros Hm Hk s. unfold bind. specialize (Hm s).
  destruct (m s) as [[x | e |] s1]; simpl in *; try lia.
  specialize (Hk x s1). lia.
Qed.

Lemma adds_try_except (A : Type) (a b : nat) (body : M St A)
  (handler : exn -> M St A) :
  adds mu a body -> (forall e, adds mu b (handler e)) ->
  adds mu (a + b) (try_except body handler).
Proof.
  intros Hb Hh s. unfold try_except. specialize (Hb s).
  destruct (body s) as [[x | e |] s1]; simpl in *; try lia.
  specialize (Hh e s1). lia.
Qed.

Lemma adds_attempts_from (a b : nat) (body : M St unit)
  (handler : nat -> exn -> M St unit) :
  adds mu a body -> (forall i e, adds mu b (handler i e)) ->
  forall n i, adds mu (n * (a + b)) (attempts_from i n body handler).
Proof.
  intros Hb Hh n; induction n as [| n IH]; intros i.
  - apply adds_ret.
  - cbn [attempts_from]. apply adds_weaken with (k := (a + b) + n * (a + b));
      [| simpl; lia].
    apply adds_bind.
    + apply adds_weaken with (k := (a + 0) + (b + 0)); [| lia].
      apply adds_try_except.
      * apply adds_bind; [exact Hb | intros; apply adds_ret].
      * intros e. apply adds_bind; [apply Hh | intros; apply adds_ret].
    + intros [|]; [| apply IH].
      apply adds_weaken with (k := 0); [apply adds_ret | lia].
Qed.
End AddsRules.

(** ** The retry budgets (lines 135, 212-232, 234) *)
Section Budgets.
Variables driver_t elem_t W : Type.
Variable B : browser driver_t elem_t W.
Local Abbreviation St := (state driver_t elem_t W).

(** A statement made of calls that are no lookups. *)
Ltac no_lookup :=
  apply adds_inv; intros;
  inv_go fail ltac:(stands_intro; unfold lookups, count_events in *;
                    simpl in *; assumption).

Lemma find_text_lookups (xpath : string) :
  adds lookups 1 (find_text B xpath).
Proof.
  unfold find_text.
  apply adds_weaken with (k := 0 + (1 + 0)); [| lia].
  apply adds_bind; [no_lookup | intros d].
  apply adds_bind; [| intros e; no_lookup].
  intros s. unfold remote.
  destruct (handle B (FindElement d (XPATH, xpath)) (world s)) as [r w'].
  unfold lookups, count_events. simpl. lia.
Qed.

Lemma get_text_loop_lookups (delay : nat) (xpath : string) :
  forall n, adds lookups n (get_text_loop B n delay xpath).
Proof.
  induction n as [| n IH]; [apply adds_ret |].
  cbn [get_text_loop].
  apply adds_weaken with (k := ((1 + 0) + 0) + n); [| lia].
  apply adds_bind.
  - apply adds_try_except.
    + apply adds_bind; [apply find_text_lookups | intros; apply adds_ret].
    + intros e. no_lookup.
  - intros [t |]; [| exact IH].
    apply adds_weaken with (k := 0); [apply adds_ret | lia].
Qed.

Lemma first_text_lookups (xpaths : list string) :
  adds lookups (List.length xpaths) (first_text B xpaths).
Proof.
  induction xpaths as [| x xs IH]; [apply adds_ret |].
  cbn [first_text List.length].
  apply adds_weaken with (k := ((1 + 0) + 0) + List.length xs); [| lia].
  apply adds_bind.
  - apply adds_try_except.
    + apply adds_bind; [apply find_text_lookups | intros; apply adds_ret].
    + intros e. apply adds_ret.
  - intros [t |]; [| exact IH].
    apply adds_weaken with (k := 0); [apply adds_ret | lia].
Qed.

Lemma by_data_field_loop_lookups (delay : nat) (xpaths : list string) :
  forall n,
    adds lookups (n * List.length xpaths)
         (by_data_field_loop B n delay xpaths).
Proof.
  induction n as [| n IH]; [apply adds_ret |].
  cbn [by_data_field_loop].
  apply adds_weaken
    with (k := List.length xpaths + (0 + n * List.length xpaths));
    [| simpl; lia].
  apply adds_bind; [apply first_text_lookups |].
  intros [t |].
  - apply adds_weaken with (k := 0); [apply adds_ret | lia].
  - apply adds_bind; [no_lookup | intros; exact IH].
Qed.

Lemma get_text_lookups (xpath : string) : adds lookups 3 (get_text B xpath).
Proof. apply get_text_loop_lookups. Qed.

Lemma get_text_by_data_field_lookups (row_index : option string)
  (field_name : string) :
  adds lookups 6 (get_text_by_data_field B row_index field_name).
Proof.
  apply (by_data_field_loop_lookups 500 (xpath_variants row_index field_name) 3).
Qed.

(** Walking down a statement, adding up the lookups. *)
Ltac lookups_go :=
  lazymatch goal with
  | |- adds _ _ (bind _ _) =>
      eapply adds_bind; [lookups_go | intros; lookups_go]
  | |- adds _ _ (get_text _ _) => apply get_text_lookups
  | |- adds _ _ (get_text_by_data_field _ _ _) =>
      apply get_text_by_data_field_lookups
  | |- adds _ _ _ => no_lookup
  end.

Lemma build_record_lookups (race_name designation : string)
  (row_index : option string) :
  adds lookups 54 (build_record B race_name designation row_index).
Proof.
  unfold build_record.
  destruct ((designation =? "DNS") || (designation =? "DQ"));
    [| destruct (designation =? "DNF")];
    [unfold record_base_only | unfold record_dnf | unfold record_finisher];
    (eapply adds_weaken; [lookups_go | simpl; lia]).
Qed.

Lemma extract_row_lookups (race_name : string) (i row_number : nat) :
  adds lookups 57 (extract_row B race_name i row_number).
Proof.
  unfold extract_row.
  eapply adds_weaken;
    [ do 7 (eapply adds_bind; [no_lookup | intros]);
      eapply adds_bind; [apply get_text_lookups | intros];
      eapply adds_bind; [apply build_record_lookups | intros];
      no_lookup
    | simpl; lia ].
Qed.

(** X9.  The retry budget of a field read bounds the element lookups: a
    read by label makes at most 3 calls of [find_element], a read by data
    field at most 6 (two xpath variants, three rounds), one attempt at a
    row at most 57, and a row, with its ten attempts, at most 570. *)
Theorem X9_lookup_budget :
  (forall (xpath : string) (s : St),
      lookups (snd (get_text B xpath s)) <= lookups s + 3)
  /\ (forall (row_index : option string) (field_name : string) (s : St),
         lookups (snd (get_text_by_data_field B row_index field_name s))
         <= lookups s + 6)
  /\ (forall (race_name : string) (i row_number : nat) (s : St),
         lookups (snd (extract_row B race_name i row_number s))
         <= lookups s + 57)
  /\ (forall (race_name : string) (i row_number : nat) (s : St),
         lookups (snd (process_row B race_name i row_number s))
         <= lookups s + 570).
Proof.
  split; [| split; [| split]].
  - intros. apply get_text_lookups.
  - intros. apply get_text_by_data_field_lookups.
  - intros. apply extract_row_lookups.
  - intros race_name i row_number.
    change (adds lookups 570 (process_row B race_name i row_number)).
    unfold process_row, attempts.
    apply adds_weaken with (k := 10 * (57 + 0) + 0); [| simpl; lia].
    apply adds_bind; [| intros; apply adds_ret].
    apply adds_attempts_from; [apply extract_row_lookups |].
    intros a e. no_lookup.
Qed.
End Budgets.

(** ** The records of a row (lines 234-291) *)
Section RowRecords.
Variables driver_t elem_t W : Type.
Variable B : browser driver_t elem_t W.
Local Abbreviation St := (state driver_t elem_t W).
Local Abbreviation held := (fun s : St => List.length (race_results s)).

Ltac no_record := apply adds_inv; intros; inv_go fail frame_leaf.

Lemma append_result_adds (i row_number : nat) (record : dict) :
  adds held 1 (@append_result driver_t elem_t W i row_number record).
Proof. intros s. simpl. rewrite length_app. simpl. lia. Qed.

Lemma extract_row_adds (race_name : string) (i row_number : nat) :
  adds held 1 (extract_row B race_name i row_number).
Proof.
  unfold extract_row.
  eapply adds_weaken;
    [ do 9 (eapply adds_bind; [no_record | intros]);
      eapply adds_bind; [apply append_result_adds | intros];
      no_record
    | simpl; lia ].
Qed.

Lemma process_row_appends (race_name : string) (i row_number : nat)
  (r0 : list dict) :
  inv (fun s : St => is_prefix r0 (race_results s))
      (process_row B race_name i row_number).
Proof.
  inv_go fail
    ltac:(stands_intro; simpl in *;
          first
            [ assumption
            | match goal with
              | H : is_prefix _ _ |- _ =>
                  let rest := fresh "rest" in
                  let Hr := fresh "Hr" in
                  destruct H as [rest Hr]; eexists;
                  rewrite Hr, <- app_assoc; reflexivity
              end ]).
Qed.

(** X10.  A row never stops the page: its ten attempts always complete.
    They only append to the records, at most one record each, so that a row
    adds at most ten records. *)
Theorem X10_row_adds_at_most_ten_records (race_name : string)
  (i row_number : nat) (s : St) :
  let s' := snd (process_row B race_name i row_number s) in
  fst (process_row B race_name i row_number s) = Ok tt
  /\ is_prefix (race_results s) (race_results s')
  /\ List.length (race_results s') <= List.length (race_results s) + 10.
Proof.
  intros s'. subst s'. split; [| split].
  - destruct (@process_row_succeeds _ _ _ B race_name i row_number s)
      as [[] H].
    exact H.
  - apply (@process_row_appends race_name i row_number (race_results s) s).
    exists []. symmetry. apply app_nil_r.
  - revert s.
    change (adds held 10 (process_row B race_name i row_number)).
    unfold process_row, attempts.
    apply adds_weaken with (k := 10 * (1 + 0) + 0); [| simpl; lia].
    apply adds_bind; [| intros; apply adds_ret].
    apply adds_attempts_from; [apply extract_row_adds |].
    intros a e. no_record.
Qed.

Lemma triple_inv (A : Type) (I Qok Qexit : St -> Prop) (m : M St A) :
  inv I m -> (forall s, I s -> Qok s) -> (forall s, I s -> Qexit s) ->
  triple I m Qok Qexit.
Proof.
  intros H Hok Hexit s Hs. specialize (H s Hs).
  destruct (fst (m s)); auto.
Qed.

Lemma extract_row_appends_one (race_name : string) (i row_number n : nat) :
  triple (fun s : St => held s = n)
         (extract_row B race_name i row_number)
         (fun s : St => held s = n + 1)
         (fun s : St => held s <= n + 1).
Proof.
  unfold extract_row.
  do 9 (apply triple_bind with (P' := fun s : St => held s = n);
        [ apply hoare_inv; inv_go fail frame_leaf
        | intros ?
        | intros ? ?; simpl in *; lia ]).
  apply triple_bind with (P' := fun s : St => held s = n + 1);
    [ intros s Hs; simpl in *; rewrite length_app; simpl; lia
    | intros _
    | intros ? ?; simpl in *; lia ].
  apply triple_inv; [inv_go fail frame_leaf | auto | intros; simpl in *; lia].
Qed.

(** X11.  An attempt at a row that completes has appended exactly one
    record, and when the first attempt completes the row is done with it:
    there is no second attempt, and the row has one record. *)
Theorem X11_completed_attempt_records_once (race_name : string)
  (i row_number : nat) (s s1 : St) :
  extract_row B race_name i row_number s = (Ok tt, s1) ->
  process_row B race_name i row_number s = (Ok tt, s1)
  /\ List.length (race_results s1) = List.length (race_results s) + 1.
Proof.
  intros E. split.
  - unfold process_row, attempts. cbn [attempts_from].
    unfold bind, try_except. rewrite E. reflexivity.
  - pose proof (@extract_row_appends_one race_name i row_number
                  (List.length (race_results s)) s eq_refl) as H.
    rewrite E in H. exact H.
Qed.
End RowRecords.

(** X11 at work: the only row of the site, which closes at the first
    click. *)
Lemma X11_witness_one_row :
  let s := Scenarios.opened_on Scenarios.one_row in
  let s1 := snd (extract_row Fixture.chrome "im-eta" 0 0 s) in
  extract_row Fixture.chrome "im-eta" 0 0 s = (Ok tt, s1)
  /\ process_row Fixture.chrome "im-eta" 0 0 s = (Ok tt, s1)
  /\ List.length (race_results s1) = List.length (race_results s) + 1.
Proof.
  intros s s1.
  assert (E : extract_row Fixture.chrome "im-eta" 0 0 s = (Ok tt, s1)).
  { assert (Hok : fst (extract_row Fixture.chrome "im-eta" 0 0 s) = Ok tt)
      by (vm_compute; reflexivity).
    subst s1. destruct (extract_row Fixture.chrome "im-eta" 0 0 s).
    simpl in Hok |- *. rewrite Hok. reflexivity. }
  split; [exact E |].
  exact (@X11_completed_attempt_records_once
           nat Fixture.element Fixture.web Fixture.chrome "im-eta" 0 0 s s1 E).
Defined.

(** ** The sessions a date can cost (lines 132-150) *)
Section OpensBudget.
Variables driver_t elem_t W : Type.
Variable B : browser driver_t elem_t W.
Local Abbreviation St := (state driver_t elem_t W).

Ltac no_open :=
  apply adds_inv; intros;
  inv_go fail ltac:(stands_intro; unfold opens, count_events in *;
                    simpl in *; assumption).

Lemma chrome_opens_one : adds (@opens _ _ _) 1 (remote B (@Chrome driver_t elem_t)).
Proof.
  intros s. unfold remote.
  destruct (handle B Chrome (world s)) as [r w'].
  unfold opens, count_events. simpl. lia.
Qed.

Lemma restart_driver_opens (race_url : string) :
  adds (@opens _ _ _) 1 (restart_driver B race_url).
Proof.
  unfold restart_driver.
  eapply adds_weaken;
    [ do 2 (eapply adds_bind; [no_open | intros]);
      eapply adds_bind; [apply chrome_opens_one | intros];
      no_open
    | simpl; lia ].
Qed.

Lemma restart_if_due_opens (race_url : string) :
  adds (@opens _ _ _) 10 (restart_if_due B race_url).
Proof.
  unfold restart_if_due.
  apply adds_weaken with (k := 0 + 10); [| lia].
  apply adds_bind; [no_open | intros c].
  destruct ((0 <? c)%nat && (c mod 1 =? 0)%nat);
    [| apply adds_weaken with (k := 0); [apply adds_ret | lia]].
  apply adds_weaken with (k := 0 + (10 * (1 + 0) + 0)); [| simpl; lia].
  apply adds_bind; [no_open | intros _].
  apply adds_bind; [| intros; apply adds_ret].
  unfold attempts. apply adds_attempts_from; [apply restart_driver_opens |].
  intros a e. no_open.
Qed.

Lemma process_date_opens (fuel : nat) (race_url race_name : string)
  (i : nat) :
  adds (@opens _ _ _) 10 (process_date B fuel race_url race_name i).
Proof.
  unfold process_date.
  apply adds_weaken with (k := 10 + 0); [| lia].
  apply adds_bind; [apply restart_if_due_opens | intros _].
  no_open.
Qed.

(** The opens since [s0] are paid for by the dates since [s0], ten each,
    and [extra]. *)
Local Abbreviation paid := (fun (extra : nat) (s0 s : St) =>
  race_date_counter s0 <= race_date_counter s
  /\ opens s + 10 * race_date_counter s0
     <= opens s0 + extra + 10 * race_date_counter s).

Ltac paid_leaf :=
  stands_intro; unfold opens, count_events in *; simpl in *; assumption.

Lemma process_date_paid (s0 : St) (fuel : nat) (race_url race_name : string)
  (i : nat) :
  inv (paid 1 s0) (process_date B fuel race_url race_name i).
Proof.
  intros s [H1 H2].
  pose proof (@process_date_counts _ _ _ B fuel race_url race_name i s) as Hc.
  pose proof (process_date_opens fuel race_url race_name i s) as Ho.
  split; lia.
Qed.

(** X12.  A date opens at most ten sessions, whatever fails: the restart
    gives up after ten attempts.  A race therefore opens at most one
    session at its start and ten for each date it goes through. *)
Theorem X12_sessions_are_bounded :
  (forall (fuel : nat) (race_url race_name : string) (i : nat) (s : St),
      opens (snd (process_date B fuel race_url race_name i s))
      <= opens s + 10)
  /\ (forall (fuel : nat) (target : RaceTarget) (s : St),
         let final := snd (process_race B fuel target s) in
         race_date_counter s <= race_date_counter final
         /\ opens final
            <= opens s + 1
               + 10 * (race_date_counter final - race_date_counter s)).
Proof.
  split; [intros; apply process_date_opens |].
  intros fuel target s final.
  assert (Hm : hoare (paid 0 s) (process_race B fuel target) (paid 1 s)).
  2: { assert (H : paid 1 s final)
         by (apply Hm; simpl; lia).
       simpl in H. lia. }
  assert (Hweak : forall s' : St, paid 0 s s' -> paid 1 s s')
    by (simpl; intros; lia).
  unfold process_race. cbv zeta.
  apply hoare_bind with (P' := paid 0 s);
    [apply hoare_inv; inv_go fail paid_leaf | intros _ | exact Hweak].
  apply hoare_bind with (P' := paid 0 s);
    [apply hoare_inv; inv_go fail paid_leaf | intros _ | exact Hweak].
  apply hoare_bind with (P' := paid 1 s).
  - intros s1 H1.
    pose proof (@chrome_opens_one s1) as Ho.
    assert (Hs : inv (fun s' : St =>
                        race_date_counter s' = race_date_counter s1)
                     (start_driver B (URL target)))
      by (inv_go fail frame_leaf).
    specialize (Hs s1 eq_refl). simpl in Hs.
    assert (Ha : adds (@opens _ _ _) 1 (start_driver B (URL target))).
    { unfold start_driver.
      eapply adds_weaken;
        [ eapply adds_bind; [apply chrome_opens_one | intros]; no_open
        | simpl; lia ]. }
    specialize (Ha s1). simpl in H1 |- *. lia.
  - intros _. apply hoare_inv.
    inv_go ltac:(apply process_date_paid) paid_leaf.
  - auto.
Qed.
End OpensBudget.

(** ** The log of a run (lines 94, 321, 324, 328) *)
Lemma prefix_app (p x : string) : String.prefix p (p ++ x) = true.
Proof.
  induction p as [| c p IH]; simpl; [destruct x; reflexivity |].
  destruct (ascii_dec c c) as [_ | Hc]; [exact IH | contradiction].
Qed.

Lemma saved_line_is_saved (f : string) :
  is_saved_line ("✅ Saved: " ++ f) = true.
Proof. apply prefix_app. Qed.

Lemma saved_line_is_report (f : string) :
  is_report_line ("✅ Saved: " ++ f) = true.
Proof. unfold is_report_line. rewrite saved_line_is_saved. reflexivity. Qed.

Lemma error_line_is_report (f : string) :
  is_report_line ("🚨 Error processing " ++ f) = true
  /\ is_saved_line ("🚨 Error processing " ++ f) = false.
Proof.
  split; [| reflexivity].
  unfold is_report_line. rewrite (prefix_app "🚨 Error processing " f).
  apply orb_true_r.
Qed.

(** A line is printed that is no report. *)
Ltac other_line :=
  idtac;
  lazymatch goal with
  | |- inv _ (print _) =>
      unfold print; apply inv_modify; intros ? ?;
      unfold reports, saved_lines, is_report_line, is_saved_line in *;
      simpl in *; assumption
  end.

Ltac log_leaf :=
  stands_intro; unfold reports, saved_lines in *; simpl in *; assumption.

Section Log.
Variables driver_t elem_t W : Type.
Variable B : browser driver_t elem_t W.
Local Abbreviation St := (state driver_t elem_t W).

Lemma collect_dates_reports (fuel : nat) (race_url race_name : string)
  (k : nat) :
  inv (fun s : St => reports s = k) (collect_dates B fuel race_url race_name).
Proof. inv_go other_line log_leaf. Qed.

Lemma quit_driver_reports (k : nat) :
  inv (fun s : St => reports s = k) (quit_driver B).
Proof. inv_go other_line log_leaf. Qed.

Lemma start_driver_reports (race_url : string) (k : nat) :
  inv (fun s : St => reports s = k) (start_driver B race_url).
Proof. inv_go other_line log_leaf. Qed.

Lemma save_results_reports (race_name : string) (s : St) :
  fst (save_results race_name s) = Ok tt
  /\ reports (snd (save_results race_name s)) = reports s + 1.
Proof.
  unfold save_results, bind, gets, write_csv, print, modify.
  cbv beta iota. split; [reflexivity |].
  unfold reports. cbn [snd stdout set_stdout set_files filter].
  rewrite saved_line_is_report. simpl. lia.
Qed.

(** The per-race [try] with its [except]: one report, whichever. *)
Lemma tried_race_reports (fuel : nat) (race_url race_name : string)
  (s : St) :
  let tried :=
    try_except (scrape_race B fuel race_url race_name)
      (fun e => print ("🚨 Error processing " ++ race_url ++ ": "
                         ++ str_prefix 100 (exn_str e))) s in
  fst tried <> Diverge -> reports (snd tried) = reports s + 1.
Proof.
  intros tried. subst tried. unfold try_except, scrape_race, bind.
  pose proof (@collect_dates_reports fuel race_url race_name (reports s) s
                eq_refl) as Hc.
  destruct (collect_dates B fuel race_url race_name s) as [[[] | e |] s1];
    simpl in Hc.
  - intros _. rewrite <- Hc. apply save_results_reports.
  - intros _. unfold print, modify. cbv beta iota.
    unfold reports in *. cbn [snd stdout set_stdout filter].
    rewrite (proj1 (error_line_is_report _)). simpl. lia.
  - intros H. exfalso. apply H. reflexivity.
Qed.

Lemma guarded_race_reports (fuel : nat) (race_url race_name : string)
  (s s' : St) :
  guarded_race B fuel race_url race_name s = (Ok tt, s') ->
  reports s' = reports s + 1.
Proof.
  unfold guarded_race, try_finally.
  pose proof (tried_race_reports fuel race_url race_name s) as Ht.
  cbv zeta in Ht.
  match goal with
  | |- context [try_except ?b ?h s] => destruct (try_except b h s) as [r s1]
  end.
  simpl in Ht.
  pose proof (@quit_driver_reports (reports s1) s1 eq_refl) as Hq.
  destruct r as [[] | e |]; [| | discriminate];
    destruct (quit_driver B s1) as [[[] | e' |] s2]; simpl in Hq;
    intros H; inversion H; subst.
  rewrite Hq. apply Ht. discriminate.
Qed.

Lemma process_race_reports (fuel : nat) (target : RaceTarget) (s s' : St) :
  process_race B fuel target s = (Ok tt, s') -> reports s' = reports s + 1.
Proof.
  unfold process_race. cbv zeta. intros H.
  apply bind_Ok in H as ([] & s1 & E1 & H).
  apply bind_Ok in H as ([] & s2 & E2 & H).
  apply bind_Ok in H as ([] & s3 & E3 & H).
  assert (H1 : reports s1 = reports s).
  { assert (Hp : inv (fun s0 : St => reports s0 = reports s)
                   (@print driver_t elem_t W
                      (NL ++ "📍 Processing: " ++ Race_Name target ++ " | "
                          ++ URL target))) by other_line.
    specialize (Hp s eq_refl). rewrite E1 in Hp. exact Hp. }
  assert (H2 : reports s2 = reports s1)
    by (inversion E2; subst; reflexivity).
  pose proof (@start_driver_reports (URL target) (reports s2) s2 eq_refl)
    as H3.
  rewrite E3 in H3. simpl in H3.
  apply guarded_race_reports in H. lia.
Qed.

Lemma for_each_race_reports (fuel : nat) (races : list RaceTarget) :
  forall s s' : St,
    for_each races (process_race B fuel) s = (Ok tt, s') ->
    reports s' = reports s + List.length races.
Proof.
  induction races as [| target rest IH]; intros s s' H.
  - inversion H; subst. simpl. lia.
  - cbn [for_each] in H. apply bind_Ok in H as ([] & s1 & E1 & H).
    apply process_race_reports in E1. apply IH in H. simpl. lia.
Qed.

Lemma save_results_balance (race_name : string) (s0 : St) :
  inv (fun s : St =>
         saved_lines s + List.length (files s0)
         = saved_lines s0 + List.length (files s))
      (save_results race_name).
Proof.
  intros s H.
  unfold save_results, bind, gets, write_csv, print, modify.
  cbv beta iota. unfold saved_lines in *.
  cbn [snd stdout files set_stdout set_files filter].
  rewrite saved_line_is_saved. simpl. lia.
Qed.

(** X13.  A run that completes has reported every race of the catalogue
    exactly once, as saved or as failed.  And however a run ends, it has
    printed as many lines that say saved as it has written files. *)
Theorem X13_every_race_is_reported :
  (forall (fuel : nat) (race_data : list RaceTarget) (s : St),
      fst (main B fuel race_data s) = Ok tt ->
      reports (snd (main B fuel race_data s))
      = reports s + List.length race_data)
  /\ (forall (fuel : nat) (race_data : list RaceTarget) (s : St),
         let final := snd (main B fuel race_data s) in
         saved_lines final + List.length (files s)
         = saved_lines s + List.length (files final)).
Proof.
  split.
  - intros fuel race_data s Hok.
    destruct (main B fuel race_data s) as [r s'] eqn:E.
    simpl in Hok |- *. subst r. unfold main in E.
    apply bind_Ok in E as ([] & s1 & E1 & E).
    apply for_each_race_reports in E1.
    assert (Hp : inv (fun s0 : St => reports s0 = reports s1)
                   (@print driver_t elem_t W
                      (NL ++ "🎉 All races processed!"))) by other_line.
    specialize (Hp s1 eq_refl). rewrite E in Hp. simpl in Hp. lia.
  - intros fuel race_data s final. subst final.
    assert (Hm : inv (fun s' : St =>
                        saved_lines s' + List.length (files s)
                        = saved_lines s + List.length (files s'))
                     (main B fuel race_data)); [| apply Hm; reflexivity].
    inv_go ltac:(first [apply save_results_balance | other_line]) log_leaf.
Qed.
End Log.

(** X13 at work: a catalogue of two races, the first with an empty table
    and so abandoned, the second saved; two reports, one file. *)
Lemma X13_witness_one_failed_one_saved :
  let s := initial_state nat Fixture.element
             (Fixture.new_web [Scenarios.no_results; Scenarios.one_row]
                0 None) in
  let run := main Fixture.chrome Scenarios.fuel
               [Scenarios.target_of "im-zeta"; Scenarios.target_of "im-eta"]
               s in
  fst run = Ok tt
  /\ reports (snd run) = reports s + 2
  /\ saved_lines (snd run) = 1
  /\ List.length (files (snd run)) = 1.
Proof.
  intros s run.
  assert (Hok : fst run = Ok tt) by (vm_compute; reflexivity).
  split; [exact Hok |]. split; [| split; vm_compute; reflexivity].
  exact (proj1 (@X13_every_race_is_reported
                  nat Fixture.element Fixture.web Fixture.chrome)
           Scenarios.fuel
           [Scenarios.target_of "im-zeta"; Scenarios.target_of "im-eta"]
           s Hok).
Defined.

(** ** The retry loops (lines 135-150, 153-170, 178-193, 212-232, 297-311) *)
Section Containment.
Variables driver_t elem_t W : Type.
Variable B : browser driver_t elem_t W.
Local Abbreviation St := (state driver_t elem_t W).

(** X14.  No exception gets out of a field read, of the restart of the
    driver, of the selection of a date, of the setting of the page size or
    of the step to the next page: whatever the browser answers, each of
    them completes, and the script goes on. *)
Theorem X14_retry_loops_never_raise :
  (forall xpath, succeeds (get_text B xpath))
  /\ (forall row_index field_name,
         succeeds (get_text_by_data_field B row_index field_name))
  /\ (forall race_url, succeeds (restart_if_due B race_url))
  /\ (forall i, succeeds (select_with_retries B i))
  /\ succeeds (set_rows_with_retries B)
  /\ succeeds (next_page B).
Proof.
  split; [intros; apply succeeds_get_text |].
  split; [intros; apply succeeds_get_text_by_data_field |].
  split; [intros; apply restart_if_due_succeeds |].
  split; [intros; apply select_with_retries_succeeds |].
  split; [apply set_rows_with_retries_succeeds | apply next_page_succeeds].
Qed.
End Containment.

(** ** The report of a race (lines 319-326) *)
Lemma str_prefix_length (n : nat) :
  forall s, String.length (str_prefix n s) <= n.
Proof.
  unfold str_prefix. induction n as [| n IH]; intros [| c s]; simpl;
    try lia.
  specialize (IH s). lia.
Qed.

Lemma str_prefix_prefix (n : nat) :
  forall s, String.prefix (str_prefix n s) s = true.
Proof.
  unfold str_prefix. induction n as [| n IH]; intros [| c s]; simpl;
    try reflexivity.
  destruct (ascii_dec c c) as [_ | Hc]; [apply IH | contradiction].
Qed.

Section Report.
Variables driver_t elem_t W : Type.
Variable B : browser driver_t elem_t W.
Local Abbreviation St := (state driver_t elem_t W).

Lemma quit_driver_prints_nothing (o : list string) :
  inv (fun s : St => stdout s = o) (quit_driver B).
Proof. inv_go fail frame_leaf. Qed.

End Report.

(** ** Where the value of a field comes from (lines 212-232) *)
Section FieldValues.
Variables driver_t elem_t W : Type.
Variable B : browser driver_t elem_t W.
Local Abbreviation St := (state driver_t elem_t W).

(** The latest call is a [.text] that returned [t]. *)
Local Abbreviation just_read := (fun (t : string) (s : St) =>
  exists e rest, trace s = Ev (GetText e) (inr t) :: rest).

Lemma find_text_just_read (xpath : string) (s s' : St) (t : string) :
  find_text B xpath s = (Ok t, s') -> just_read t s'.
Proof.
  unfold find_text. intros H.
  apply bind_Ok in H as (d & s1 & _ & H).
  apply bind_Ok in H as (e & s2 & _ & H).
  unfold remote in H.
  destruct (handle B (GetText e) (world s2)) as [[e' | t'] w'];
    inversion H; subst.
  exists e, (trace s2). reflexivity.
Qed.

Lemma get_text_loop_value (delay : nat) (xpath : string) :
  forall n (s s' : St) (r : result string),
    get_text_loop B n delay xpath s = (r, s') ->
    exists t, r = Ok t /\ (t = "N/A" \/ just_read t s').
Proof.
  induction n as [| n IH]; intros s s' r H.
  - inversion H; subst. exists "N/A". split; [reflexivity | left; reflexivity].
  - cbn [get_text_loop] in H. unfold bind at 1 in H.
    unfold try_except, bind at 1 in H.
    pose proof (@total_find_text _ _ _ B xpath s) as Ht.
    destruct (find_text B xpath s) as [[t | e |] s1] eqn:E.
    + inversion H; subst. exists t. split; [reflexivity |]. right.
      apply (find_text_just_read xpath s E).
    + unfold bind at 1 in H. unfold time_sleep, modify, ret in H.
      cbv beta iota in H. apply IH in H. exact H.
    + exfalso. apply Ht. reflexivity.
Qed.

Lemma first_text_value (xpaths : list string) :
  forall (s s' : St) (r : result (option string)),
    first_text B xpaths s = (r, s') ->
    exists v, r = Ok v
              /\ match v with
                 | Some t => just_read t s'
                 | None => True
                 end.
Proof.
  induction xpaths as [| x xs IH]; intros s s' r H.
  - inversion H; subst. exists None. split; [reflexivity | exact I].
  - cbn [first_text] in H. unfold bind at 1 in H.
    unfold try_except, bind at 1 in H.
    pose proof (@total_find_text _ _ _ B x s) as Ht.
    destruct (find_text B x s) as [[t | e |] s1] eqn:E.
    + inversion H; subst. exists (Some t). split; [reflexivity |].
      apply (find_text_just_read x s E).
    + unfold ret at 1 in H. cbv beta iota in H. apply IH in H. exact H.
    + exfalso. apply Ht. reflexivity.
Qed.

Lemma by_data_field_loop_value (delay : nat) (xpaths : list string) :
  forall n (s s' : St) (r : result string),
    by_data_field_loop B n delay xpaths s = (r, s') ->
    exists t, r = Ok t /\ (t = "N/A" \/ just_read t s').
Proof.
  induction n as [| n IH]; intros s s' r H.
  - inversion H; subst. exists "N/A". split; [reflexivity | left; reflexivity].
  - cbn [by_data_field_loop] in H. unfold bind at 1 in H.
    destruct (first_text B xpaths s) as [r1 s1] eqn:E.
    apply first_text_value in E as (v & -> & Hv).
    destruct v as [t |].
    + inversion H; subst. exists t. split; [reflexivity | right; exact Hv].
    + unfold bind at 1 in H. unfold time_sleep, modify in H.
      cbv beta iota in H. apply IH in H. exact H.
Qed.

(** X16.  The value of a field is never made up: a field read returns
    either the sentinel ["N/A"] or the text that the latest call of the
    run, a [.text] on an element, has just returned. *)
Theorem X16_field_value_is_read_or_sentinel :
  (forall (xpath : string) (s : St),
      exists t,
        fst (get_text B xpath s) = Ok t
        /\ (t = "N/A"
            \/ exists e rest,
                 trace (snd (get_text B xpath s))
                 = Ev (GetText e) (inr t) :: rest))
  /\ (forall (row_index : option string) (field_name : string) (s : St),
         exists t,
           fst (get_text_by_data_field B row_index field_name s) = Ok t
           /\ (t = "N/A"
               \/ exists e rest,
                    trace (snd (get_text_by_data_field B row_index
                                  field_name s))
                    = Ev (GetText e) (inr t) :: rest)).
Proof.
  split.
  - intros xpath s.
    destruct (get_text B xpath s) as [r s'] eqn:E.
    apply (get_text_loop_value 500 xpath 3) in E. exact E.
  - intros row_index field_name s.
    destruct (get_text_by_data_field B row_index field_name s) as [r s']
      eqn:E.
    apply (by_data_field_loop_value 500
             (xpath_variants row_index field_name) 3) in E.
    exact E.
Qed.
End FieldValues.

(** ** What the steps before the table leave alone (lines 132-193) *)
Section Frames.
Variables driver_t elem_t W : Type.
Variable B : browser driver_t elem_t W.
Local Abbreviation St := (state driver_t elem_t W).

(** X17.  The restart of the driver, the selection of the date and the
    setting of the page size neither add nor drop a record, write no file
    and leave the date counter alone, however they end.  The restart and
    the page size leave the date label alone as well, and the selection
    and the page size the session. *)
Theorem X17_steps_before_the_table_keep_the_records (s : St) :
  (forall race_url,
      let s' := snd (restart_if_due B race_url s) in
      race_results s' = race_results s /\ files s' = files s
      /\ race_date_counter s' = race_date_counter s
      /\ race_date_text s' = race_date_text s)
  /\ (forall i,
         let s' := snd (select_with_retries B i s) in
         race_results s' = race_results s /\ files s' = files s
         /\ race_date_counter s' = race_date_counter s
         /\ driver s' = driver s)
  /\ (let s' := snd (set_rows_with_retries B s) in
      race_results s' = race_results s /\ files s' = files s
      /\ race_date_counter s' = race_date_counter s
      /\ race_date_text s' = race_date_text s
      /\ driver s' = driver s).
Proof.
  split; [| split].
  - intros race_url.
    assert (H : inv (fun s' : St =>
                       race_results s' = race_results s
                       /\ files s' = files s
                       /\ race_date_counter s' = race_date_counter s
                       /\ race_date_text s' = race_date_text s)
                    (restart_if_due B race_url))
      by (inv_go fail frame_leaf).
    apply H. repeat split.
  - intros i.
    assert (H : inv (fun s' : St =>
                       race_results s' = race_results s
                       /\ files s' = files s
                       /\ race_date_counter s' = race_date_counter s
                       /\ driver s' = driver s)
                    (select_with_retries B i))
      by (inv_go fail frame_leaf).
    apply H. repeat split.
  - assert (H : inv (fun s' : St =>
                       race_results s' = race_results s
                       /\ files s' = files s
                       /\ race_date_counter s' = race_date_counter s
                       /\ race_date_text s' = race_date_text s
                       /\ driver s' = driver s)
                    (set_rows_with_retries B))
      by (inv_go fail frame_leaf).
    apply H. repeat split.
Qed.
End Frames.
